(** * Executor manager of the alto bundler: a shallow embedding and its properties

    The development follows [src/executor/executorManager.ts].  Values keep
    the shape they have in the source: [bigint] and integral [number] are [Z],
    hex strings (hashes, addresses, topics) are [string], [T | undefined] is
    [option T], arrays are lists, objects shared by reference live in a heap
    and are named by their location.  Code that can raise returns a [Result];
    code that changes the manager, the mempool or a collaborator threads a
    [World]. *)

From Stdlib Require Import ZArith String Lia.
From stdpp Require Import base tactics option list numbers strings gmap.

Local Open Scope string_scope.
Local Open Scope list_scope.
Local Open Scope Z_scope.

(** ** Values shared by all parts *)

Abbreviation Address := string (only parsing).
Abbreviation Hash := string (only parsing).
Abbreviation HexData32 := string (only parsing).

(** What a [throw] carries.  [JsError msg] is [new Error(msg)]; a
    [JsTypeError] is what property access on [undefined] raises;
    [TransactionReceiptNotFoundError] is viem's class of that name;
    [CollaboratorError] stands for any other rejection of a collaborator. *)
Inductive Exn : Type :=
| JsError (msg : string)
| JsTypeError (msg : string)
| TransactionReceiptNotFoundError
| CollaboratorError (msg : string).

#[global] Instance Exn_eq_dec : EqDecision Exn.
Proof. solve_decision. Defined.

Inductive Result (A : Type) : Type :=
| Ok (a : A)
| Throw (e : Exn).
Arguments Ok {A} a.
Arguments Throw {A} e.

Definition is_throw {A} (r : Result A) : bool :=
  match r with Ok _ => false | Throw _ => true end.

(** What the caller of an awaited call gets to catch, if anything. *)
Definition rejection {A} (r : Result A) : option Exn :=
  match r with Ok _ => None | Throw e => Some e end.

(** [Array.prototype.slice(start, end)]: a negative bound counts from the
    end of the array, both bounds are clamped to [0 .. length]. *)
Definition relativeIndex (len i : Z) : Z :=
  if i <? 0 then Z.max (len + i) 0 else Z.min i len.

Definition slice {A} (start stop : Z) (l : list A) : list A :=
  let len := Z.of_nat (length l) in
  let k := relativeIndex len start in
  let final := relativeIndex len stop in
  take (Z.to_nat (final - k)) (drop (Z.to_nat k) l).

(** [s.includes(sub)] on strings. *)
Definition includes (s sub : string) : bool :=
  match String.index 0 sub s with Some _ => true | None => false end.

(** ** Receipt reconstruction: [getUserOperationReceipt] *)

Module Receipt.

Record Log : Type := mkLog {
  address : Address;
  topics : list string;
  data : string;
  blockHash : option string;
  blockNumber : option Z;
  transactionIndex : option Z;
  transactionHash : option string;
  logIndex : option Z
}.

Record TransactionReceipt : Type := mkReceipt {
  effectiveGasPrice : option Z;
  (* the field read through [(transactionReceipt as any).gasPrice] *)
  gasPrice : option Z;
  logs : list Log;
  status : string
}.

Record Transaction : Type := mkTransaction {
  tx_gasPrice : option Z
}.

Definition withEffectiveGasPrice (r : TransactionReceipt) (p : Z) : TransactionReceipt :=
  {| effectiveGasPrice := Some p; gasPrice := gasPrice r; logs := logs r; status := status r |}.

(** *** The receipt fetch (source lines 681-716) *)

Section Fetch.

(** The public client.  Its answers may change from one attempt of the loop
    to the next: [rpcGetTransactionReceipt n] and [rpcGetTransaction n] are
    what the client answers during attempt [n]. *)
Variable rpcGetTransactionReceipt : nat -> Result TransactionReceipt.
Variable rpcGetTransaction : nat -> Result Transaction.

(** [a ?? b] *)
Definition nullish {A} (a b : option A) : option A :=
  match a with Some x => Some x | None => b end.

(** The body of the [try] block during attempt [n]. *)
Definition attempt (n : nat) : Result TransactionReceipt :=
  match rpcGetTransactionReceipt n with
  | Throw e => Throw e
  | Ok transactionReceipt =>
      let effectiveGasPrice0 :=
        nullish (effectiveGasPrice transactionReceipt)
                (nullish (gasPrice transactionReceipt) None) in
      let fetched :=
        match effectiveGasPrice0 with
        | None =>
            match rpcGetTransaction n with
            | Throw e => Throw e
            | Ok tx => Ok (nullish (tx_gasPrice tx) None)
            end
        | Some p => Ok (Some p)
        end in
      match fetched with
      | Throw e => Throw e
      | Ok (Some p) =>
          (* [if (effectiveGasPrice)]: [0n] is falsy *)
          if p =? 0 then Ok transactionReceipt
          else Ok (withEffectiveGasPrice transactionReceipt p)
      | Ok None => Ok transactionReceipt
      end
  end.

(** [while (true) { try { ... return } catch (e) { if (e instanceof
    TransactionReceiptNotFoundError) continue; throw e } }].  The loop has no
    bound of its own; [fuel] bounds the number of attempts the model runs and
    [None] says that the loop is still running when the fuel is spent. *)
Fixpoint getTransactionReceiptFrom (fuel n : nat) : option (Result TransactionReceipt) :=
  match fuel with
  | O => None
  | S fuel' =>
      match attempt n with
      | Ok transactionReceipt => Some (Ok transactionReceipt)
      | Throw TransactionReceiptNotFoundError => getTransactionReceiptFrom fuel' (S n)
      | Throw e => Some (Throw e)
      end
  end.

Definition getTransactionReceipt (fuel : nat) : option (Result TransactionReceipt) :=
  getTransactionReceiptFrom fuel O.

End Fetch.

(** *** Locating the logs of the user operation (source lines 719-780) *)

Section Locate.

(** [decodeEventLog] of viem on a [UserOperationRevertReason] log; it raises
    on data that does not fit the ABI. *)
Variable decodeRevertReason : Log -> Result string.
(** [encodeEventTopics({abi: userOperationRevertReasonAbi})[0]] *)
Variable userOperationRevertReasonTopicEvent : string.
(** [userOperationEvent.topics], the topics of the first log returned by the
    filter on the queried hash. *)
Variable eventTopics : list string.

Definition zeroAddress : Address := "0x0000000000000000000000000000000000000000".

Record Scan : Type := mkScan {
  entryPoint : Address;
  revertReason : option string;
  startIndex : Z;
  endIndex : Z
}.

Definition scanInit : Scan :=
  {| entryPoint := zeroAddress; revertReason := None; startIndex := -1; endIndex := -1 |}.

(** [a === b] on two array reads, either of which may be [undefined]. *)
Definition topicEq (a b : option string) : bool := bool_decide (a = b).

(** [log.topics[0] === userOperationEvent.topics[0]]: the log is a
    [UserOperationEvent]. *)
Definition isUserOperationEvent (log : Log) : bool :=
  topicEq (topics log !! 0%nat) (eventTopics !! 0%nat).

(** [log.topics[1] === userOperationEvent.topics[1]]: the log carries the
    hash that was asked for. *)
Definition hasOurHash (log : Log) : bool :=
  topicEq (topics log !! 1%nat) (eventTopics !! 1%nat).

(** A [UserOperationEvent] of the operation asked for, and one of another
    operation. *)
Definition isOurEvent (log : Log) : bool := isUserOperationEvent log && hasOurHash log.
Definition isOtherEvent (log : Log) : bool := isUserOperationEvent log && negb (hasOurHash log).

Definition isRevertReasonEvent (log : Log) : bool :=
  topicEq (topics log !! 0%nat) (Some userOperationRevertReasonTopicEvent).

(** The callback of [logs.forEach((log, index) => ...)]. *)
Definition scanLog (st : Scan) (log : Log) (index : Z) : Result Scan :=
  let st1 :=
    if isUserOperationEvent log then
      if hasOurHash log then
        {| entryPoint := address log; revertReason := revertReason st;
           startIndex := startIndex st; endIndex := index |}
      else if endIndex st =? -1 then
        {| entryPoint := entryPoint st; revertReason := revertReason st;
           startIndex := index; endIndex := endIndex st |}
      else st
    else st in
  if isRevertReasonEvent log then
    if hasOurHash log then
      match decodeRevertReason log with
      | Throw e => Throw e
      | Ok reason =>
          Ok {| entryPoint := entryPoint st1; revertReason := Some reason;
                startIndex := startIndex st1; endIndex := endIndex st1 |}
      end
    else Ok st1
  else Ok st1.

Fixpoint forEachLog (l : list Log) (index : Z) (st : Scan) : Result Scan :=
  match l with
  | [] => Ok st
  | log :: rest =>
      match scanLog st log index with
      | Throw e => Throw e
      | Ok st' => forEachLog rest (index + 1) st'
      end
  end.

(** [logs.some(log => log.blockHash === null || ... || log.topics.length === 0)] *)
Definition isNull {A} (o : option A) : bool :=
  match o with None => true | Some _ => false end.

Definition incomplete (log : Log) : bool :=
  isNull (blockHash log) || isNull (blockNumber log)
  || isNull (transactionIndex log) || isNull (transactionHash log)
  || isNull (logIndex log) || (length (topics log) =? 0)%nat.

Record Located : Type := mkLocated {
  loc_entryPoint : Address;
  loc_reason : option string;
  filteredLogs : list Log
}.

(** From [const logs = receipt.logs] to [const filteredLogs = ...]: [Ok None]
    is [return null] (transaction pending). *)
Definition locateLogs (receipt : TransactionReceipt) : Result (option Located) :=
  let logs := logs receipt in
  if existsb incomplete logs then Ok None
  else
    match forEachLog logs 0 scanInit with
    | Throw e => Throw e
    | Ok st =>
        if endIndex st =? -1 then Throw (JsError "fatal: no UserOperationEvent in logs")
        else Ok (Some {| loc_entryPoint := entryPoint st; loc_reason := revertReason st;
                         filteredLogs := slice (startIndex st + 1) (endIndex st) logs |})
    end.

End Locate.

(** *** Concrete receipts *)

Definition uoeTopic : string := "0x49628fd1".
Definition revertTopic : string := "0x1c4fada7".
Definition transferTopic : string := "0xddf252ad".
Definition hashA : string := "0xaaaa".
Definition hashB : string := "0xbbbb".
Definition hashC : string := "0xcccc".
Definition entryPointV06 : Address := "0x5FF137D4b0FDCD49DcA30c7CF57E578a026d2789".
Definition tokenAddress : Address := "0x23B608675a2B2fB1890d3ABBd85c5775c51691d5".

Definition minedLog (addr : Address) (tps : list string) (i : Z) : Log :=
  {| address := addr; topics := tps; data := "0x"; blockHash := Some "0xb10c";
     blockNumber := Some 12; transactionIndex := Some 0;
     transactionHash := Some "0x7a"; logIndex := Some i |}.

Definition decodeAny (log : Log) : Result string := Ok (data log).

(** A bundle with the single operation [hashA], whose execution emitted
    one token transfer before the entry point reported the operation. *)
Definition soleOpReceipt : TransactionReceipt :=
  {| effectiveGasPrice := Some 7; gasPrice := None;
     logs := [ minedLog tokenAddress [transferTopic] 0;
               minedLog entryPointV06 [uoeTopic; hashA] 1 ];
     status := "success" |}.

(** A bundle with the operations [hashA], [hashB], [hashC] in this order. *)
Definition threeOpsReceipt : TransactionReceipt :=
  {| effectiveGasPrice := Some 7; gasPrice := None;
     logs := [ minedLog tokenAddress [transferTopic] 0;
               minedLog entryPointV06 [uoeTopic; hashA] 1;
               minedLog tokenAddress [transferTopic] 2;
               minedLog entryPointV06 [revertTopic; hashB] 3;
               minedLog entryPointV06 [uoeTopic; hashB] 4;
               minedLog entryPointV06 [uoeTopic; hashC] 5 ];
     status := "success" |}.

(** A node that answers with a receipt carrying the legacy [gasPrice] and
    no [effectiveGasPrice], and with a transaction of another price. *)
Definition legacyReceipt : TransactionReceipt :=
  {| effectiveGasPrice := None; gasPrice := Some 5; logs := []; status := "success" |}.
Definition bareReceipt : TransactionReceipt :=
  {| effectiveGasPrice := None; gasPrice := None; logs := []; status := "success" |}.
Definition legacyNodeReceipt (n : nat) : Result TransactionReceipt := Ok legacyReceipt.
Definition pricedTransaction (n : nat) : Result Transaction := Ok {| tx_gasPrice := Some 7 |}.
(** A node that cannot find the transaction. *)
Definition noTransaction (n : nat) : Result Transaction :=
  Throw (CollaboratorError "transaction not found").

(** A node that knows the receipt only from its fourth answer on. *)
Definition slowNodeReceipt (n : nat) : Result TransactionReceipt :=
  if (n <? 3)%nat then Throw TransactionReceiptNotFoundError else Ok bareReceipt.
Definition neverFound (n : nat) : Result TransactionReceipt :=
  Throw TransactionReceiptNotFoundError.

(** ** The rest of [getUserOperationReceipt] *)

(** *** The scan in closed form *)

(** The position, counted from [i], of the last element of [l] that
    satisfies [p]. *)
Fixpoint lastIndexFrom {A} (p : A -> bool) (l : list A) (i : Z) : option Z :=
  match l with
  | [] => None
  | x :: rest =>
      match lastIndexFrom p rest (i + 1) with
      | Some k => Some k
      | None => if p x then Some i else None
      end
  end.

(** [-1] when there is none, as [startIndex] and [endIndex] start. *)
Definition lastIndex {A} (p : A -> bool) (l : list A) : Z :=
  default (-1) (lastIndexFrom p l 0).

(** The elements of [l] before the first that satisfies [p]. *)
Fixpoint before {A} (p : A -> bool) (l : list A) : list A :=
  match l with
  | [] => []
  | x :: rest => if p x then [] else x :: before p rest
  end.

(** A [UserOperationRevertReason] log of the operation asked for. *)
Definition isOurRevertReason (revertTopicEvent : string) (eventTopics : list string)
    (log : Log) : bool :=
  isRevertReasonEvent revertTopicEvent log && hasOurHash eventTopics log.

(** What has been decoded, [undefined] for what could not be. *)
Definition decoded (r : Result string) : option string :=
  match r with Ok reason => Some reason | Throw _ => None end.

(** A receipt in which the entry point reports the operation [hashA]
    twice, with the operation [hashB] in between. *)
Definition twiceReceipt : TransactionReceipt :=
  {| effectiveGasPrice := Some 7; gasPrice := None;
     logs := [ minedLog tokenAddress [transferTopic] 0;
               minedLog entryPointV06 [uoeTopic; hashA] 1;
               minedLog entryPointV06 [revertTopic; hashA] 2;
               minedLog entryPointV06 [uoeTopic; hashB] 3;
               minedLog tokenAddress [uoeTopic; hashA] 4;
               minedLog entryPointV06 [revertTopic; hashB] 5 ];
     status := "success" |}.

(** A decoder that accepts nothing. *)
Definition decodeNone (log : Log) : Result string :=
  Throw (JsError "data size too small").

(** *** [getUserOperationReceipt] as a whole (source lines 619-815) *)

(** [userOperationEvent.args], each member of which may be [undefined]. *)
Record EventArgs : Type := mkArgs {
  arg_actualGasCost : option Z;
  arg_sender : option Address;
  arg_nonce : option Z;
  arg_userOpHash : option HexData32;
  arg_success : option bool;
  arg_paymaster : option Address;
  arg_actualGasUsed : option Z
}.

(** An element of [filterResult]. *)
Record EventLog : Type := mkEventLog {
  ev_args : EventArgs;
  ev_transactionHash : option HexData32;
  ev_topics : list string
}.

(** The members of [args] once none of them is [undefined]. *)
Record DefinedArgs : Type := mkDefined {
  def_actualGasCost : Z;
  def_sender : Address;
  def_nonce : Z;
  def_success : bool;
  def_paymaster : Address;
  def_actualGasUsed : Z
}.

(** [GetUserOperationReceiptResponseResult]; [R] is what [receiptSchema]
    parses a receipt into. *)
Record UserOperationReceipt (R : Type) : Type := mkUserOperationReceipt {
  uo_userOpHash : HexData32;
  uo_entryPoint : Address;
  uo_sender : Address;
  uo_nonce : Z;
  uo_paymaster : option Address;
  uo_actualGasUsed : Z;
  uo_actualGasCost : Z;
  uo_success : bool;
  uo_reason : option string;
  uo_logs : list Log;
  uo_receipt : R
}.
Arguments mkUserOperationReceipt {R}.
Arguments uo_userOpHash {R}.
Arguments uo_entryPoint {R}.
Arguments uo_sender {R}.
Arguments uo_nonce {R}.
Arguments uo_paymaster {R}.
Arguments uo_actualGasUsed {R}.
Arguments uo_actualGasCost {R}.
Arguments uo_success {R}.
Arguments uo_reason {R}.
Arguments uo_logs {R}.
Arguments uo_receipt {R}.

(** The test of lines 663-671: [None] when a member is [undefined]. *)
Definition definedArgs (args : EventArgs) : option DefinedArgs :=
  match args with
  | {| arg_actualGasCost := Some actualGasCost; arg_sender := Some sender;
       arg_nonce := Some nonce; arg_userOpHash := Some _; arg_success := Some success;
       arg_paymaster := Some paymaster; arg_actualGasUsed := Some actualGasUsed |} =>
      Some {| def_actualGasCost := actualGasCost; def_sender := sender; def_nonce := nonce;
              def_success := success; def_paymaster := paymaster;
              def_actualGasUsed := actualGasUsed |}
  | _ => None
  end.

Section Whole.

(** What [receiptSchema] parses a receipt into. *)
Variable ParsedReceipt : Type.

(** The configuration: [this.rpcMaxBlockRange], an integral number, and
    [this.entryPoints]. *)
Variable rpcMaxBlockRange : option Z.
Variable entryPoints : list Address.

(** The public client.  [getLogs] is asked for the [UserOperationEvent]s
    of the entry points with the given hash, from [fromBlock], and to
    "latest" when the flag is set. *)
Variable getBlockNumber : Result Z.
Variable getLogs : list Address -> option Z -> bool -> HexData32 -> Result (list EventLog).
Variable rpcGetTransactionReceipt : HexData32 -> nat -> Result TransactionReceipt.
Variable rpcGetTransaction : HexData32 -> nat -> Result Transaction.

Variable decodeRevertReason : Log -> Result string.
Variable userOperationRevertReasonTopicEvent : string.

(** [z.array(logSchema).safeParse] and [receiptSchema.safeParse], with the
    error [fromZodError] makes of a failure; the receipt is parsed with its
    status replaced by a number. *)
Variable parseLogs : list Log -> Result (list Log).
Variable parseReceipt : TransactionReceipt -> Z -> Result ParsedReceipt.

(** Lines 625-634: [fromBlock] and whether [toBlock] is "latest". *)
Definition blockRange : Result (option Z * bool) :=
  match rpcMaxBlockRange with
  | None => Ok (None, false)
  | Some range =>
      match getBlockNumber with
      | Throw e => Throw e
      | Ok latestBlock =>
          let fromBlock := latestBlock - range in
          Ok (Some (if fromBlock <? 0 then 0 else fromBlock), true)
      end
  end.

(** [receipt.status === "success" ? 1 : 0] *)
Definition statusNumber (receipt : TransactionReceipt) : Z :=
  if bool_decide (status receipt = "success") then 1 else 0.

(** [paymaster === zeroAddress ? undefined : paymaster] *)
Definition paymasterOf (paymaster : Address) : option Address :=
  if bool_decide (paymaster = zeroAddress) then None else Some paymaster.

(** From [const logs = receipt.logs] to the end (lines 719-814). *)
Definition assemble (userOperationHash : HexData32) (userOperationEvent : EventLog)
    (args : DefinedArgs) (receipt : TransactionReceipt)
    : Result (option (UserOperationReceipt ParsedReceipt)) :=
  match locateLogs decodeRevertReason userOperationRevertReasonTopicEvent
          (ev_topics userOperationEvent) receipt with
  | Throw e => Throw e
  | Ok None => Ok None
  | Ok (Some located) =>
      match parseLogs (filteredLogs located) with
      | Throw e => Throw e
      | Ok logsParsed =>
          match parseReceipt receipt (statusNumber receipt) with
          | Throw e => Throw e
          | Ok receiptParsed =>
              Ok (Some {| uo_userOpHash := userOperationHash;
                          uo_entryPoint := loc_entryPoint located;
                          uo_sender := def_sender args;
                          uo_nonce := def_nonce args;
                          uo_paymaster := paymasterOf (def_paymaster args);
                          uo_actualGasUsed := def_actualGasUsed args;
                          uo_actualGasCost := def_actualGasCost args;
                          uo_success := def_success args;
                          uo_reason := loc_reason located;
                          uo_logs := logsParsed;
                          uo_receipt := receiptParsed |})
          end
      end
  end.

(** [getUserOperationReceipt]; the lines written to the log are left out.
    [None] says that the receipt fetch is still retrying when the fuel is
    spent; [Some (Ok None)] is [return null]. *)
Definition getUserOperationReceipt (fuel : nat) (userOperationHash : HexData32)
    : option (Result (option (UserOperationReceipt ParsedReceipt))) :=
  match blockRange with
  | Throw e => Some (Throw e)
  | Ok (fromBlock, toLatest) =>
      match getLogs entryPoints fromBlock toLatest userOperationHash with
      | Throw e => Some (Throw e)
      | Ok [] => Some (Ok None)
      | Ok (userOperationEvent :: _) =>
          match definedArgs (ev_args userOperationEvent) with
          | None => Some (Throw (JsError "userOperationEvent has undefined members"))
          | Some args =>
              match ev_transactionHash userOperationEvent with
              | None => Some (Ok None)
              | Some txHash =>
                  match getTransactionReceipt (rpcGetTransactionReceipt txHash)
                          (rpcGetTransaction txHash) fuel with
                  | None => None
                  | Some (Throw e) => Some (Throw e)
                  | Some (Ok receipt) =>
                      Some (assemble userOperationHash userOperationEvent args receipt)
                  end
              end
          end
      end
  end.

End Whole.

(** *** A node that knows one operation *)

(** The [UserOperationEvent] of the operation [hashA], sent without a
    paymaster in the transaction "0x7a". *)
Definition eventA : EventLog :=
  {| ev_args := {| arg_actualGasCost := Some 21000; arg_sender := Some "0x5e4d";
                   arg_nonce := Some 3; arg_userOpHash := Some hashA;
                   arg_success := Some true; arg_paymaster := Some zeroAddress;
                   arg_actualGasUsed := Some 3000 |};
     ev_transactionHash := Some "0x7a";
     ev_topics := [uoeTopic; hashA] |}.

(** The same event seen while its transaction is pending. *)
Definition pendingEventA : EventLog :=
  {| ev_args := ev_args eventA; ev_transactionHash := None; ev_topics := ev_topics eventA |}.

Definition logsOfNode (found : list EventLog) (eps : list Address) (fromBlock : option Z)
    (toLatest : bool) (h : HexData32) : Result (list EventLog) :=
  if bool_decide (h = hashA) then Ok found else Ok [].

(** Schemas that accept what they are given. *)
Definition parseAnyLogs (logs : list Log) : Result (list Log) := Ok logs.
Definition parseAnyReceipt (receipt : TransactionReceipt) (statusNumber : Z)
    : Result (TransactionReceipt * Z) := Ok (receipt, statusNumber).

(** [getUserOperationReceipt] against a node that answers the filter with
    [found] and knows the receipt [soleOpReceipt]; the range of the filter
    is 100 blocks and the latest block is 12. *)
Definition receiptFromNode (found : list EventLog) (fuel : nat) (h : HexData32)
    : option (Result (option (UserOperationReceipt (TransactionReceipt * Z)))) :=
  getUserOperationReceipt (TransactionReceipt * Z) (Some 100) [entryPointV06] (Ok 12)
    (logsOfNode found) (fun _ _ => Ok soleOpReceipt) (fun _ => pricedTransaction)
    decodeAny revertTopic parseAnyLogs parseAnyReceipt fuel h.

(** What that node is expected to answer for [hashA]. *)
Definition receiptA : UserOperationReceipt (TransactionReceipt * Z) :=
  {| uo_userOpHash := hashA; uo_entryPoint := entryPointV06; uo_sender := "0x5e4d";
     uo_nonce := 3; uo_paymaster := None; uo_actualGasUsed := 3000;
     uo_actualGasCost := 21000; uo_success := true; uo_reason := None;
     uo_logs := [minedLog tokenAddress [transferTopic] 0];
     uo_receipt := (soleOpReceipt, 1) |}.

End Receipt.

(** ** The executor manager *)

Module Manager.

(** *** Data model *)

Abbreviation UserOperation := string (only parsing).
Abbreviation CompressedUserOperation := string (only parsing).

Inductive MempoolUserOperation : Type :=
| Plain (op : UserOperation)
| Compressed (op : CompressedUserOperation).

(** [isCompressedType(op)] *)
Definition isCompressedType (op : MempoolUserOperation) : bool :=
  match op with Plain _ => false | Compressed _ => true end.

Record UserOperationInfo : Type := mkOpInfo {
  mempoolUserOperation : MempoolUserOperation;
  userOperationHash : HexData32;
  entryPoint : Address;
  firstSubmitted : Z
}.

Record TransactionRequest : Type := mkRequest {
  gas : Z;
  nonce : Z;
  maxFeePerGas : Z;
  maxPriorityFeePerGas : Z
}.

Record TransactionInfo : Type := mkTxInfo {
  transactionHash : HexData32;
  previousTransactionHashes : list HexData32;
  transactionRequest : TransactionRequest;
  userOperationInfos : list UserOperationInfo;
  executor : Address;
  isVersion06 : bool;
  lastReplaced : Z;
  timesPotentiallyIncluded : Z
}.

(** A [TransactionInfo] is an object shared between the mempool, the
    executor results and the manager, and it is changed in place; it lives in
    the heap of the [World] and is passed around as its location. *)
Abbreviation TxRef := nat (only parsing).

Record SubmittedUserOperation : Type := mkSubmitted {
  userOperation : UserOperationInfo;
  transactionInfo : TxRef
}.

Inductive BundleResult : Type :=
| success (userOperation : UserOperationInfo) (transactionInfo : TxRef)
| failure (userOpHash : HexData32) (reason : string) (userOperation : MempoolUserOperation)
| resubmit (userOpHash : HexData32) (userOperation : MempoolUserOperation)
           (entryPoint : Address) (reason : string).

(** What a call of [executor.bundle] or [executor.bundleCompressed] hands
    back: the transaction objects it has created, which are placed at the
    next free heap locations in this order, and the result list. *)
Record ExecutorBundleReply : Type := mkReply {
  created : list TransactionInfo;
  results : list BundleResult
}.

Inductive ReplaceTransactionResult : Type :=
| failed
| potentially_already_included
| replaced (transactionInfo : TransactionInfo).

Definition replaceStatus (r : ReplaceTransactionResult) : string :=
  match r with
  | failed => "failed"
  | potentially_already_included => "potentially_already_included"
  | replaced _ => "replaced"
  end.

Record UserOperationDetails : Type := mkDetails {
  opStatus : string;
  accountDeployed : bool;
  opRevertReason : option string
}.

Inductive BundlingStatus : Type :=
| included (userOperationDetails : gmap string UserOperationDetails)
| reverted (isAA95 : bool) (reason : option string)
| not_found.

Definition statusName (s : BundlingStatus) : string :=
  match s with
  | included _ => "included"
  | reverted _ _ => "reverted"
  | not_found => "not_found"
  end.

(** One element of [transactionDetails]: the candidate hash together with
    what [getBundleStatus] answered for it. *)
Record TransactionDetail : Type := mkDetail {
  td_transactionHash : HexData32;
  bundlingStatus : BundlingStatus;
  td_blockNumber : option Z
}.

Record GasPriceParameters : Type := mkGasPrice {
  gp_maxFeePerGas : Z;
  gp_maxPriorityFeePerGas : Z
}.

Record Block : Type := mkBlock { number : option Z }.

(** *** Calls that leave the manager *)

Inductive LogLevel : Type := lvl_trace | lvl_debug | lvl_info | lvl_warn | lvl_error.

(** One constructor for each method of a collaborator the manager calls.
    A log line keeps its message and the hashes and addresses among its
    fields; [EvObserveInclusionDuration] keeps the milliseconds that the
    source divides by 1000 before it hands them to the histogram. *)
Inductive Event : Type :=
| EvLog (level : LogLevel) (msg : string) (fields : list string)
| EvMetric (name : string) (labels : list string) (amount : Z)
| EvObserveInclusionDuration (milliseconds : Z)
| EvMonitorStatus (userOpHash : HexData32) (status : string) (txHash : option HexData32)
| EvEmitDropped (userOpHash : HexData32) (reason aaError : string)
| EvEmitIncludedOnChain (userOpHash txHash : HexData32) (blockNumber : option Z)
| EvEmitExecutionRevertedOnChain (userOpHash txHash : HexData32) (reason : string)
                                 (blockNumber : option Z)
| EvEmitFailedOnChain (userOpHash txHash : HexData32) (blockNumber : option Z)
| EvReputationIncluded (op : UserOperation) (entryPoint : Address) (accountDeployed : bool)
| EvMarkWalletProcessed (wallet : Address)
| EvExecutorReplaceTransaction (r : TxRef) (seen : TransactionInfo)
| EvExecutorBundle (entryPoint : Address) (ops : list UserOperation)
| EvExecutorBundleCompressed (entryPoint : Address) (ops : list CompressedUserOperation)
| EvMempoolProcess (maxGas minCount : Z)
| EvMempoolMarkSubmitted (userOpHash : HexData32) (r : TxRef)
| EvMempoolRemoveProcessing (userOpHash : HexData32)
| EvMempoolRemoveSubmitted (userOpHash : HexData32)
| EvMempoolReplaceSubmitted (op : UserOperationInfo) (r : TxRef)
| EvMempoolAdd (op : MempoolUserOperation) (entryPoint : Address)
| EvGetBundleStatus (isVersion06 : bool) (txHash : HexData32) (entryPoint : Address)
| EvGetGasPrice
| EvWatchBlocks
| EvUnwatchBlocks
| EvWatchBlockNumber (userOpHash txHash : HexData32) (blockNumber : option Z).

(** *** The state *)

Record World : Type := mkWorld {
  heap : list TransactionInfo;
  (* the three stores of the mempool *)
  submitted : list SubmittedUserOperation;
  processing : list UserOperationInfo;
  outstanding : list (MempoolUserOperation * Address);
  (* [this.currentlyHandlingBlock] and whether [this.unWatch] is set *)
  currentlyHandlingBlock : bool;
  unWatch : bool;
  (* every call made on a collaborator so far, oldest first *)
  trace : list Event
}.

(** Configuration and collaborators.  What a collaborator answers may
    depend on everything that has happened so far, so each of them reads the
    world at the moment of the call. *)
Record Env : Type := mkEnv {
  entryPoints : list Address;
  maxGasLimitPerBundle : Z;
  aa95ResubmitMultiplier : Z;
  executor_bundle : World -> Address -> list UserOperation -> Result ExecutorBundleReply;
  executor_bundleCompressed :
    World -> Address -> list CompressedUserOperation -> Result ExecutorBundleReply;
  executor_replaceTransaction : World -> TransactionInfo -> Result ReplaceTransactionResult;
  mempool_process : World -> Z -> Z -> list UserOperationInfo;
  getBundleStatus : World -> bool -> HexData32 -> Address -> Result (BundlingStatus * option Z);
  getGasPrice : World -> Result GasPriceParameters;
  dateNow : World -> Z;
  deriveUserOperation : MempoolUserOperation -> UserOperation;
  getAAError : string -> string
}.

(** *** State and exceptions *)

Definition M (A : Type) : Type := World -> Result A * World.

#[global] Instance M_ret : MRet M := fun A a w => (Ok a, w).
#[global] Instance M_bind : MBind M := fun A B f m w =>
  match m w with
  | (Ok a, w') => f a w'
  | (Throw e, w') => (Throw e, w')
  end.

Definition ret {A} (a : A) : M A := mret a.
Definition bind {A B} (m : M A) (f : A -> M B) : M B := mbind f m.

Notation "x <-- m ; k" := (bind m (fun x => k))
  (at level 100, m at next level, k at level 200, right associativity,
   format "'[v' x  <--  m ; '/' k ']'").
Definition throw {A} (e : Exn) : M A := fun w => (Throw e, w).
Definition gets {A} (f : World -> A) : M A := fun w => (Ok (f w), w).
Definition modify (f : World -> World) : M unit := fun w => (Ok tt, f w).

(** [try { m } finally { h }] where [h] sees how [m] ended and does not
    raise itself. *)
Definition tryFinally {A} (m : M A) (h : Result A -> World -> World) : M A := fun w =>
  let '(r, w') := m w in (r, h r w').

(** A synchronous [for ... of] or [xs.map(f)] whose results are dropped: it
    stops at the first callback that raises. *)
Fixpoint forEach {A} (f : A -> M unit) (xs : list A) : M unit :=
  match xs with
  | [] => ret tt
  | x :: rest => f x;; forEach f rest
  end.

(** [await Promise.all(xs.map(async x => f x))].  An async callback never
    raises into [map], so every task is started and runs on even when one of
    them rejects; the awaiting caller sees a rejection if there is one.  The
    model runs the tasks one after the other in the order of the list, each
    awaited collaborator call being answered on the spot, and reports the
    rejection of the earliest task that has one. *)
Fixpoint promiseAll {A B} (f : A -> M B) (xs : list A) : M (list B) := fun w =>
  match xs with
  | [] => (Ok [], w)
  | x :: rest =>
      let '(r, w1) := f x w in
      let '(rs, w2) := promiseAll f rest w1 in
      (match r, rs with
       | Throw e, _ => Throw e
       | Ok _, Throw e => Throw e
       | Ok b, Ok bs => Ok (b :: bs)
       end, w2)
  end.

Definition setHeap (h : list TransactionInfo) (w : World) : World :=
  {| heap := h; submitted := submitted w; processing := processing w;
     outstanding := outstanding w; currentlyHandlingBlock := currentlyHandlingBlock w;
     unWatch := unWatch w; trace := trace w |}.
Definition setSubmitted (s : list SubmittedUserOperation) (w : World) : World :=
  {| heap := heap w; submitted := s; processing := processing w;
     outstanding := outstanding w; currentlyHandlingBlock := currentlyHandlingBlock w;
     unWatch := unWatch w; trace := trace w |}.
Definition setProcessing (p : list UserOperationInfo) (w : World) : World :=
  {| heap := heap w; submitted := submitted w; processing := p;
     outstanding := outstanding w; currentlyHandlingBlock := currentlyHandlingBlock w;
     unWatch := unWatch w; trace := trace w |}.
Definition setOutstanding (o : list (MempoolUserOperation * Address)) (w : World) : World :=
  {| heap := heap w; submitted := submitted w; processing := processing w;
     outstanding := o; currentlyHandlingBlock := currentlyHandlingBlock w;
     unWatch := unWatch w; trace := trace w |}.
Definition setCurrentlyHandlingBlock (b : bool) (w : World) : World :=
  {| heap := heap w; submitted := submitted w; processing := processing w;
     outstanding := outstanding w; currentlyHandlingBlock := b;
     unWatch := unWatch w; trace := trace w |}.
Definition setUnWatch (b : bool) (w : World) : World :=
  {| heap := heap w; submitted := submitted w; processing := processing w;
     outstanding := outstanding w; currentlyHandlingBlock := currentlyHandlingBlock w;
     unWatch := b; trace := trace w |}.
Definition record (ev : Event) (w : World) : World :=
  {| heap := heap w; submitted := submitted w; processing := processing w;
     outstanding := outstanding w; currentlyHandlingBlock := currentlyHandlingBlock w;
     unWatch := unWatch w; trace := trace w ++ [ev] |}.

Definition emit (ev : Event) : M unit := modify (record ev).
Definition log (level : LogLevel) (msg : string) (fields : list string) : M unit :=
  emit (EvLog level msg fields).

(** Reading a field of the object at [r].  Every location handed out by
    the mempool or the executor is allocated; a location outside the heap
    has no counterpart in the source and is made to raise. *)
Definition readTx (r : TxRef) : M TransactionInfo := fun w =>
  match heap w !! r with
  | Some txInfo => (Ok txInfo, w)
  | None => (Throw (JsTypeError "no such object"), w)
  end.

(** An assignment to a field of the object at [r]. *)
Definition updateTx (r : TxRef) (f : TransactionInfo -> TransactionInfo) : M unit :=
  modify (fun w => setHeap (alter f r (heap w)) w).

(** A new object enters the heap. *)
Definition allocTx (txInfo : TransactionInfo) : M TxRef := fun w =>
  (Ok (length (heap w)), setHeap (heap w ++ [txInfo]) w).

(** *** The mempool *)

Definition hashIs (h : HexData32) (e : SubmittedUserOperation) : bool :=
  bool_decide (userOperationHash (userOperation e) = h).

Definition otherHash (h : HexData32) (op : UserOperationInfo) : bool :=
  negb (bool_decide (userOperationHash op = h)).

(** Modelled from the spec: [MemoryMempool.dumpSubmittedOps], whose code is
    not part of the sources at hand; it hands out the submitted store. *)
Definition dumpSubmittedOps : M (list SubmittedUserOperation) := gets submitted.

(** Modelled from the spec: [MemoryMempool.removeSubmitted(opHash)]; the
    operation with this hash leaves the submitted store. *)
Definition removeSubmitted (h : HexData32) : M unit :=
  emit (EvMempoolRemoveSubmitted h);;
  modify (fun w => setSubmitted (List.filter (fun e => negb (hashIs h e)) (submitted w)) w).

(** Modelled from the spec: what [MemoryMempool.replaceSubmitted] does to
    one entry of the submitted store. *)
Definition rebind (opInfo : UserOperationInfo) (newTxInfo : TxRef)
    (e : SubmittedUserOperation) : SubmittedUserOperation :=
  if hashIs (userOperationHash opInfo) e
  then {| userOperation := opInfo; transactionInfo := newTxInfo |}
  else e.

(** Modelled from the spec: [MemoryMempool.replaceSubmitted(opInfo,
    newTxInfo)]; the submission of this operation now references the new
    transaction.  An operation that is not in the submitted store stays
    out of it. *)
Definition replaceSubmitted (opInfo : UserOperationInfo) (newTxInfo : TxRef) : M unit :=
  emit (EvMempoolReplaceSubmitted opInfo newTxInfo);;
  modify (fun w => setSubmitted (map (rebind opInfo newTxInfo) (submitted w)) w).

(** Modelled from the spec: [MemoryMempool.markSubmitted(opHash, txInfo)];
    the operation with this hash moves from the processing store to the
    submitted store, bound to the transaction. *)
Definition markSubmitted (h : HexData32) (txInfo : TxRef) : M unit :=
  emit (EvMempoolMarkSubmitted h txInfo);;
  modify (fun w =>
    match find (fun op => bool_decide (userOperationHash op = h)) (processing w) with
    | Some op =>
        setSubmitted (submitted w ++ [{| userOperation := op; transactionInfo := txInfo |}])
          (setProcessing (List.filter (otherHash h) (processing w)) w)
    | None => w
    end).

(** Modelled from the spec: [MemoryMempool.removeProcessing(opHash)]. *)
Definition removeProcessing (h : HexData32) : M unit :=
  emit (EvMempoolRemoveProcessing h);;
  modify (fun w => setProcessing (List.filter (otherHash h) (processing w)) w).

(** Modelled from the spec: [MemoryMempool.add(op, entryPoint)]; the
    operation is queued again. *)
Definition mempoolAdd (op : MempoolUserOperation) (ep : Address) : M unit :=
  emit (EvMempoolAdd op ep);;
  modify (fun w => setOutstanding (outstanding w ++ [(op, ep)]) w).

(** [new Set(xs)] read back with [Array.from]: the first occurrence of each
    element, in order. *)
Definition setFromList (xs : list TxRef) : list TxRef :=
  fold_left (fun acc x => if bool_decide (x ∈ acc) then acc else acc ++ [x]) xs [].

Definition getTransactionsFromUserOperationEntries
    (entries : list SubmittedUserOperation) : list TxRef :=
  setFromList (map transactionInfo entries).

(** The loop that fills [opEntryPointMap]:
    [if (!map.has(k)) map.set(k, []); map.get(k)?.push(v)]. *)
Definition groupByEntryPoint {A B} (key : A -> Address) (val : A -> B) (ops : list A)
    : gmap string (list B) :=
  fold_left
    (fun m op =>
       let m1 := match m !! key op with Some _ => m | None => <[key op := []]> m end in
       alter (fun l => l ++ [val op]) (key op) m1)
    ops ∅.

Section WithEnv.

Variable E : Env.

(** *** Calls on the collaborators *)

(** Modelled from the spec: [MemoryMempool.process(maxGas, minCount)]; the
    operations it hands out enter the processing store. *)
Definition mempoolProcess (maxGas minCount : Z) : M (list UserOperationInfo) := fun w =>
  let ops := mempool_process E w maxGas minCount in
  (Ok ops, setProcessing (processing w ++ ops) (record (EvMempoolProcess maxGas minCount) w)).

Definition placeCreated (reply : Result ExecutorBundleReply) : M (list BundleResult) :=
  match reply with
  | Throw e => throw e
  | Ok reply =>
      modify (fun w => setHeap (heap w ++ created reply) w);;
      ret (results reply)
  end.

Definition executorBundle (ep : Address) (ops : list UserOperation) : M (list BundleResult) :=
  emit (EvExecutorBundle ep ops);;
  reply <-- gets (fun w => executor_bundle E w ep ops);
  placeCreated reply.

Definition executorBundleCompressed (ep : Address) (ops : list CompressedUserOperation)
    : M (list BundleResult) :=
  emit (EvExecutorBundleCompressed ep ops);;
  reply <-- gets (fun w => executor_bundleCompressed E w ep ops);
  placeCreated reply.

Definition executorReplaceTransaction (r : TxRef) : M ReplaceTransactionResult :=
  txInfo <-- readTx r;
  emit (EvExecutorReplaceTransaction r txInfo);;
  reply <-- gets (fun w => executor_replaceTransaction E w txInfo);
  match reply with
  | Throw e => throw e
  | Ok res => ret res
  end.

Definition markWalletProcessed (wallet : Address) : M unit :=
  emit (EvMarkWalletProcessed wallet).

Definition fetchBundleStatus (isVersion06 : bool) (h : HexData32) (ep : Address)
    : M TransactionDetail :=
  emit (EvGetBundleStatus isVersion06 h ep);;
  reply <-- gets (fun w => getBundleStatus E w isVersion06 h ep);
  match reply with
  | Throw e => throw e
  | Ok (st, bn) =>
      ret {| td_transactionHash := h; bundlingStatus := st; td_blockNumber := bn |}
  end.

Definition fetchGasPrice : M GasPriceParameters :=
  emit EvGetGasPrice;;
  reply <-- gets (getGasPrice E);
  match reply with
  | Throw e => throw e
  | Ok gp => ret gp
  end.

(** *** Block subscription *)

Definition startWatchingBlocks : M unit :=
  watching <-- gets unWatch;
  if watching then ret tt
  else
    modify (setUnWatch true);;
    emit EvWatchBlocks;;
    log lvl_debug "started watching blocks" [].

Definition stopWatchingBlocks : M unit :=
  watching <-- gets unWatch;
  if watching then
    log lvl_debug "stopped watching blocks" [];;
    emit EvUnwatchBlocks;;
    modify (setUnWatch false)
  else ret tt.

(** *** Replacement policy: [replaceTransaction] (source lines 916-1002) *)

Definition replaceMetric (reason : string) (r : Result ReplaceTransactionResult) : Event :=
  EvMetric "replacedTransactions"
    [reason; match r with Ok res => replaceStatus res | Throw _ => "failed" end] 1.

Definition hashIn (hashes : list HexData32) (info : UserOperationInfo) : bool :=
  bool_decide (userOperationHash info ∈ hashes).

Definition missingOps (old new : list UserOperationInfo) : list UserOperationInfo :=
  List.filter (fun info => negb (hashIn (map userOperationHash new) info)) old.

Definition matchingOps (old new : list UserOperationInfo) : list UserOperationInfo :=
  List.filter (fun info => hashIn (map userOperationHash new) info) old.

(** [txInfo.timesPotentiallyIncluded += 1] *)
Definition countPotentialInclusion (t : TransactionInfo) : TransactionInfo :=
  {| transactionHash := transactionHash t;
     previousTransactionHashes := previousTransactionHashes t;
     transactionRequest := transactionRequest t;
     userOperationInfos := userOperationInfos t;
     executor := executor t;
     isVersion06 := isVersion06 t;
     lastReplaced := lastReplaced t;
     timesPotentiallyIncluded := timesPotentiallyIncluded t + 1 |}.

Definition replaceTransaction (txInfo : TxRef) (reason : string) : M unit :=
  replaceResult <-- tryFinally (executorReplaceTransaction txInfo)
                      (fun r => record (replaceMetric reason r));
  old <-- readTx txInfo;
  match replaceResult with
  | failed =>
      forEach (fun opInfo => removeSubmitted (userOperationHash opInfo))
        (userOperationInfos old);;
      log lvl_warn "failed to replace transaction" [transactionHash old; reason]
  | potentially_already_included =>
      log lvl_info "transaction potentially already included" [transactionHash old; reason];;
      updateTx txInfo countPotentialInclusion;;
      cur <-- readTx txInfo;
      if 3 <=? timesPotentiallyIncluded cur then
        forEach (fun opInfo => removeSubmitted (userOperationHash opInfo))
          (userOperationInfos cur);;
        markWalletProcessed (executor cur);;
        log lvl_warn "transaction potentially already included too many times, removing"
          [transactionHash cur; reason]
      else ret tt
  | replaced created =>
      newTxInfo <-- allocTx created;
      forEach (fun opInfo => replaceSubmitted opInfo newTxInfo)
        (matchingOps (userOperationInfos old) (userOperationInfos created));;
      forEach (fun opInfo =>
                 removeSubmitted (userOperationHash opInfo);;
                 log lvl_warn "missing op in new tx"
                   [transactionHash old; transactionHash created; reason])
        (missingOps (userOperationInfos old) (userOperationInfos created));;
      log lvl_info "replaced transaction"
        [transactionHash old; transactionHash created; reason]
  end.

(** *** Status resolution: [refreshTransactionStatus] (source lines 377-547) *)

Definition isIncluded (d : TransactionDetail) : bool :=
  match bundlingStatus d with included _ => true | _ => false end.

Definition isReverted (d : TransactionDetail) : bool :=
  match bundlingStatus d with reverted _ _ => true | _ => false end.

(** [mined ?? reverted] *)
Definition finalizedTransaction (transactionDetails : list TransactionDetail)
    : option TransactionDetail :=
  match find isIncluded transactionDetails with
  | Some mined => Some mined
  | None => find isReverted transactionDetails
  end.

Definition txHashesToCheck (txInfo : TransactionInfo) : list HexData32 :=
  transactionHash txInfo :: previousTransactionHashes txInfo.

(** [await Promise.all(txHashesToCheck.map(async h => ({transactionHash: h,
    ...(await getBundleStatus(...))})))] *)
Definition resolveStatuses (ep : Address) (txInfo : TransactionInfo)
    : M (list TransactionDetail) :=
  promiseAll (fun h => fetchBundleStatus (isVersion06 txInfo) h ep) (txHashesToCheck txInfo).

(** [reason || "0x"] *)
Definition orElse (s : option string) (d : string) : string :=
  match s with
  | Some r => if bool_decide (r = EmptyString) then d else r
  | None => d
  end.

Definition checkFrontrun (userOpHash txHash : HexData32) (blockNumber : option Z) : M unit :=
  emit (EvWatchBlockNumber userOpHash txHash blockNumber).

Definition onIncluded (details : gmap string UserOperationDetails) (txHash : HexData32)
    (blockNumber : option Z) (opInfo : UserOperationInfo) : M unit :=
  let userOpHash := userOperationHash opInfo in
  now <-- gets (dateNow E);
  emit (EvObserveInclusionDuration (now - firstSubmitted opInfo));;
  removeSubmitted userOpHash;;
  match details !! userOpHash with
  | None => throw (JsTypeError "Cannot read properties of undefined")
  | Some opDetails =>
      emit (EvReputationIncluded (deriveUserOperation E (mempoolUserOperation opInfo))
              (entryPoint opInfo) (accountDeployed opDetails));;
      (if bool_decide (opStatus opDetails = "succesful")
       then emit (EvEmitIncludedOnChain userOpHash txHash blockNumber)
       else emit (EvEmitExecutionRevertedOnChain userOpHash txHash
                    (orElse (opRevertReason opDetails) "0x") blockNumber));;
      emit (EvMonitorStatus userOpHash "included" (Some txHash));;
      log lvl_info "user op included" [userOpHash; txHash]
  end.

Definition onFailed (txHash : HexData32) (blockNumber : option Z)
    (opInfo : UserOperationInfo) : M unit :=
  let userOpHash := userOperationHash opInfo in
  removeSubmitted userOpHash;;
  emit (EvMonitorStatus userOpHash "rejected" (Some txHash));;
  emit (EvEmitFailedOnChain userOpHash txHash blockNumber);;
  log lvl_info "user op failed onchain" [userOpHash; txHash].

(** [gas = gas * multiplier / 100n; nonce += 1]: [bigint] division
    truncates; [nonce] is an integral [number] far below 2^53. *)
Definition bumpForAA95 (t : TransactionInfo) : TransactionInfo :=
  {| transactionHash := transactionHash t;
     previousTransactionHashes := previousTransactionHashes t;
     transactionRequest :=
       {| gas := Z.quot (gas (transactionRequest t) * aa95ResubmitMultiplier E) 100;
          nonce := nonce (transactionRequest t) + 1;
          maxFeePerGas := maxFeePerGas (transactionRequest t);
          maxPriorityFeePerGas := maxPriorityFeePerGas (transactionRequest t) |};
     userOperationInfos := userOperationInfos t;
     executor := executor t;
     isVersion06 := isVersion06 t;
     lastReplaced := lastReplaced t;
     timesPotentiallyIncluded := timesPotentiallyIncluded t |}.

Definition refreshTransactionStatus (ep : Address) (transactionInfo : TxRef) : M unit :=
  txInfo <-- readTx transactionInfo;
  let opInfos := userOperationInfos txInfo in
  transactionDetails <-- resolveStatuses ep txInfo;
  match finalizedTransaction transactionDetails with
  | None =>
      forEach (fun opInfo =>
                 log lvl_trace "user op still pending"
                   [userOperationHash opInfo; transactionHash txInfo]) opInfos
  | Some fin =>
      let txHash := td_transactionHash fin in
      let blockNumber := td_blockNumber fin in
      log lvl_info "finalizedTransaction" [statusName (bundlingStatus fin); txHash];;
      emit (EvMetric "userOperationsOnChain" [statusName (bundlingStatus fin)]
              (Z.of_nat (length opInfos)));;
      match bundlingStatus fin with
      | included userOperationDetails =>
          forEach (onIncluded userOperationDetails txHash blockNumber) opInfos;;
          markWalletProcessed (executor txInfo)
      | reverted true _ =>
          updateTx transactionInfo bumpForAA95;;
          forEach (fun opInfo => removeSubmitted (userOperationHash opInfo)) opInfos;;
          replaceTransaction transactionInfo "AA95"
      | reverted false reason =>
          if match reason with Some r => includes r "AA25" | None => false end then
            forEach (fun opInfo => checkFrontrun (userOperationHash opInfo) txHash blockNumber)
              opInfos
          else
            forEach (onFailed txHash blockNumber) opInfos;;
            markWalletProcessed (executor txInfo)
      | not_found =>
          forEach (onFailed txHash blockNumber) opInfos;;
          markWalletProcessed (executor txInfo)
      end
  end.

Definition noOpsWarning (ep : Address) : M unit :=
  log lvl_warn "no user operations for entry point" [ep].

(** [refreshUserOperationStatuses] (source lines 817-852) *)
Definition refreshUserOperationStatuses : M unit :=
  ops <-- dumpSubmittedOps;
  let opEntryPointMap :=
    groupByEntryPoint (fun op => entryPoint (userOperation op)) (fun op => op) ops in
  promiseAll
    (fun ep =>
       match opEntryPointMap !! ep with
       | Some ops =>
           let txs := getTransactionsFromUserOperationEntries ops in
           promiseAll (fun txInfo => refreshTransactionStatus ep txInfo) txs;;
           ret tt
       | None => noOpsWarning ep
       end)
    (entryPoints E);;
  ret tt.

(** *** Bundling: [sendToExecutor], [bundleNow], [bundle] (source lines 130-337) *)

(** [op as UserOperation], [op as CompressedUserOperation]: the casts are
    not checked when the program runs. *)
Definition payload (op : MempoolUserOperation) : string :=
  match op with Plain o => o | Compressed o => o end.

Definition plainOps (mempoolOps : list MempoolUserOperation) : list UserOperation :=
  map payload (List.filter (fun op => negb (isCompressedType op)) mempoolOps).

Definition compressedOps (mempoolOps : list MempoolUserOperation)
    : list CompressedUserOperation :=
  map payload (List.filter (fun op => isCompressedType op) mempoolOps).

Definition isSuccess (r : BundleResult) : bool :=
  match r with success _ _ => true | _ => false end.

(** Lines 181-189: the calls that fill [bundles]. *)
Definition callExecutor (ep : Address) (mempoolOps : list MempoolUserOperation)
    : M (list (list BundleResult)) :=
  let ops := plainOps mempoolOps in
  let compressedOps := compressedOps mempoolOps in
  bundles1 <-- (if (0 <? length ops)%nat
                then (b <-- executorBundle ep ops; ret [b]) else ret []);
  bundles2 <-- (if (0 <? length compressedOps)%nat
                then (b <-- executorBundleCompressed ep compressedOps; ret [b]) else ret []);
  ret (bundles1 ++ bundles2).

Definition bundleMetric (bundle : list BundleResult) : M unit :=
  if forallb isSuccess bundle
  then emit (EvMetric "bundlesSubmitted" ["success"] 1)
  else emit (EvMetric "bundlesSubmitted" ["failed"] 1).

(** The body of [for (const result of results)]; [txHash] is the variable
    of that name. *)
Definition handleResult (txHash : option HexData32) (result : BundleResult)
    : M (option HexData32) :=
  match result with
  | success userOperation transactionInfo =>
      markSubmitted (userOperationHash userOperation) transactionInfo;;
      txInfo <-- readTx transactionInfo;
      emit (EvMonitorStatus (userOperationHash userOperation) "submitted"
              (Some (transactionHash txInfo)));;
      startWatchingBlocks;;
      emit (EvMetric "userOperationsSubmitted" ["success"] 1);;
      ret (Some (transactionHash txInfo))
  | failure userOpHash reason userOperation =>
      removeProcessing userOpHash;;
      emit (EvEmitDropped userOpHash reason (getAAError E reason));;
      emit (EvMonitorStatus userOpHash "rejected" None);;
      log lvl_warn "user operation rejected" [userOpHash; reason];;
      emit (EvMetric "userOperationsSubmitted" ["failed"] 1);;
      ret txHash
  | resubmit userOpHash userOperation entryPoint reason =>
      log lvl_info "resubmitting user operation" [userOpHash; reason];;
      removeProcessing userOpHash;;
      mempoolAdd userOperation entryPoint;;
      emit (EvMetric "userOperationsResubmitted" [] 1);;
      ret txHash
  end.

Fixpoint handleResults (txHash : option HexData32) (results : list BundleResult)
    : M (option HexData32) :=
  match results with
  | [] => ret txHash
  | result :: rest =>
      txHash' <-- handleResult txHash result;
      handleResults txHash' rest
  end.

Definition sendToExecutor (ep : Address) (mempoolOps : list MempoolUserOperation)
    : M (option HexData32) :=
  bundles <-- callExecutor ep mempoolOps;
  forEach bundleMetric bundles;;
  let results := concat bundles in
  let filteredOutOps := Z.of_nat (length mempoolOps) - Z.of_nat (length results) in
  (if 0 <? filteredOutOps then
     log lvl_debug "user operations filtered out" [];;
     emit (EvMetric "userOperationsSubmitted" ["filtered"] filteredOutOps)
   else ret tt);;
  handleResults None results.

(** [!txHash]: [undefined] and the empty string are falsy. *)
Definition falsy (txHash : option HexData32) : bool :=
  match txHash with
  | None => true
  | Some h => bool_decide (h = EmptyString)
  end.

(** The callback of [this.entryPoints.map] in [bundleNow]; what it returns
    is what it pushes on [txHashes]. *)
Definition bundleNowEntryPoint (opEntryPointMap : gmap string (list MempoolUserOperation))
    (ep : Address) : M (option HexData32) :=
  match opEntryPointMap !! ep with
  | Some ops =>
      txHash <-- sendToExecutor ep ops;
      if falsy txHash then throw (JsError "no tx hash") else ret txHash
  | None => noOpsWarning ep;; ret None
  end.

(** [bundleNow] from the construction of [opEntryPointMap] on. *)
Definition bundleNowDispatch (ops : list UserOperationInfo) : M (list HexData32) :=
  let opEntryPointMap := groupByEntryPoint entryPoint mempoolUserOperation ops in
  pushed <-- promiseAll (bundleNowEntryPoint opEntryPointMap) (entryPoints E);
  ret (omap id pushed).

Definition bundleNow : M (list HexData32) :=
  ops <-- mempoolProcess (maxGasLimitPerBundle E) 1;
  if (length ops =? 0)%nat then throw (JsError "no ops to bundle")
  else bundleNowDispatch ops.

(** The callback of [this.entryPoints.map] in [bundle]. *)
Definition bundleEntryPoint (opEntryPointMap : gmap string (list MempoolUserOperation))
    (ep : Address) : M unit :=
  match opEntryPointMap !! ep with
  | Some userOperations => sendToExecutor ep userOperations;; ret tt
  | None => noOpsWarning ep
  end.

(** The callback of [opsToBundle.map] in [bundle]. *)
Definition bundleBatch (ops : list UserOperationInfo) : M unit :=
  let opEntryPointMap := groupByEntryPoint entryPoint mempoolUserOperation ops in
  promiseAll (bundleEntryPoint opEntryPointMap) (entryPoints E);;
  ret tt.

(** [bundle] after its [while] loop. *)
Definition bundleDispatch (opsToBundle : list (list UserOperationInfo)) : M unit :=
  if (length opsToBundle =? 0)%nat then ret tt
  else promiseAll bundleBatch opsToBundle;; ret tt.

(** The [while (true)] loop of [bundle]; [None] when the mempool has handed
    out [fuel] batches in a row without ever coming back empty. *)
Fixpoint drainMempool (fuel : nat) (opsToBundle : list (list UserOperationInfo))
    : M (option (list (list UserOperationInfo))) :=
  match fuel with
  | O => ret None
  | S fuel' =>
      ops <-- mempoolProcess 5000000 1;
      if (0 <? length ops)%nat then drainMempool fuel' (opsToBundle ++ [ops])
      else ret (Some opsToBundle)
  end.

Definition bundle (fuel : nat) : M (option unit) :=
  drained <-- drainMempool fuel [];
  match drained with
  | None => ret None
  | Some opsToBundle => bundleDispatch opsToBundle;; ret (Some tt)
  end.

(** *** Block handler: [handleBlock] (source lines 854-914) *)

Definition gasPriceOk (gasPriceParameters : GasPriceParameters) (txInfo : TransactionInfo)
    : bool :=
  (gp_maxFeePerGas gasPriceParameters <=? maxFeePerGas (transactionRequest txInfo))
  && (gp_maxPriorityFeePerGas gasPriceParameters
        <=? maxPriorityFeePerGas (transactionRequest txInfo)).

(** The callback of the first [transactionInfos.map]. *)
Definition gasPriceTask (gasPriceParameters : GasPriceParameters) (r : TxRef) : M unit :=
  txInfo <-- readTx r;
  if gasPriceOk gasPriceParameters txInfo then ret tt
  else replaceTransaction r "gas_price".

(** The callback of the second one. *)
Definition stuckTask (r : TxRef) : M unit :=
  txInfo <-- readTx r;
  now <-- gets (dateNow E);
  if now - lastReplaced txInfo <? 5 * 60 * 1000 then ret tt
  else replaceTransaction r "stuck".

Definition gasPricePass : M unit :=
  gasPriceParameters <-- fetchGasPrice;
  log lvl_trace "fetched gas price parameters" [];;
  entries <-- dumpSubmittedOps;
  let transactionInfos := getTransactionsFromUserOperationEntries entries in
  promiseAll (gasPriceTask gasPriceParameters) transactionInfos;;
  ret tt.

Definition stuckPass : M unit :=
  entries <-- dumpSubmittedOps;
  let transactionInfos2 := getTransactionsFromUserOperationEntries entries in
  promiseAll stuckTask transactionInfos2;;
  ret tt.

(** How far [handleBlock] gets before it first awaits. *)
Inductive Entered : Type :=
| Coalesced   (* the flag was set: nothing is done *)
| Finished    (* nothing is submitted: the tick is over *)
| InFlight.   (* the tick goes on after [await] *)

(** [handleBlock] up to [await this.refreshUserOperationStatuses()]. *)
Definition handleBlockEnter (block : Block) : M Entered :=
  busy <-- gets currentlyHandlingBlock;
  if busy then ret Coalesced
  else
    modify (setCurrentlyHandlingBlock true);;
    log lvl_debug "handling block" [];;
    submittedEntries <-- dumpSubmittedOps;
    if (length submittedEntries =? 0)%nat then
      stopWatchingBlocks;;
      modify (setCurrentlyHandlingBlock false);;
      ret Finished
    else ret InFlight.

(** [handleBlock] from that [await] on. *)
Definition handleBlockResume : M unit :=
  refreshUserOperationStatuses;;
  gasPricePass;;
  stuckPass;;
  modify (setCurrentlyHandlingBlock false).

Definition handleBlock (block : Block) : M unit :=
  entered <-- handleBlockEnter block;
  match entered with
  | InFlight => handleBlockResume
  | Coalesced | Finished => ret tt
  end.

End WithEnv.

(** *** Relations between the world before and the world after *)

(** [keeps R m]: a run of [m] relates the world before to the world after,
    however it ends. *)
Definition keeps (R : World -> World -> Prop) {A} (m : M A) : Prop :=
  ∀ w, R w (m w).2.

(** Nothing but the trace differs, and the trace has only grown. *)
Definition traceOnly (w w' : World) : Prop :=
  heap w' = heap w ∧ submitted w' = submitted w ∧ processing w' = processing w ∧
  outstanding w' = outstanding w ∧
  currentlyHandlingBlock w' = currentlyHandlingBlock w ∧ unWatch w' = unWatch w ∧
  ∃ evs, trace w' = trace w ++ evs.

Definition flagKept (w w' : World) : Prop :=
  currentlyHandlingBlock w' = currentlyHandlingBlock w.

Definition heapKept (w w' : World) : Prop := heap w' = heap w.

(** Every object is still there and has the transaction request it had. *)
Definition requestsKept (w w' : World) : Prop :=
  ∀ r txInfo, heap w !! r = Some txInfo →
    ∃ txInfo', heap w' !! r = Some txInfo' ∧
               transactionRequest txInfo' = transactionRequest txInfo.

Definition outstandingGrows (w w' : World) : Prop :=
  ∃ more, outstanding w' = outstanding w ++ more.

Definition traceGrows (w w' : World) : Prop :=
  ∃ evs, trace w' = trace w ++ evs.

(** Several marks in the trace at once. *)
Definition recordAll (evs : list Event) (w : World) : World :=
  {| heap := heap w; submitted := submitted w; processing := processing w;
     outstanding := outstanding w; currentlyHandlingBlock := currentlyHandlingBlock w;
     unWatch := unWatch w; trace := trace w ++ evs |}.

(** The submitted store without the operations of the given hashes. *)
Definition withoutHashes (hashes : list HexData32) (s : list SubmittedUserOperation)
    : list SubmittedUserOperation :=
  List.filter (fun e => negb (bool_decide (userOperationHash (userOperation e) ∈ hashes))) s.

(** The world after [removeSubmitted] has been called for each of the
    hashes, in order. *)
Definition removedAll (hashes : list HexData32) (w : World) : World :=
  setSubmitted (withoutHashes hashes (submitted w))
    (recordAll (map EvMempoolRemoveSubmitted hashes) w).

(** The submitted store after [replaceSubmitted(op, r)] for each of the
    operations, in order. *)
Definition rebound (ops : list UserOperationInfo) (r : TxRef)
    (s : list SubmittedUserOperation) : list SubmittedUserOperation :=
  fold_left (fun s op => map (rebind op r) s) ops s.

Definition pendingLog (txInfo : TransactionInfo) (opInfo : UserOperationInfo) : Event :=
  EvLog lvl_trace "user op still pending" [userOperationHash opInfo; transactionHash txInfo].

(** What [refreshTransactionStatus] reports of a finalized transaction
    before it looks at the kind of its status. *)
Definition finalizedEvents (txInfo : TransactionInfo) (fin : TransactionDetail) : list Event :=
  [ EvLog lvl_info "finalizedTransaction"
      [statusName (bundlingStatus fin); td_transactionHash fin];
    EvMetric "userOperationsOnChain" [statusName (bundlingStatus fin)]
      (Z.of_nat (length (userOperationInfos txInfo))) ].

(** What [refreshTransactionStatus] goes on to do with the finalized
    transaction [fin] once it has reported it (source lines 448-546). *)
Definition onFinalized (E : Env) (transactionInfo : TxRef) (txInfo : TransactionInfo)
    (fin : TransactionDetail) : M unit :=
  match bundlingStatus fin with
  | included userOperationDetails =>
      forEach (onIncluded E userOperationDetails (td_transactionHash fin)
                 (td_blockNumber fin)) (userOperationInfos txInfo);;
      markWalletProcessed (executor txInfo)
  | reverted true _ =>
      updateTx transactionInfo (bumpForAA95 E);;
      forEach (fun opInfo => removeSubmitted (userOperationHash opInfo))
        (userOperationInfos txInfo);;
      replaceTransaction E transactionInfo "AA95"
  | reverted false reason =>
      if match reason with Some r => includes r "AA25" | None => false end then
        forEach (fun opInfo => checkFrontrun (userOperationHash opInfo)
                                 (td_transactionHash fin) (td_blockNumber fin))
          (userOperationInfos txInfo)
      else
        forEach (onFailed (td_transactionHash fin) (td_blockNumber fin))
          (userOperationInfos txInfo);;
        markWalletProcessed (executor txInfo)
  | not_found =>
      forEach (onFailed (td_transactionHash fin) (td_blockNumber fin))
        (userOperationInfos txInfo);;
      markWalletProcessed (executor txInfo)
  end.

(** The world in which [replaceTransaction] is entered on the AA95 path,
    given the world [w1] in which the statuses have been resolved. *)
Definition aa95Prepared (E : Env) (r : TxRef) (txInfo : TransactionInfo)
    (fin : TransactionDetail) (w1 : World) : World :=
  removedAll (map userOperationHash (userOperationInfos txInfo))
    (setHeap (alter (bumpForAA95 E) r (heap w1))
       (recordAll (finalizedEvents txInfo fin) w1)).

(** *** Concrete scenarios *)

Definition ep06 : Address := "0x5FF137D4b0FDCD49DcA30c7CF57E578a026d2789".
Definition ep07 : Address := "0x0000000071727De22E5E9d8BAf0edAc6f37da032".
Definition wallet1 : Address := "0xE0A1".

Definition opInfo1 : UserOperationInfo :=
  {| mempoolUserOperation := Plain "op1"; userOperationHash := "0x01";
     entryPoint := ep06; firstSubmitted := 1000 |}.
Definition opInfo2 : UserOperationInfo :=
  {| mempoolUserOperation := Plain "op2"; userOperationHash := "0x02";
     entryPoint := ep06; firstSubmitted := 1000 |}.
Definition opInfo3 : UserOperationInfo :=
  {| mempoolUserOperation := Compressed "op3"; userOperationHash := "0x03";
     entryPoint := ep07; firstSubmitted := 1000 |}.

Definition request1 : TransactionRequest :=
  {| gas := 1000; nonce := 7; maxFeePerGas := 10; maxPriorityFeePerGas := 2 |}.

Definition tx1 : TransactionInfo :=
  {| transactionHash := "0x7a01"; previousTransactionHashes := ["0x7a00"];
     transactionRequest := request1; userOperationInfos := [opInfo1; opInfo2];
     executor := wallet1; isVersion06 := true; lastReplaced := 1000;
     timesPotentiallyIncluded := 0 |}.

(** The transaction that replaces [tx1] and carries [opInfo1] only. *)
Definition tx2 : TransactionInfo :=
  {| transactionHash := "0x7a02"; previousTransactionHashes := ["0x7a01"; "0x7a00"];
     transactionRequest :=
       {| gas := 1000; nonce := 7; maxFeePerGas := 20; maxPriorityFeePerGas := 4 |};
     userOperationInfos := [opInfo1];
     executor := wallet1; isVersion06 := true; lastReplaced := 2000;
     timesPotentiallyIncluded := 0 |}.

(** [tx1] is broadcast with its two operations, blocks are being watched
    and no tick is in flight. *)
Definition world1 : World :=
  {| heap := [tx1];
     submitted := [ {| userOperation := opInfo1; transactionInfo := 0%nat |};
                    {| userOperation := opInfo2; transactionInfo := 0%nat |} ];
     processing := []; outstanding := [];
     currentlyHandlingBlock := false; unWatch := true; trace := [] |}.

(** Nothing is submitted. *)
Definition idleWorld : World :=
  {| heap := []; submitted := []; processing := []; outstanding := [];
     currentlyHandlingBlock := false; unWatch := true; trace := [] |}.

(** An environment given by the answers of the chain, of the gas oracle
    and of the executor. *)
Definition scenario
    (statusOf : HexData32 -> Result (BundlingStatus * option Z))
    (gasPrice : Result GasPriceParameters)
    (replaceAnswer : TransactionInfo -> Result ReplaceTransactionResult)
    (bundleAnswer : list UserOperation -> Result ExecutorBundleReply) : Env :=
  {| entryPoints := [ep06];
     maxGasLimitPerBundle := 5000000;
     aa95ResubmitMultiplier := 125;
     executor_bundle := fun _ _ ops => bundleAnswer ops;
     executor_bundleCompressed := fun _ _ _ => Ok {| created := []; results := [] |};
     executor_replaceTransaction := fun _ txInfo => replaceAnswer txInfo;
     mempool_process := fun _ _ _ => [opInfo1; opInfo2; opInfo3];
     getBundleStatus := fun _ _ h _ => statusOf h;
     getGasPrice := fun _ => gasPrice;
     dateNow := fun _ => 2000;
     deriveUserOperation := fun op => match op with Plain o => o | Compressed o => o end;
     getAAError := fun reason => reason |}.

Definition pendingOnChain (h : HexData32) : Result (BundlingStatus * option Z) :=
  Ok (not_found, None).
Definition steadyGasPrice : Result GasPriceParameters :=
  Ok {| gp_maxFeePerGas := 10; gp_maxPriorityFeePerGas := 2 |}.
Definition noBundles (ops : list UserOperation) : Result ExecutorBundleReply :=
  Ok {| created := []; results := [] |}.

(** The chain does not know the transaction yet, the fees are where they
    were and the executor finds nothing to replace. *)
Definition quietEnv : Env :=
  scenario pendingOnChain steadyGasPrice (fun _ => Ok potentially_already_included) noBundles.

(** The same, but the gas oracle is out of reach. *)
Definition gasOracleDown : Env :=
  scenario pendingOnChain (Throw (CollaboratorError "gas price unavailable"))
    (fun _ => Ok potentially_already_included) noBundles.

Definition block12 : Block := {| number := Some 12 |}.

(** The chain reports the current hash of [tx1] as reverted with AA95; the
    executor replaces the transaction by [tx2]. *)
Definition aa95OnChain (h : HexData32) : Result (BundlingStatus * option Z) :=
  if bool_decide (h = "0x7a01") then Ok (reverted true None, Some 11)
  else Ok (not_found, None).
Definition aa95Env : Env :=
  scenario aa95OnChain steadyGasPrice (fun _ => Ok (replaced tx2)) noBundles.

(** The current hash of [tx1] was reverted, its earlier hash is included. *)
Definition minedAndReverted (h : HexData32) : Result (BundlingStatus * option Z) :=
  if bool_decide (h = "0x7a01") then Ok (reverted false None, Some 11)
  else Ok (included ∅, Some 10).
Definition minedAndRevertedEnv : Env :=
  scenario minedAndReverted steadyGasPrice (fun _ => Ok failed) noBundles.

(** What [replaceTransaction] reports for an operation that the new
    transaction no longer carries. *)
Definition missingEvents (reason : string) (old new : TransactionInfo)
    (opInfo : UserOperationInfo) : list Event :=
  [ EvMempoolRemoveSubmitted (userOperationHash opInfo);
    EvLog lvl_warn "missing op in new tx" [transactionHash old; transactionHash new; reason] ].

(** The three marks every [replaceTransaction] that is answered with
    [potentially_already_included] leaves first. *)
Definition potentiallyIncludedEvents (r : TxRef) (reason : string) (txInfo : TransactionInfo)
    : list Event :=
  [ EvExecutorReplaceTransaction r txInfo;
    replaceMetric reason (Ok potentially_already_included);
    EvLog lvl_info "transaction potentially already included"
      [transactionHash txInfo; reason] ].

(** The executor answers [potentially_already_included] three times in a
    row for [tx1]. *)
Definition seenOnce : World := (replaceTransaction quietEnv 0%nat "stuck" world1).2.
Definition seenTwice : World := (replaceTransaction quietEnv 0%nat "stuck" seenOnce).2.
Definition seenThrice : World := (replaceTransaction quietEnv 0%nat "stuck" seenTwice).2.

(** One of the two fees of the object at [r] is strictly below the value of
    the oracle. *)
Definition feeBelow (gasPriceParameters : GasPriceParameters) (w : World) (r : TxRef) : bool :=
  match heap w !! r with
  | Some txInfo =>
      (maxFeePerGas (transactionRequest txInfo) <? gp_maxFeePerGas gasPriceParameters)
      || (maxPriorityFeePerGas (transactionRequest txInfo)
            <? gp_maxPriorityFeePerGas gasPriceParameters)
  | None => false
  end.

(** The fees have gone up since [tx1] was sent. *)
Definition risingGasPrice : Result GasPriceParameters :=
  Ok {| gp_maxFeePerGas := 11; gp_maxPriorityFeePerGas := 2 |}.
Definition risingEnv : Env :=
  scenario pendingOnChain risingGasPrice (fun _ => Ok (replaced tx2)) noBundles.

(** What the gas-price pass leaves in the trace before its tasks start. *)
Definition gasPriceFetched : list Event :=
  [EvGetGasPrice; EvLog lvl_trace "fetched gas price parameters" []].

(** The transaction object of a result with the status success. *)
Definition successRef (result : BundleResult) : option TxRef :=
  match result with
  | success _ transactionInfo => Some transactionInfo
  | _ => None
  end.

(** The transaction of the last result with the status success. *)
Definition lastSuccess (results : list BundleResult) : option TxRef :=
  last (omap successRef results).

Definition hashOfRef (w : World) (r : TxRef) : option HexData32 :=
  transactionHash <$> heap w !! r.

(** The entry point of the operation is one of the configured ones. *)
Definition configured (E : Env) (op : UserOperationInfo) : bool :=
  bool_decide (entryPoint op ∈ entryPoints E).

(** The mempool is about to hand out three operations and nothing has been
    sent yet. *)
Definition freshWorld : World :=
  {| heap := []; submitted := []; processing := []; outstanding := [];
     currentlyHandlingBlock := false; unWatch := false; trace := [] |}.

(** The executor rejects the first operation and hands the second back
    for another round. *)
Definition rejectAndResubmit (ops : list UserOperation) : Result ExecutorBundleReply :=
  Ok {| created := [];
        results := [ failure "0x01" "AA21" (Plain "op1");
                     resubmit "0x02" (Plain "op2") ep06 "AA25" ] |}.
Definition rejectingEnv : Env :=
  scenario pendingOnChain steadyGasPrice (fun _ => Ok failed) rejectAndResubmit.

(** The executor sends both operations in the transaction [tx1]. *)
Definition bundleBoth (ops : list UserOperation) : Result ExecutorBundleReply :=
  Ok {| created := [tx1];
        results := [ success opInfo1 0%nat; success opInfo2 0%nat ] |}.
Definition bundlingEnv : Env :=
  scenario pendingOnChain steadyGasPrice (fun _ => Ok failed) bundleBoth.

(** The metric [sendToExecutor] emits for one bundle. *)
Definition bundleMetricEvent (bundle : list BundleResult) : Event :=
  if forallb isSuccess bundle
  then EvMetric "bundlesSubmitted" ["success"] 1
  else EvMetric "bundlesSubmitted" ["failed"] 1.

(** The operations of the batch that target [ep], in order. *)
Definition opsFor {A} (key : A -> Address) (ep : Address) (ops : list A) : list A :=
  List.filter (fun op => bool_decide (key op = ep)) ops.

(** The hash a result of the executor speaks of. *)
Definition resultHash (result : BundleResult) : HexData32 :=
  match result with
  | success userOperation _ => userOperationHash userOperation
  | failure userOpHash _ _ => userOpHash
  | resubmit userOpHash _ _ _ => userOpHash
  end.

(** No result of the executor ever speaks of the hash [h]. *)
Definition neverNames (E : Env) (h : HexData32) : Prop :=
  (∀ w ep ops reply, executor_bundle E w ep ops = Ok reply →
     Forall (fun result => resultHash result ≠ h) (results reply)) ∧
  (∀ w ep ops reply, executor_bundleCompressed E w ep ops = Ok reply →
     Forall (fun result => resultHash result ≠ h) (results reply)).

(** The operations with the hash [h] that are being processed are still
    being processed. *)
Definition processingKept (h : HexData32) (w w' : World) : Prop :=
  ∀ op, op ∈ processing w → userOperationHash op = h → op ∈ processing w'.

(** ** The rest of the manager *)

(** *** The block subscription seen in the trace *)

(** What a call on the public client does to the number of block
    subscriptions that are open. *)
Definition subscriptionChange (ev : Event) : Z :=
  match ev with
  | EvWatchBlocks => 1
  | EvUnwatchBlocks => -1
  | _ => 0
  end.

(** The subscriptions opened by [watchBlocks] and not closed since. *)
Definition openSubscriptions (evs : list Event) : Z :=
  fold_right (fun ev n => subscriptionChange ev + n) 0 evs.

(** [this.unWatch] is set exactly when one subscription is open, and no
    more than one ever is. *)
Definition watchConsistent (w : World) : Prop :=
  openSubscriptions (trace w) = if unWatch w then 1 else 0.

Definition watchKept (w w' : World) : Prop := watchConsistent w → watchConsistent w'.

(** *** What the status refresh reports *)

(** What [refreshTransactionStatus] does for one operation of a transaction
    that has failed on chain. *)
Definition failedEvents (txHash : HexData32) (blockNumber : option Z)
    (opInfo : UserOperationInfo) : list Event :=
  [ EvMempoolRemoveSubmitted (userOperationHash opInfo);
    EvMonitorStatus (userOperationHash opInfo) "rejected" (Some txHash);
    EvEmitFailedOnChain (userOperationHash opInfo) txHash blockNumber;
    EvLog lvl_info "user op failed onchain" [userOperationHash opInfo; txHash] ].

(** The subscription [checkFrontrun] opens for one operation. *)
Definition frontrunWatch (txHash : HexData32) (blockNumber : option Z)
    (opInfo : UserOperationInfo) : Event :=
  EvWatchBlockNumber (userOperationHash opInfo) txHash blockNumber.

(** What the event manager is told of an included operation. *)
Definition inclusionEvent (txHash : HexData32) (blockNumber : option Z)
    (opInfo : UserOperationInfo) (opDetails : UserOperationDetails) : Event :=
  if bool_decide (opStatus opDetails = "succesful")
  then EvEmitIncludedOnChain (userOperationHash opInfo) txHash blockNumber
  else EvEmitExecutionRevertedOnChain (userOperationHash opInfo) txHash
         (orElse (opRevertReason opDetails) "0x") blockNumber.

(** What [refreshTransactionStatus] does for one included operation, the
    clock showing [now]. *)
Definition includedEvents (E : Env) (txHash : HexData32) (blockNumber : option Z)
    (now : Z) (opInfo : UserOperationInfo) (opDetails : UserOperationDetails) : list Event :=
  [ EvObserveInclusionDuration (now - firstSubmitted opInfo);
    EvMempoolRemoveSubmitted (userOperationHash opInfo);
    EvReputationIncluded (deriveUserOperation E (mempoolUserOperation opInfo))
      (entryPoint opInfo) (accountDeployed opDetails);
    inclusionEvent txHash blockNumber opInfo opDetails;
    EvMonitorStatus (userOperationHash opInfo) "included" (Some txHash);
    EvLog lvl_info "user op included" [userOperationHash opInfo; txHash] ].

(** The same for an operation paired with what the clock showed when its
    turn came; nothing when the status has no details for it. *)
Definition includedFor (E : Env) (details : gmap string UserOperationDetails)
    (txHash : HexData32) (blockNumber : option Z) (timed : Z * UserOperationInfo)
    : list Event :=
  match details !! userOperationHash timed.2 with
  | Some opDetails => includedEvents E txHash blockNumber timed.1 timed.2 opDetails
  | None => []
  end.

Definition noOpsWarningEvent (ep : Address) : Event :=
  EvLog lvl_warn "no user operations for entry point" [ep].

(** The task of [refreshUserOperationStatuses] for one entry point, given
    the entries of the submitted store. *)
Definition refreshEntryPoint (E : Env) (entries : list SubmittedUserOperation)
    (ep : Address) : M unit :=
  match opsFor (fun op => entryPoint (userOperation op)) ep entries with
  | [] => noOpsWarning ep
  | sel =>
      promiseAll (fun txInfo => refreshTransactionStatus E ep txInfo)
        (getTransactionsFromUserOperationEntries sel);;
      ret tt
  end.

(** *** Objects changed in place *)

(** Every object is still there and has kept what [f] reads of it. *)
Definition fieldKept {A} (f : TransactionInfo -> A) (w w' : World) : Prop :=
  ∀ r txInfo, heap w !! r = Some txInfo →
    ∃ txInfo', heap w' !! r = Some txInfo' ∧ f txInfo' = f txInfo.

(** All of a transaction object but the gas and the nonce of its request
    and the counter [timesPotentiallyIncluded]. *)
Definition identity (t : TransactionInfo)
    : HexData32 * list HexData32 * list UserOperationInfo * Address * bool * Z * Z * Z :=
  (transactionHash t, previousTransactionHashes t, userOperationInfos t, executor t,
   isVersion06 t, lastReplaced t,
   maxFeePerGas (transactionRequest t), maxPriorityFeePerGas (transactionRequest t)).

(** The transaction at [r] was last replaced five minutes ago or more. *)
Definition overdue (now : Z) (w : World) (r : TxRef) : bool :=
  match heap w !! r with
  | Some txInfo => 5 * 60 * 1000 <=? now - lastReplaced txInfo
  | None => false
  end.

(** *** Who calls whom *)

(** The calls by which operations come in and are sent out. *)
Definition isIntake (ev : Event) : bool :=
  match ev with
  | EvMempoolProcess _ _ | EvMempoolAdd _ _ | EvMempoolMarkSubmitted _ _
  | EvMempoolRemoveProcessing _ | EvExecutorBundle _ _ | EvExecutorBundleCompressed _ _
  | EvEmitDropped _ _ _ | EvWatchBlocks => true
  | _ => false
  end.

(** The calls by which what has been sent is followed up. *)
Definition isUpkeep (ev : Event) : bool :=
  match ev with
  | EvGetBundleStatus _ _ _ | EvGetGasPrice | EvExecutorReplaceTransaction _ _
  | EvMempoolRemoveSubmitted _ | EvMempoolReplaceSubmitted _ _ | EvMarkWalletProcessed _
  | EvObserveInclusionDuration _ | EvReputationIncluded _ _ _
  | EvEmitIncludedOnChain _ _ _ | EvEmitExecutionRevertedOnChain _ _ _ _
  | EvEmitFailedOnChain _ _ _ | EvWatchBlockNumber _ _ _ | EvUnwatchBlocks => true
  | _ => false
  end.

(** The trace has grown by calls that all satisfy [P]. *)
Definition callsOnly (P : Event -> bool) (w w' : World) : Prop :=
  ∃ evs, trace w' = trace w ++ evs ∧ forallb P evs = true.

(** The stores of the mempool that hold what has not been sent yet. *)
Definition intakeKept (w w' : World) : Prop :=
  processing w' = processing w ∧ outstanding w' = outstanding w.

(** A clock that shows 301000, with everything else as in [quietEnv]. *)
Definition laterEnv : Env :=
  {| entryPoints := entryPoints quietEnv;
     maxGasLimitPerBundle := maxGasLimitPerBundle quietEnv;
     aa95ResubmitMultiplier := aa95ResubmitMultiplier quietEnv;
     executor_bundle := executor_bundle quietEnv;
     executor_bundleCompressed := executor_bundleCompressed quietEnv;
     executor_replaceTransaction := fun _ _ => Ok failed;
     mempool_process := mempool_process quietEnv;
     getBundleStatus := getBundleStatus quietEnv;
     getGasPrice := getGasPrice quietEnv;
     dateNow := fun _ => 301000;
     deriveUserOperation := deriveUserOperation quietEnv;
     getAAError := getAAError quietEnv |}.

(** The executor cannot be reached. *)
Definition executorDown : Env :=
  scenario pendingOnChain steadyGasPrice
    (fun _ => Throw (CollaboratorError "executor unavailable")) noBundles.

(** The chain reports the current hash of [tx1] as included, with details
    for the given operations. *)
Definition includedOnChain (details : gmap string UserOperationDetails) (h : HexData32)
    : Result (BundlingStatus * option Z) :=
  if bool_decide (h = "0x7a01") then Ok (included details, Some 11)
  else Ok (not_found, None).

Definition executedWell : UserOperationDetails :=
  {| opStatus := "succesful"; accountDeployed := false; opRevertReason := None |}.
Definition executedBadly : UserOperationDetails :=
  {| opStatus := "calldata_phase_reverted"; accountDeployed := false;
     opRevertReason := Some "0x08c379a0" |}.

Definition bothDetailed : gmap string UserOperationDetails :=
  {[ "0x01" := executedWell; "0x02" := executedBadly ]}.
Definition firstDetailed : gmap string UserOperationDetails :=
  {[ "0x01" := executedWell ]}.

Definition includedEnv : Env :=
  scenario (includedOnChain bothDetailed) steadyGasPrice (fun _ => Ok failed) noBundles.
Definition halfDetailedEnv : Env :=
  scenario (includedOnChain firstDetailed) steadyGasPrice (fun _ => Ok failed) noBundles.

(** The chain reports the current hash of [tx1] as reverted for the given
    reason, without AA95. *)
Definition revertedOnChain (reason : option string) (h : HexData32)
    : Result (BundlingStatus * option Z) :=
  if bool_decide (h = "0x7a01") then Ok (reverted false reason, Some 11)
  else Ok (not_found, None).

Definition aa25Env : Env :=
  scenario (revertedOnChain (Some "AA25 invalid account nonce")) steadyGasPrice
    (fun _ => Ok failed) noBundles.
Definition aa21Env : Env :=
  scenario (revertedOnChain (Some "AA21 didn't pay prefund")) steadyGasPrice
    (fun _ => Ok failed) noBundles.

(** What the chain has answered for the two hashes of [tx1] when it reports
    the current one with [st] in block 11. *)
Definition currentFinalized (st : BundlingStatus) : list TransactionDetail :=
  [ {| td_transactionHash := "0x7a01"; bundlingStatus := st; td_blockNumber := Some 11 |};
    {| td_transactionHash := "0x7a00"; bundlingStatus := not_found;
       td_blockNumber := None |} ].

(** A transaction that carries the one operation [opInfo3], whose entry
    point is not configured in the scenarios. *)
Definition tx3 : TransactionInfo :=
  {| transactionHash := "0x7a03"; previousTransactionHashes := [];
     transactionRequest := request1; userOperationInfos := [opInfo3];
     executor := wallet1; isVersion06 := false; lastReplaced := 1000;
     timesPotentiallyIncluded := 0 |}.

Definition strayWorld : World :=
  {| heap := [tx3];
     submitted := [ {| userOperation := opInfo3; transactionInfo := 0%nat |} ];
     processing := []; outstanding := [];
     currentlyHandlingBlock := false; unWatch := true; trace := [] |}.

(** *** What bundling leaves behind *)

(** The call that asks the mempool for the next batch of [bundle]. *)
Definition drainCall : Event := EvMempoolProcess 5000000 1.

(** The calls of the executor that [sendToExecutor] makes for a list of
    operations, when none of them is rejected. *)
Definition executorCalls (ep : Address) (mempoolOps : list MempoolUserOperation)
    : list Event :=
  (if (0 <? length (plainOps mempoolOps))%nat
   then [EvExecutorBundle ep (plainOps mempoolOps)] else []) ++
  (if (0 <? length (compressedOps mempoolOps))%nat
   then [EvExecutorBundleCompressed ep (compressedOps mempoolOps)] else []).

(** What the collaborators are told of one result of the executor, the
    heap being that of [w]. *)
Definition reportOf (E : Env) (w : World) (result : BundleResult) : list Event :=
  match result with
  | success userOperation transactionInfo =>
      [ EvMempoolMarkSubmitted (userOperationHash userOperation) transactionInfo;
        EvMonitorStatus (userOperationHash userOperation) "submitted"
          (hashOfRef w transactionInfo);
        EvMetric "userOperationsSubmitted" ["success"] 1 ]
  | failure userOpHash reason _ =>
      [ EvMempoolRemoveProcessing userOpHash;
        EvEmitDropped userOpHash reason (getAAError E reason);
        EvMonitorStatus userOpHash "rejected" None;
        EvMetric "userOperationsSubmitted" ["failed"] 1 ]
  | resubmit userOpHash userOperation entryPoint _ =>
      [ EvMempoolRemoveProcessing userOpHash;
        EvMempoolAdd userOperation entryPoint;
        EvMetric "userOperationsResubmitted" [] 1 ]
  end.

(** The call [ev] has been made between [w] and [w']. *)
Definition emitted (w w' : World) (ev : Event) : Prop :=
  ∃ evs, trace w' = trace w ++ evs ∧ ev ∈ evs.

Definition subscriptionKept (w w' : World) : Prop := unWatch w' = unWatch w.

(** The entry points for which the batch holds an operation. *)
Definition served (E : Env) (ops : list UserOperationInfo) : list Address :=
  List.filter (fun ep => negb (length (opsFor entryPoint ep ops) =? 0)%nat) (entryPoints E).

(** A mempool that hands out one batch and is empty from then on. *)
Definition onceEnv : Env :=
  {| entryPoints := [ep06];
     maxGasLimitPerBundle := 5000000;
     aa95ResubmitMultiplier := 125;
     executor_bundle := fun _ _ ops => bundleBoth ops;
     executor_bundleCompressed := fun _ _ _ => Ok {| created := []; results := [] |};
     executor_replaceTransaction := fun _ _ => Ok failed;
     mempool_process := fun w _ _ =>
       match processing w with [] => [opInfo1; opInfo2] | _ => [] end;
     getBundleStatus := fun _ _ h _ => pendingOnChain h;
     getGasPrice := fun _ => steadyGasPrice;
     dateNow := fun _ => 2000;
     deriveUserOperation := payload;
     getAAError := fun reason => reason |}.

(** The executor cannot bundle. *)
Definition bundlerDown : Env :=
  scenario pendingOnChain steadyGasPrice (fun _ => Ok failed)
    (fun _ => Throw (CollaboratorError "executor unavailable")).

(** The world in which the mempool of [onceEnv] has handed out its batch. *)
Definition drainedWorld : World := (mempoolProcess onceEnv 5000000 1 freshWorld).2.

(** The two calls that open and close the block subscription. *)
Definition isSubscription (ev : Event) : bool :=
  match ev with
  | EvWatchBlocks | EvUnwatchBlocks => true
  | _ => false
  end.

(** The events of an idle tick: the tick is announced and the subscription,
    if there is one, is closed. *)
Definition idleTickEvents (watching : bool) : list Event :=
  EvLog lvl_debug "handling block" [] ::
  (if watching then [EvLog lvl_debug "stopped watching blocks" []; EvUnwatchBlocks] else []).

End Manager.


(** ** The bundling timer *)

Module Timer.

(** [BundlingMode] of [@alto/types]. *)
Inductive BundlingMode : Type := auto | manual.

(** The field [this.timer] and the intervals of the runtime that the
    manager has set and not cleared; a handle is a number here, the next
    [setInterval] returns [nextHandle]. *)
Record Timers : Type := mkTimers {
  timer : option nat;
  scheduled : list nat;
  nextHandle : nat
}.

(** [setInterval(async () => { await this.bundle() }, bundlerFrequency)] *)
Definition setInterval (s : Timers) : nat * Timers :=
  (nextHandle s,
   {| timer := timer s; scheduled := scheduled s ++ [nextHandle s];
      nextHandle := S (nextHandle s) |}).

(** [clearInterval(h)] *)
Definition clearInterval (h : nat) (s : Timers) : Timers :=
  {| timer := timer s;
     scheduled := List.filter (fun h' => negb (h' =? h)%nat) (scheduled s);
     nextHandle := nextHandle s |}.

Definition setTimer (t : option nat) (s : Timers) : Timers :=
  {| timer := t; scheduled := scheduled s; nextHandle := nextHandle s |}.

(** The runtime before the manager is constructed: [this.timer] is not
    assigned yet. *)
Definition idle (n : nat) : Timers := {| timer := None; scheduled := []; nextHandle := n |}.

(** The last statement of the constructor (source lines 112-116). *)
Definition construct (bundleMode : BundlingMode) (s : Timers) : Timers :=
  match bundleMode with
  | auto => let '(h, s') := setInterval s in setTimer (Some h) s'
  | manual => s
  end.

(** [setBundlingMode] (source lines 119-128) *)
Definition setBundlingMode (bundleMode : BundlingMode) (s : Timers) : Timers :=
  match bundleMode, timer s with
  | auto, None => let '(h, s') := setInterval s in setTimer (Some h) s'
  | manual, Some h => setTimer None (clearInterval h s)
  | _, _ => s
  end.

End Timer.

(** * Properties *)

(** ** The helpers compute what their JavaScript counterparts compute *)

Example slice_inner : slice 1 3 [10; 20; 30; 40] = [20; 30].
Proof. reflexivity. Qed.

Example slice_from_end : slice (-2) 4 [10; 20; 30; 40] = [30; 40].
Proof. reflexivity. Qed.

Example slice_crossed : slice 3 1 [10; 20; 30; 40] = [].
Proof. reflexivity. Qed.

Example includes_inside : includes "reverted: AA25 invalid account nonce" "AA25" = true.
Proof. reflexivity. Qed.

Example includes_absent : includes "reverted: AA21" "AA25" = false.
Proof. reflexivity. Qed.

Example setFromList_first_occurrences :
  Manager.setFromList [2; 0; 2; 1; 0]%nat = [2; 0; 1]%nat.
Proof. reflexivity. Qed.

Example groupByEntryPoint_by_key :
  Manager.groupByEntryPoint Manager.entryPoint Manager.userOperationHash
    [Manager.opInfo1; Manager.opInfo3; Manager.opInfo2] !! Manager.ep06
  = Some ["0x01"; "0x02"].
Proof. reflexivity. Qed.

(** ** Receipt reconstruction *)

Module ReceiptProofs.
Import Receipt.

Lemma slice_middle {A} (l1 l2 l3 : list A) :
  slice (Z.of_nat (length l1)) (Z.of_nat (length l1) + Z.of_nat (length l2))
    (l1 ++ l2 ++ l3) = l2.
Proof.
  unfold slice, relativeIndex.
  rewrite !length_app.
  destruct (Z.ltb_spec (Z.of_nat (length l1)) 0) as [?|_]; [lia|].
  destruct (Z.ltb_spec (Z.of_nat (length l1) + Z.of_nat (length l2)) 0) as [?|_]; [lia|].
  rewrite !Z.min_l by lia.
  replace (Z.to_nat (Z.of_nat (length l1) + Z.of_nat (length l2) - Z.of_nat (length l1)))
    with (length l2) by lia.
  rewrite Nat2Z.id, drop_app_length. apply take_app_length.
Qed.

Section Located.

Variable decodeRevertReason : Log -> Result string.
Variable revertTopicEvent : string.
Variable eventTopics : list string.

Local Abbreviation scanLog := (scanLog decodeRevertReason revertTopicEvent eventTopics).
Local Abbreviation forEachLog := (forEachLog decodeRevertReason revertTopicEvent eventTopics).
Local Abbreviation locateLogs := (locateLogs decodeRevertReason revertTopicEvent eventTopics).
Local Abbreviation isUOE := (isUserOperationEvent eventTopics).
Local Abbreviation ours := (isOurEvent eventTopics).
Local Abbreviation other := (isOtherEvent eventTopics).

Lemma forEachLog_app l1 l2 i st :
  forEachLog (l1 ++ l2) i st =
  match forEachLog l1 i st with
  | Ok st1 => forEachLog l2 (i + Z.of_nat (length l1)) st1
  | Throw e => Throw e
  end.
Proof.
  revert i st. induction l1 as [|log l1 IH]; intros i st; simpl.
  - f_equal. lia.
  - destruct (scanLog st log i) as [st'|e]; [|done].
    rewrite IH. destruct (forEachLog l1 (i + 1) st'); [|done].
    f_equal. lia.
Qed.

(** A log never makes the scan raise when its revert reason decodes. *)
Lemma scanLog_total st log i :
  is_throw (decodeRevertReason log) = false → ∃ st', scanLog st log i = Ok st'.
Proof.
  intros Hdec. unfold Receipt.scanLog.
  destruct (isRevertReasonEvent _ _); [|eauto].
  destruct (hasOurHash _ _); [|eauto].
  destruct (decodeRevertReason log); [eauto|done].
Qed.

Lemma forEachLog_total l i st :
  Forall (fun log => is_throw (decodeRevertReason log) = false) l →
  ∃ st', forEachLog l i st = Ok st'.
Proof.
  intros Hl. revert i st. induction Hl as [|log l Hlog _ IH]; intros i st; simpl; [eauto|].
  destruct (scanLog_total st log i Hlog) as [st' ->]. apply IH.
Qed.

(** The effect of one log on the two indices and on the entry point. *)
Lemma scanLog_indices st log i st' :
  scanLog st log i = Ok st' →
  (startIndex st', endIndex st', entryPoint st') =
  if isUOE log then
    if hasOurHash eventTopics log then (startIndex st, i, address log)
    else if endIndex st =? -1 then (i, endIndex st, entryPoint st)
    else (startIndex st, endIndex st, entryPoint st)
  else (startIndex st, endIndex st, entryPoint st).
Proof.
  unfold Receipt.scanLog. intros H.
  destruct (isUOE log), (hasOurHash eventTopics log), (endIndex st =? -1),
    (isRevertReasonEvent revertTopicEvent log);
    simpl in *; try destruct (decodeRevertReason log); simplify_eq; done.
Qed.

(** Logs that are no [UserOperationEvent] leave both indices alone. *)
Lemma forEachLog_no_event l i st st' :
  Forall (fun log => isUOE log = false) l →
  forEachLog l i st = Ok st' →
  startIndex st' = startIndex st ∧ endIndex st' = endIndex st ∧ entryPoint st' = entryPoint st.
Proof.
  intros Hl. revert i st. induction Hl as [|log l Hlog _ IH]; intros i st; simpl.
  - intros [= ->]. done.
  - destruct (scanLog st log i) as [st1|] eqn:Hs; [|done]. intros Hrest.
    apply scanLog_indices in Hs. rewrite Hlog in Hs.
    destruct (IH _ _ Hrest) as (-> & -> & ->). by simplify_eq.
Qed.

(** Logs without our hash leave [endIndex] and the entry point alone, and
    [startIndex] too once [endIndex] is set. *)
Lemma forEachLog_not_ours l i st st' :
  Forall (fun log => ours log = false) l →
  forEachLog l i st = Ok st' →
  endIndex st' = endIndex st ∧ entryPoint st' = entryPoint st ∧
  (endIndex st ≠ -1 → startIndex st' = startIndex st).
Proof.
  intros Hl. revert i st. induction Hl as [|log l Hlog _ IH]; intros i st; simpl.
  - intros [= ->]. done.
  - destruct (scanLog st log i) as [st1|] eqn:Hs; [|done]. intros Hrest.
    apply scanLog_indices in Hs.
    destruct (IH _ _ Hrest) as (-> & -> & Hstart).
    unfold isOurEvent in Hlog. destruct (isUOE log); simpl in Hlog.
    + rewrite Hlog in Hs. destruct (Z.eqb_spec (endIndex st) (-1)).
      * simplify_eq. split_and!; [done..|]. congruence.
      * simplify_eq. split_and!; [done..|]. intros ?. rewrite Hstart; congruence.
    + simplify_eq. split_and!; [done..|]. intros ?. rewrite Hstart; congruence.
Qed.

(** The scan of [pre ++ ev :: post] when [ev] is the only event with our
    hash: [endIndex] is the position of [ev], and [startIndex] is what the
    scan of [pre] left. *)
Lemma forEachLog_around pre ev post st1 st :
  forEachLog pre 0 scanInit = Ok st1 →
  forEachLog (pre ++ ev :: post) 0 scanInit = Ok st →
  ours ev = true →
  Forall (fun log => ours log = false) pre →
  Forall (fun log => ours log = false) post →
  startIndex st = startIndex st1 ∧ endIndex st = Z.of_nat (length pre) ∧
  entryPoint st = address ev.
Proof.
  intros Hpre Hall Hev Hnpre Hnpost.
  rewrite forEachLog_app, Hpre in Hall. simpl in Hall.
  destruct (scanLog st1 ev _) as [st2|] eqn:Hs; [|done].
  apply scanLog_indices in Hs.
  unfold isOurEvent in Hev. apply andb_true_iff in Hev as [Hev1 Hev2].
  rewrite Hev1, Hev2 in Hs.
  destruct (forEachLog_not_ours _ _ _ _ Hnpost Hall) as (He & Hep & Hst).
  simplify_eq. rewrite He, Hep. split_and!; [|lia|congruence].
  rewrite Hst; [congruence|]. lia.
Qed.

Lemma existsb_isOther_false (l : list Log) :
  Forall (fun log => ours log = false) l →
  Forall (fun log => other log = false) l →
  Forall (fun log => isUOE log = false) l.
Proof.
  intros H1 H2. induction H1 as [|log l Hlog _ IH]; [constructor|].
  inversion H2 as [|?? Ho Hrest]; subst. constructor; [|by apply IH].
  unfold isOurEvent, isOtherEvent in *.
  destruct (isUOE log), (hasOurHash eventTopics log); done.
Qed.


End Located.



Section Fetched.

Variable rpcGetTransactionReceipt : nat -> Result TransactionReceipt.
Variable rpcGetTransaction : nat -> Result Transaction.

Local Abbreviation attempt := (attempt rpcGetTransactionReceipt rpcGetTransaction).
Local Abbreviation getTransactionReceiptFrom :=
  (getTransactionReceiptFrom rpcGetTransactionReceipt rpcGetTransaction).
Local Abbreviation getTransactionReceipt :=
  (getTransactionReceipt rpcGetTransactionReceipt rpcGetTransaction).

(** As long as the attempts end in "receipt not found" the loop goes on. *)
Lemma retry_while_not_found (n fuel start : nat) :
  (∀ k, (k < n)%nat → attempt (start + k) = Throw TransactionReceiptNotFoundError) →
  getTransactionReceiptFrom (n + fuel) start = getTransactionReceiptFrom fuel (start + n).
Proof.
  revert start. induction n as [|n IH]; intros start Hnf; simpl.
  - f_equal. lia.
  - replace start with (start + 0)%nat at 1 by lia.
    rewrite Hnf by lia. rewrite IH.
    + f_equal. lia.
    + intros k Hk. replace (S start + k)%nat with (start + S k)%nat by lia.
      apply Hnf. lia.
Qed.

Lemma decided_attempt (fuel n : nat) (out : Result TransactionReceipt) :
  attempt n = out → out ≠ Throw TransactionReceiptNotFoundError →
  getTransactionReceiptFrom (S fuel) n = Some out.
Proof.
  intros Hout Hne. simpl. rewrite Hout.
  destruct out as [r|e]; [done|]. destruct e; done.
Qed.


End Fetched.



(** ** The scan in closed form, and the call as a whole *)

Section Scanned.

Variable decodeRevertReason : Log -> Result string.
Variable revertTopicEvent : string.
Variable eventTopics : list string.

Local Abbreviation scanLog := (scanLog decodeRevertReason revertTopicEvent eventTopics).
Local Abbreviation forEachLog := (forEachLog decodeRevertReason revertTopicEvent eventTopics).
Local Abbreviation locateLogs := (locateLogs decodeRevertReason revertTopicEvent eventTopics).
Local Abbreviation ours := (isOurEvent eventTopics).
Local Abbreviation other := (isOtherEvent eventTopics).
Local Abbreviation ourReason := (isOurRevertReason revertTopicEvent eventTopics).

(** The effect of one log on the revert reason. *)
Lemma scanLog_reason st log i st' :
  scanLog st log i = Ok st' →
  revertReason st' =
    if ourReason log then decoded (decodeRevertReason log) else revertReason st.
Proof.
  unfold Receipt.scanLog, isOurRevertReason. intros H.
  destruct (isUserOperationEvent eventTopics log), (hasOurHash eventTopics log),
    (endIndex st =? -1), (isRevertReasonEvent revertTopicEvent log);
    simpl in *; try destruct (decodeRevertReason log); simplify_eq; done.
Qed.

(** A log of the operation whose revert reason does not decode stops the
    scan. *)
Lemma scanLog_throws st log i e :
  ourReason log = true → decodeRevertReason log = Throw e → scanLog st log i = Throw e.
Proof.
  unfold Receipt.scanLog, isOurRevertReason. intros [H1 H2]%andb_true_iff Hd.
  by rewrite H1, H2, Hd.
Qed.

Lemma scanLog_ok st log i :
  ourReason log = false → ∃ st', scanLog st log i = Ok st'.
Proof.
  unfold Receipt.scanLog, isOurRevertReason. intros H.
  destruct (isRevertReasonEvent revertTopicEvent log), (hasOurHash eventTopics log);
    simpl in *; try done; eauto.
Qed.

(** The effect of one log on the indices and the entry point, by the kind
    of the log. *)
Lemma scanLog_fields st log i st' :
  scanLog st log i = Ok st' →
  endIndex st' = (if ours log then i else endIndex st) ∧
  startIndex st' = (if other log && (endIndex st =? -1) then i else startIndex st) ∧
  entryPoint st' = (if ours log then address log else entryPoint st).
Proof.
  intros Hs. apply scanLog_indices in Hs. unfold isOurEvent, isOtherEvent.
  destruct (isUserOperationEvent eventTopics log), (hasOurHash eventTopics log),
    (endIndex st =? -1); simpl in *; by simplify_eq.
Qed.

Lemma last_cons_or {A} (x : A) (l : list A) : last (x :: l) = Some (default x (last l)).
Proof.
  revert x. induction l as [|y l IH]; intros x; [done|].
  change (last (x :: y :: l)) with (last (y :: l)). rewrite IH. simpl.
  by destruct (last l).
Qed.

(** The scan from any state and any position that is not negative. *)
Lemma forEachLog_closed l i st st' :
  0 ≤ i →
  forEachLog l i st = Ok st' →
  endIndex st' = default (endIndex st) (lastIndexFrom ours l i) ∧
  startIndex st' =
    (if endIndex st =? -1
     then default (startIndex st) (lastIndexFrom other (before ours l) i)
     else startIndex st) ∧
  entryPoint st' = default (entryPoint st) (address <$> last (List.filter ours l)) ∧
  revertReason st' =
    match last (List.filter ourReason l) with
    | Some log => decoded (decodeRevertReason log)
    | None => revertReason st
    end.
Proof.
  revert i st. induction l as [|log l IH]; intros i st Hi; simpl.
  - intros H. simplify_eq. by destruct (endIndex st' =? -1).
  - destruct (scanLog st log i) as [st1|] eqn:Hs; [|done]. intros Hrest.
    destruct (scanLog_fields _ _ _ _ Hs) as (He1 & Hs1 & Hp1).
    pose proof (scanLog_reason _ _ _ _ Hs) as Hr1.
    destruct (IH (i + 1) st1 ltac:(lia) Hrest) as (He & Hst & Hep & Hrr).
    split_and!.
    + rewrite He, He1. destruct (lastIndexFrom ours l (i + 1)); [done|].
      by destruct (ours log).
    + rewrite Hst, He1, Hs1.
      assert (ours log = true → other log = false) as Hexcl.
      { unfold isOurEvent, isOtherEvent.
        by destruct (isUserOperationEvent eventTopics log), (hasOurHash eventTopics log). }
      destruct (ours log) eqn:Ho.
      * rewrite (Hexcl eq_refl). simpl.
        replace (i =? -1) with false by (symmetry; apply Z.eqb_neq; lia).
        by destruct (endIndex st =? -1).
      * simpl. destruct (endIndex st =? -1); [|by rewrite andb_false_r].
        rewrite andb_true_r.
        destruct (lastIndexFrom other (before ours l) (i + 1)); [done|].
        by destruct (other log).
    + rewrite Hep, Hp1. cbn [List.filter]. destruct (ours log); [|done].
      rewrite last_cons_or. by destruct (last (List.filter ours l)).
    + rewrite Hrr, Hr1. cbn [List.filter]. destruct (ourReason log); [|done].
      rewrite last_cons_or. by destruct (last (List.filter ourReason l)).
Qed.

Lemma lastIndexFrom_None {A} (p : A -> bool) (l : list A) (i : Z) :
  lastIndexFrom p l i = None ↔ Forall (fun x => p x = false) l.
Proof.
  revert i. induction l as [|x l IH]; intros i; simpl.
  - split; [constructor|done].
  - destruct (lastIndexFrom p l (i + 1)) eqn:Hl.
    + split; [done|]. intros Hall. inversion Hall as [|?? _ Hrest]; subst.
      apply (IH (i + 1)) in Hrest. congruence.
    + destruct (p x) eqn:Hx.
      * split; [done|]. intros Hall. inversion Hall; congruence.
      * split; [|done]. intros _. constructor; [done|]. by apply (IH (i + 1)).
Qed.

Lemma lastIndexFrom_Some {A} (p : A -> bool) (l : list A) (i k : Z) :
  lastIndexFrom p l i = Some k → i ≤ k < i + Z.of_nat (length l) ∧
  ∃ x, l !! Z.to_nat (k - i) = Some x ∧ p x = true.
Proof.
  revert i. induction l as [|x l IH]; intros i; simpl; [done|].
  destruct (lastIndexFrom p l (i + 1)) eqn:Hl.
  - intros H. simplify_eq. destruct (IH _ Hl) as (Hk & y & Hy & Hp).
    split; [lia|]. exists y. split; [|done].
    replace (Z.to_nat (k - i)) with (S (Z.to_nat (k - (i + 1)))) by lia. done.
  - destruct (p x) eqn:Hx; [|done]. intros H. simplify_eq.
    split; [lia|]. exists x. by rewrite Z.sub_diag.
Qed.

(** The last element that satisfies [p] is where [lastIndexFrom] says. *)
Lemma lastIndexFrom_last {A} (p : A -> bool) (l : list A) (i k : Z) :
  lastIndexFrom p l i = Some k → l !! Z.to_nat (k - i) = last (List.filter p l).
Proof.
  revert i. induction l as [|x l IH]; intros i; simpl; [done|].
  destruct (lastIndexFrom p l (i + 1)) eqn:Hl.
  - intros H. simplify_eq. pose proof (IH _ Hl) as Hlast.
    destruct (lastIndexFrom_Some _ _ _ _ Hl) as (Hk & y & Hy & _).
    replace (Z.to_nat (k - i)) with (S (Z.to_nat (k - (i + 1)))) by lia.
    simpl. rewrite Hlast. rewrite Hy in Hlast.
    destruct (p x); [|done]. rewrite last_cons_or, <- Hlast. done.
  - apply lastIndexFrom_None in Hl.
    assert (List.filter p l = []) as Hnone.
    { clear -Hl. induction Hl as [|y l Hy _ IHl]; [done|]. simpl. by rewrite Hy. }
    destruct (p x) eqn:Hx; [|done]. intros H. simplify_eq.
    by rewrite Z.sub_diag, Hnone.
Qed.

Lemma forEachLog_decodes l i st :
  Forall (fun log => ourReason log = true → is_throw (decodeRevertReason log) = false) l →
  ∃ st', forEachLog l i st = Ok st'.
Proof.
  intros Hl. revert i st. induction Hl as [|log l Hlog _ IH]; intros i st; simpl; [eauto|].
  destruct (ourReason log) eqn:Hor.
  - specialize (Hlog eq_refl). unfold Receipt.scanLog.
    unfold isOurRevertReason in Hor. apply andb_true_iff in Hor as [-> ->].
    destruct (decodeRevertReason log); [|done]. apply IH.
  - destruct (scanLog_ok st log i Hor) as [st' ->]. apply IH.
Qed.

Lemma forEachLog_raises pre log post i st e :
  Forall (fun l => ourReason l = true → is_throw (decodeRevertReason l) = false) pre →
  ourReason log = true → decodeRevertReason log = Throw e →
  forEachLog (pre ++ log :: post) i st = Throw e.
Proof.
  intros Hpre Hor Hdec. rewrite forEachLog_app.
  destruct (forEachLog_decodes pre i st Hpre) as [st1 ->]. simpl.
  by rewrite (scanLog_throws _ _ _ e Hor Hdec).
Qed.

(** X19.  In a complete receipt whose revert reasons decode, the scan of
    [getUserOperationReceipt] ends with [endIndex] at the last
    [UserOperationEvent] that carries the hash asked for and with
    [startIndex] at the last [UserOperationEvent] of another operation
    before the first one that carries it (-1 when there is none): the
    logs attributed to the operation are those strictly between the two,
    and the entry point reported is the address of the log at [endIndex].
    When no [UserOperationEvent] carries the hash, the error "fatal: no
    UserOperationEvent in logs" is raised. *)
Theorem located_anywhere (receipt : TransactionReceipt) :
  existsb incomplete (logs receipt) = false →
  Forall (fun log => ourReason log = true → is_throw (decodeRevertReason log) = false)
    (logs receipt) →
  (lastIndex ours (logs receipt) = -1 ↔
   Forall (fun log => ours log = false) (logs receipt)) ∧
  (lastIndex ours (logs receipt) = -1 →
   locateLogs receipt = Throw (JsError "fatal: no UserOperationEvent in logs")) ∧
  (lastIndex ours (logs receipt) ≠ -1 →
   ∃ ev located,
     logs receipt !! Z.to_nat (lastIndex ours (logs receipt)) = Some ev ∧ ours ev = true ∧
     locateLogs receipt = Ok (Some located) ∧
     loc_entryPoint located = address ev ∧
     filteredLogs located =
       slice (lastIndex other (before ours (logs receipt)) + 1)
         (lastIndex ours (logs receipt)) (logs receipt)).
Proof.
  intros Hcomplete Hdec.
  destruct (forEachLog_decodes (logs receipt) 0 scanInit Hdec) as [st Hst].
  destruct (forEachLog_closed _ _ _ _ (Z.le_refl 0) Hst) as (He & Hs & Hp & _).
  simpl in He, Hs, Hp.
  assert (lastIndex ours (logs receipt) = -1 ↔
          Forall (fun log => ours log = false) (logs receipt)) as Hnone.
  { unfold lastIndex. rewrite <- (lastIndexFrom_None ours (logs receipt) 0).
    destruct (lastIndexFrom ours (logs receipt) 0) as [k|] eqn:Hk; simpl; [|done].
    apply lastIndexFrom_Some in Hk as [Hk _]. split; [intros ->; exfalso; lia|done]. }
  split; [exact Hnone|]. split.
  - intros Hend. unfold Receipt.locateLogs. rewrite Hcomplete, Hst.
    fold (lastIndex ours (logs receipt)) in He. by rewrite He, Hend.
  - intros Hend. unfold lastIndex in *.
    destruct (lastIndexFrom ours (logs receipt) 0) as [k|] eqn:Hk; [|done]. simpl in *.
    destruct (lastIndexFrom_Some _ _ _ _ Hk) as (Hrange & ev & Hev & Hours).
    rewrite Z.sub_0_r in Hev.
    assert (last (List.filter ours (logs receipt)) = Some ev) as Hlast.
    { rewrite <- (lastIndexFrom_last _ _ _ _ Hk), Z.sub_0_r. exact Hev. }
    eexists ev, _. split; [done|]. split; [done|].
    unfold Receipt.locateLogs. rewrite Hcomplete, Hst, He.
    destruct (Z.eqb_spec k (-1)); [done|]. split; [reflexivity|]. simpl.
    rewrite Hp, Hlast, Hs. done.
Qed.

(** A scan that has come to its end has decoded every revert reason of
    the operation. *)
Lemma forEachLog_decoded l i st st' :
  forEachLog l i st = Ok st' →
  Forall (fun log => ourReason log = true → is_throw (decodeRevertReason log) = false) l.
Proof.
  revert i st. induction l as [|log l IH]; intros i st; simpl; [constructor|].
  destruct (scanLog st log i) as [st1|] eqn:Hs; [|done]. intros Hrest.
  constructor; [|by eapply IH]. intros Hor.
  destruct (decodeRevertReason log) as [reason|e] eqn:Hd; [done|].
  by rewrite (scanLog_throws st log i e Hor Hd) in Hs.
Qed.

(** X20.  The revert reason [getUserOperationReceipt] reports is decoded
    from the last [UserOperationRevertReason] log that carries the hash
    asked for, wherever in the receipt it is, inside the logs attributed to
    the operation or not; without such a log the reason is [undefined].
    When one of these logs does not decode, the error of the decoder is
    raised, whether the receipt holds a [UserOperationEvent] of the
    operation or not. *)
Theorem revert_reason_of_last_log (receipt : TransactionReceipt) :
  existsb incomplete (logs receipt) = false →
  (∀ located, locateLogs receipt = Ok (Some located) →
     match last (List.filter ourReason (logs receipt)) with
     | Some log => ∃ reason, decodeRevertReason log = Ok reason ∧
                             loc_reason located = Some reason
     | None => loc_reason located = None
     end) ∧
  (∀ pre log post e,
     logs receipt = pre ++ log :: post →
     Forall (fun l => ourReason l = true → is_throw (decodeRevertReason l) = false) pre →
     ourReason log = true → decodeRevertReason log = Throw e →
     locateLogs receipt = Throw e).
Proof.
  intros Hcomplete. split.
  - intros located. unfold Receipt.locateLogs. rewrite Hcomplete.
    destruct (forEachLog (logs receipt) 0 scanInit) as [st|] eqn:Hst; [|done].
    destruct (endIndex st =? -1); [done|]. intros Hloc. simplify_eq. simpl.
    destruct (forEachLog_closed _ _ _ _ (Z.le_refl 0) Hst) as (_ & _ & _ & Hreason).
    pose proof (forEachLog_decoded _ _ _ _ Hst) as Hall.
    destruct (last (List.filter ourReason (logs receipt))) as [log|] eqn:Hlast; [|done].
    assert (log ∈ List.filter ourReason (logs receipt)) as Hin.
    { apply last_Some in Hlast as [l' ->]. apply elem_of_app. right. by left. }
    apply list_elem_of_In, filter_In in Hin as [Hin Hor]. apply list_elem_of_In in Hin.
    rewrite Forall_forall in Hall. specialize (Hall log Hin Hor).
    destruct (decodeRevertReason log) as [reason|]; [|done]. eauto.
  - intros pre log post e Hlogs Hpre Hor Hdec. unfold Receipt.locateLogs.
    rewrite Hcomplete, Hlogs. by rewrite (forEachLog_raises pre log post 0 scanInit e).
Qed.

End Scanned.

Lemma located_anywhere_witness :
  (∃ located,
     locateLogs decodeAny revertTopic [uoeTopic; hashA] twiceReceipt = Ok (Some located) ∧
     loc_entryPoint located = tokenAddress ∧
     filteredLogs located = take 4 (logs twiceReceipt)) ∧
  locateLogs decodeAny revertTopic [uoeTopic; hashC] twiceReceipt =
    Throw (JsError "fatal: no UserOperationEvent in logs").
Proof.
  assert (∀ topics,
            Forall (fun log => isOurRevertReason revertTopic topics log = true →
                               is_throw (decodeAny log) = false) (logs twiceReceipt))
    as Hdec by (intros topics; apply Forall_forall; intros log _ _; reflexivity).
  destruct (located_anywhere decodeAny revertTopic [uoeTopic; hashA] twiceReceipt
              eq_refl (Hdec _)) as (_ & _ & Hsome).
  destruct (located_anywhere decodeAny revertTopic [uoeTopic; hashC] twiceReceipt
              eq_refl (Hdec _)) as (_ & Hnone & _).
  split.
  - destruct Hsome as (ev & located & Hev & _ & Hloc & Hep & Hlogs); [discriminate|].
    exists located. split; [exact Hloc|]. split.
    + rewrite Hep. injection Hev as <-. reflexivity.
    + rewrite Hlogs. reflexivity.
  - apply Hnone. reflexivity.
Defined.

Lemma revert_reason_of_last_log_witness :
  locateLogs decodeAny revertTopic [uoeTopic; hashB] twiceReceipt =
    Ok (Some {| loc_entryPoint := entryPointV06; loc_reason := Some "0x";
                filteredLogs := [minedLog entryPointV06 [revertTopic; hashA] 2] |}) ∧
  (∃ reason, decodeAny (minedLog entryPointV06 [revertTopic; hashB] 5) = Ok reason ∧
             Some "0x" = Some reason) ∧
  locateLogs decodeNone revertTopic [uoeTopic; hashB] twiceReceipt =
    Throw (JsError "data size too small").
Proof.
  destruct (revert_reason_of_last_log decodeAny revertTopic [uoeTopic; hashB] twiceReceipt
              eq_refl) as (Hreason & _).
  destruct (revert_reason_of_last_log decodeNone revertTopic [uoeTopic; hashB] twiceReceipt
              eq_refl) as (_ & Hraise).
  assert (locateLogs decodeAny revertTopic [uoeTopic; hashB] twiceReceipt =
          Ok (Some {| loc_entryPoint := entryPointV06; loc_reason := Some "0x";
                      filteredLogs := [minedLog entryPointV06 [revertTopic; hashA] 2] |}))
    as Hloc by (vm_compute; reflexivity).
  split; [exact Hloc|]. split.
  - pose proof (Hreason _ Hloc) as H. vm_compute in H. vm_compute. exact H.
  - apply (Hraise (take 5 (logs twiceReceipt))
             (minedLog entryPointV06 [revertTopic; hashB] 5) []);
      [reflexivity| |reflexivity|reflexivity].
    apply Forall_forall. intros log Hin Hor. exfalso.
    simpl in Hin. repeat (apply elem_of_cons in Hin as [->|Hin]; [discriminate|]).
    by apply elem_of_nil in Hin.
Defined.

Section WholeProofs.

Variable ParsedReceipt : Type.
Variable rpcMaxBlockRange : option Z.
Variable entryPoints : list Address.
Variable getBlockNumber : Result Z.
Variable getLogs : list Address -> option Z -> bool -> HexData32 -> Result (list EventLog).
Variable rpcGetTransactionReceipt : HexData32 -> nat -> Result TransactionReceipt.
Variable rpcGetTransaction : HexData32 -> nat -> Result Transaction.
Variable decodeRevertReason : Log -> Result string.
Variable revertTopicEvent : string.
Variable parseLogs : list Log -> Result (list Log).
Variable parseReceipt : TransactionReceipt -> Z -> Result ParsedReceipt.

Local Abbreviation blockRange := (blockRange rpcMaxBlockRange getBlockNumber).
Local Abbreviation assemble :=
  (assemble ParsedReceipt decodeRevertReason revertTopicEvent parseLogs parseReceipt).
Local Abbreviation getUserOperationReceipt :=
  (getUserOperationReceipt ParsedReceipt rpcMaxBlockRange entryPoints getBlockNumber getLogs
     rpcGetTransactionReceipt rpcGetTransaction decodeRevertReason revertTopicEvent
     parseLogs parseReceipt).

(** The filter never starts below block 0, and it has a lower end exactly
    when a range is configured. *)
Lemma blockRange_bounds fromBlock toLatest :
  blockRange = Ok (fromBlock, toLatest) →
  match rpcMaxBlockRange with
  | Some range =>
      ∃ latestBlock, getBlockNumber = Ok latestBlock ∧
                     fromBlock = Some (Z.max 0 (latestBlock - range)) ∧ toLatest = true
  | None => fromBlock = None ∧ toLatest = false
  end.
Proof.
  unfold Receipt.blockRange. destruct rpcMaxBlockRange as [range|].
  - destruct getBlockNumber as [latestBlock|]; [|done]. intros H. simplify_eq.
    exists latestBlock. split; [done|]. split; [|done]. f_equal.
    destruct (Z.ltb_spec (latestBlock - range) 0); lia.
  - intros H. by simplify_eq.
Qed.

Lemma definedArgs_Some args defined :
  definedArgs args = Some defined →
  args = {| arg_actualGasCost := Some (def_actualGasCost defined);
            arg_sender := Some (def_sender defined);
            arg_nonce := Some (def_nonce defined);
            arg_userOpHash := arg_userOpHash args;
            arg_success := Some (def_success defined);
            arg_paymaster := Some (def_paymaster defined);
            arg_actualGasUsed := Some (def_actualGasUsed defined) |} ∧
  is_Some (arg_userOpHash args).
Proof.
  destruct args as [[c|] [s|] [n|] [h|] [b|] [p|] [u|]]; simpl; intros H; simplify_eq.
  split; [done|]. by eexists.
Qed.

(** What [assemble] has gone through when it hands out a receipt. *)
Lemma assemble_returned h ev args receipt r :
  assemble h ev args receipt = Ok (Some r) →
  let ours := isOurEvent (ev_topics ev) in
  let other := isOtherEvent (ev_topics ev) in
  existsb incomplete (logs receipt) = false ∧
  lastIndex ours (logs receipt) ≠ -1 ∧
  (∃ log, logs receipt !! Z.to_nat (lastIndex ours (logs receipt)) = Some log ∧
          ours log = true ∧ uo_entryPoint r = address log) ∧
  parseLogs (slice (lastIndex other (before ours (logs receipt)) + 1)
               (lastIndex ours (logs receipt)) (logs receipt)) = Ok (uo_logs r) ∧
  parseReceipt receipt (statusNumber receipt) = Ok (uo_receipt r) ∧
  uo_userOpHash r = h ∧
  uo_sender r = def_sender args ∧ uo_nonce r = def_nonce args ∧
  uo_actualGasUsed r = def_actualGasUsed args ∧
  uo_actualGasCost r = def_actualGasCost args ∧
  uo_success r = def_success args ∧
  uo_paymaster r = paymasterOf (def_paymaster args).
Proof.
  intros Hrun. cbv zeta. unfold Receipt.assemble, Receipt.locateLogs in Hrun.
  destruct (existsb incomplete (logs receipt)) eqn:Hcomplete; [done|].
  destruct (Receipt.forEachLog _ _ _ (logs receipt) 0 scanInit) as [st|] eqn:Hst; [|done].
  destruct (forEachLog_closed _ _ _ _ _ _ _ (Z.le_refl 0) Hst) as (He & Hs & Hp & _).
  simpl in He, Hs, Hp.
  destruct (Z.eqb_spec (endIndex st) (-1)) as [|Hend]; [done|].
  cbn [loc_entryPoint loc_reason filteredLogs] in Hrun.
  destruct (parseLogs _) as [logsParsed|] eqn:Hlogs; [|done].
  destruct (parseReceipt _ _) as [receiptParsed|] eqn:Hreceipt; [|done].
  simplify_eq.
  cbn [uo_userOpHash uo_entryPoint uo_sender uo_nonce uo_paymaster uo_actualGasUsed
       uo_actualGasCost uo_success uo_reason uo_logs uo_receipt].
  rewrite Hs, He in Hlogs. rewrite He in Hend. unfold lastIndex.
  split_and!; try done.
  unfold lastIndex in *.
  destruct (lastIndexFrom (isOurEvent (ev_topics ev)) (logs receipt) 0) as [k|] eqn:Hk;
    [|done]. simpl in He.
  destruct (lastIndexFrom_Some _ _ _ _ Hk) as (_ & log & Hlog & Hours).
  rewrite Z.sub_0_r in Hlog. exists log. simpl. split; [done|]. split; [done|].
  rewrite Hp. rewrite <- (lastIndexFrom_last _ _ _ _ Hk), Z.sub_0_r, Hlog. done.
Qed.

(** X21.  A receipt that [getUserOperationReceipt] hands out is backed by
    the chain: the filter, asked from block [max(0, latest - range)] when a
    range is configured and without bounds otherwise, has answered with at
    least one event, whose members are all defined and whose transaction
    hash is not null; the receipt of that transaction has been fetched and
    all its logs are complete; the entry point reported is the address of
    the last log of the receipt that is a [UserOperationEvent] with the
    topics of the event; the logs and the receipt are what the schemas
    made of the attributed logs and of the receipt with its status as a
    number.  The hash reported is the hash asked for, the members of the
    event are reported as they are, and the paymaster is never the zero
    address: it is [undefined] instead. *)
Theorem receipt_backed_by_chain (fuel : nat) (userOperationHash : HexData32)
    (r : UserOperationReceipt ParsedReceipt) :
  getUserOperationReceipt fuel userOperationHash = Some (Ok (Some r)) →
  ∃ fromBlock toLatest userOperationEvent others txHash receipt,
    blockRange = Ok (fromBlock, toLatest) ∧
    match rpcMaxBlockRange with
    | Some range =>
        ∃ latestBlock, getBlockNumber = Ok latestBlock ∧
                       fromBlock = Some (Z.max 0 (latestBlock - range)) ∧ toLatest = true
    | None => fromBlock = None ∧ toLatest = false
    end ∧
    getLogs entryPoints fromBlock toLatest userOperationHash
      = Ok (userOperationEvent :: others) ∧
    ev_transactionHash userOperationEvent = Some txHash ∧
    getTransactionReceipt (rpcGetTransactionReceipt txHash) (rpcGetTransaction txHash) fuel
      = Some (Ok receipt) ∧
    existsb incomplete (logs receipt) = false ∧
    let ours := isOurEvent (ev_topics userOperationEvent) in
    let other := isOtherEvent (ev_topics userOperationEvent) in
    (∃ log, logs receipt !! Z.to_nat (lastIndex ours (logs receipt)) = Some log ∧
            ours log = true ∧ uo_entryPoint r = address log) ∧
    parseLogs (slice (lastIndex other (before ours (logs receipt)) + 1)
                 (lastIndex ours (logs receipt)) (logs receipt)) = Ok (uo_logs r) ∧
    parseReceipt receipt (statusNumber receipt) = Ok (uo_receipt r) ∧
    uo_userOpHash r = userOperationHash ∧
    arg_sender (ev_args userOperationEvent) = Some (uo_sender r) ∧
    arg_nonce (ev_args userOperationEvent) = Some (uo_nonce r) ∧
    arg_actualGasUsed (ev_args userOperationEvent) = Some (uo_actualGasUsed r) ∧
    arg_actualGasCost (ev_args userOperationEvent) = Some (uo_actualGasCost r) ∧
    arg_success (ev_args userOperationEvent) = Some (uo_success r) ∧
    (∃ paymaster, arg_paymaster (ev_args userOperationEvent) = Some paymaster ∧
                  uo_paymaster r = paymasterOf paymaster) ∧
    uo_paymaster r ≠ Some zeroAddress.
Proof.
  unfold Receipt.getUserOperationReceipt. intros Hrun.
  destruct blockRange as [[fromBlock toLatest]|] eqn:Hrange; [|done].
  destruct (getLogs entryPoints fromBlock toLatest userOperationHash)
    as [[|ev others]|] eqn:Hlogs; [done| |done].
  destruct (definedArgs (ev_args ev)) as [args|] eqn:Hargs; [|done].
  destruct (ev_transactionHash ev) as [txHash|] eqn:Htx; [|done].
  destruct (getTransactionReceipt _ _ fuel) as [[receipt|]|] eqn:Hfetch; [|done..].
  simplify_eq.
  match goal with H : _ = Ok (Some r) |- _ => apply assemble_returned in H as Hasm end.
  cbv zeta in Hasm.
  destruct Hasm as (Hc & _ & Hep & Hpl & Hpr & Hh & Hs & Hn & Hu & Hg & Hb & Hpm).
  destruct (definedArgs_Some _ _ Hargs) as [Heq _].
  exists fromBlock, toLatest, ev, others, txHash, receipt.
  split; [done|]. split; [by apply blockRange_bounds|].
  split; [done|]. split; [done|]. split; [done|]. split; [done|].
  cbv zeta. split; [done|]. split; [done|]. split; [done|]. split; [done|].
  rewrite Heq. simpl. rewrite Hs, Hn, Hu, Hg, Hb.
  split; [done|]. split; [done|]. split; [done|]. split; [done|]. split; [done|].
  split; [eauto|]. rewrite Hpm. unfold paymasterOf. case_bool_decide; congruence.
Qed.

Lemma assemble_null h ev args receipt :
  assemble h ev args receipt = Ok None ↔ existsb incomplete (logs receipt) = true.
Proof.
  unfold Receipt.assemble, Receipt.locateLogs.
  destruct (existsb incomplete (logs receipt)); [done|]. split; [|done].
  destruct (Receipt.forEachLog _ _ _ (logs receipt) 0 scanInit) as [st|]; [|done].
  destruct (endIndex st =? -1); [done|]. cbn [filteredLogs].
  destruct (parseLogs _); [|done]. by destruct (parseReceipt _ _).
Qed.

(** X22.  [getUserOperationReceipt] returns [null] in three cases and in
    no other: the filter has found no event; the first event it has found
    has all its members defined and no transaction hash yet; or the
    receipt of the transaction of that event has been fetched and one of
    its logs is incomplete.  In particular an event with an undefined
    member never gives [null], pending or not. *)
Theorem receipt_null_iff (fuel : nat) (userOperationHash : HexData32) :
  getUserOperationReceipt fuel userOperationHash = Some (Ok None) ↔
  ∃ fromBlock toLatest,
    blockRange = Ok (fromBlock, toLatest) ∧
    (getLogs entryPoints fromBlock toLatest userOperationHash = Ok [] ∨
     ∃ userOperationEvent others,
       getLogs entryPoints fromBlock toLatest userOperationHash
         = Ok (userOperationEvent :: others) ∧
       is_Some (definedArgs (ev_args userOperationEvent)) ∧
       (ev_transactionHash userOperationEvent = None ∨
        ∃ txHash receipt,
          ev_transactionHash userOperationEvent = Some txHash ∧
          getTransactionReceipt (rpcGetTransactionReceipt txHash)
            (rpcGetTransaction txHash) fuel = Some (Ok receipt) ∧
          existsb incomplete (logs receipt) = true)).
Proof.
  unfold Receipt.getUserOperationReceipt. split.
  - intros Hrun.
    destruct blockRange as [[fromBlock toLatest]|] eqn:Hrange; [|done].
    exists fromBlock, toLatest. split; [done|].
    destruct (getLogs entryPoints fromBlock toLatest userOperationHash)
      as [[|ev others]|] eqn:Hlogs; [by left| |done].
    right. exists ev, others. split; [done|].
    destruct (definedArgs (ev_args ev)) as [args|] eqn:Hargs; [|done].
    split; [by eexists|].
    destruct (ev_transactionHash ev) as [txHash|] eqn:Htx; [|by left].
    right. exists txHash.
    destruct (getTransactionReceipt _ _ fuel) as [[receipt|]|] eqn:Hfetch; [|done..].
    exists receipt. split; [done|]. split; [done|].
    simplify_eq. by eapply assemble_null.
  - intros (fromBlock & toLatest & -> & [->|Hev]); [done|].
    destruct Hev as (ev & others & -> & [args ->] & [->|Hrec]); [done|].
    destruct Hrec as (txHash & receipt & -> & -> & Hinc).
    f_equal. by apply assemble_null.
Qed.

End WholeProofs.

Lemma receipt_backed_by_chain_witness :
  receiptFromNode [eventA] 1 hashA = Some (Ok (Some receiptA)) ∧
  arg_paymaster (ev_args eventA) = Some zeroAddress ∧
  uo_paymaster receiptA ≠ Some zeroAddress.
Proof.
  assert (receiptFromNode [eventA] 1 hashA = Some (Ok (Some receiptA))) as Hrun
    by (vm_compute; reflexivity).
  destruct (receipt_backed_by_chain _ _ _ _ _ _ _ _ _ _ _ _ _ _ Hrun)
    as (fromBlock & toLatest & ev & others & txHash & receipt & _ & _ & _ & _ & _ & _ & Hrest).
  cbv zeta in Hrest.
  destruct Hrest as (_ & _ & _ & _ & _ & _ & _ & _ & _ & _ & Hnonzero).
  split; [exact Hrun|]. split; [reflexivity|exact Hnonzero].
Defined.

Lemma receipt_null_iff_witness :
  receiptFromNode [pendingEventA; eventA] 1 hashA = Some (Ok None) ∧
  receiptFromNode [eventA] 1 hashB = Some (Ok None).
Proof.
  split.
  - apply receipt_null_iff. exists (Some 0), true. split; [reflexivity|].
    right. exists pendingEventA, [eventA]. split; [reflexivity|].
    split; [by eexists|]. by left.
  - apply receipt_null_iff. exists (Some 0), true. split; [reflexivity|]. by left.
Defined.

End ReceiptProofs.

(** ** The executor manager *)

Module ManagerProofs.
Import Manager.

(** *** Running the monad *)

Lemma run_bind {A B} (m : M A) (f : A -> M B) (w : World) :
  bind m f w =
  match m w with
  | (Ok a, w') => f a w'
  | (Throw e, w') => (Throw e, w')
  end.
Proof. reflexivity. Qed.

Lemma run_seq {A B} (m : M A) (k : M B) (w : World) :
  (m ;; k) w =
  match m w with
  | (Ok _, w') => k w'
  | (Throw e, w') => (Throw e, w')
  end.
Proof. reflexivity. Qed.

Lemma run_bind_ok {A B} (m : M A) (f : A -> M B) (w w' : World) (a : A) :
  m w = (Ok a, w') → bind m f w = f a w'.
Proof. intros H. by rewrite run_bind, H. Qed.

Lemma run_seq_ok {A B} (m : M A) (k : M B) (w w' : World) (a : A) :
  m w = (Ok a, w') → (m ;; k) w = k w'.
Proof. intros H. by rewrite run_seq, H. Qed.

Lemma run_seq_throw {A B} (m : M A) (k : M B) (w w' : World) (e : Exn) :
  m w = (Throw e, w') → (m ;; k) w = (Throw e, w').
Proof. intros H. by rewrite run_seq, H. Qed.

Lemma run_emit (ev : Event) (w : World) : emit ev w = (Ok tt, record ev w).
Proof. reflexivity. Qed.

Lemma run_log lvl msg fields (w : World) :
  log lvl msg fields w = (Ok tt, record (EvLog lvl msg fields) w).
Proof. reflexivity. Qed.

Lemma run_readTx (r : TxRef) (w : World) (txInfo : TransactionInfo) :
  heap w !! r = Some txInfo → readTx r w = (Ok txInfo, w).
Proof. intros H. unfold readTx. by rewrite H. Qed.

Ltac run :=
  repeat first
    [ rewrite run_bind | rewrite run_seq | rewrite run_emit | rewrite run_log
    | progress (unfold ret, mret, M_ret, gets, modify, throw; simpl) ].

(** *** What an operation leaves unchanged *)

Section Keeps.

Context (R : World -> World -> Prop) `{!PreOrder R}.

Lemma keeps_ret {A} (a : A) : keeps R (ret a).
Proof. intros w. simpl. reflexivity. Qed.

Lemma keeps_throw {A} (e : Exn) : keeps R (@throw A e).
Proof. intros w. simpl. reflexivity. Qed.

Lemma keeps_gets {A} (f : World -> A) : keeps R (gets f).
Proof. intros w. simpl. reflexivity. Qed.

Lemma keeps_modify (f : World -> World) : (∀ w, R w (f w)) → keeps R (modify f).
Proof. intros H w. apply H. Qed.

Lemma keeps_bind {A B} (m : M A) (f : A -> M B) :
  keeps R m → (∀ a, keeps R (f a)) → keeps R (bind m f).
Proof.
  intros Hm Hf w. rewrite run_bind. specialize (Hm w).
  destruct (m w) as [[a|e] w']; simpl in *; [|done].
  etrans; [exact Hm|apply Hf].
Qed.

Lemma keeps_seq {A B} (m : M A) (k : M B) :
  keeps R m → keeps R k → keeps R (m ;; k).
Proof. intros Hm Hk. apply (keeps_bind m (fun _ => k)); auto. Qed.

Lemma keeps_forEach {A} (f : A -> M unit) (xs : list A) :
  (∀ x, keeps R (f x)) → keeps R (forEach f xs).
Proof.
  intros Hf. induction xs as [|x xs IH]; simpl.
  - apply keeps_ret.
  - by apply keeps_seq.
Qed.

Lemma keeps_promiseAll {A B} (f : A -> M B) (xs : list A) :
  (∀ x, keeps R (f x)) → keeps R (promiseAll f xs).
Proof.
  intros Hf. induction xs as [|x xs IH]; intros w; simpl; [reflexivity|].
  specialize (Hf x w). destruct (f x w) as [r w1]. specialize (IH w1).
  destruct (promiseAll f xs w1) as [rs w2]. simpl in *. by etrans.
Qed.

Lemma keeps_tryFinally {A} (m : M A) (h : Result A -> World -> World) :
  keeps R m → (∀ r w, R w (h r w)) → keeps R (tryFinally m h).
Proof.
  intros Hm Hh w. unfold tryFinally. specialize (Hm w).
  destruct (m w) as [r w']. simpl in *. etrans; [exact Hm|apply Hh].
Qed.

Lemma keeps_readTx (r : TxRef) : keeps R (readTx r).
Proof. intros w. unfold readTx. destruct (heap w !! r); simpl; reflexivity. Qed.

Lemma keeps_record (ev : Event) : (∀ w, R w (record ev w)) → keeps R (emit ev).
Proof. intros H. by apply keeps_modify. Qed.

End Keeps.

#[local] Instance traceOnly_preorder : PreOrder traceOnly.
Proof.
  split.
  - intros w. unfold traceOnly. split_and!; try done. exists []. by rewrite app_nil_r.
  - intros w1 w2 w3 (H1 & H2 & H3 & H4 & H5 & H6 & evs & H7)
      (K1 & K2 & K3 & K4 & K5 & K6 & evs' & K7).
    unfold traceOnly. split_and!; try congruence.
    exists (evs ++ evs'). rewrite K7, H7. by rewrite app_assoc.
Qed.

#[local] Instance flagKept_preorder : PreOrder flagKept.
Proof. split; unfold flagKept; [done|]. intros ???; congruence. Qed.

#[local] Instance heapKept_preorder : PreOrder heapKept.
Proof. split; unfold heapKept; [done|]. intros ???; congruence. Qed.

#[local] Instance requestsKept_preorder : PreOrder requestsKept.
Proof.
  split.
  - intros w r txInfo H. eauto.
  - intros w1 w2 w3 H12 H23 r txInfo H.
    destruct (H12 _ _ H) as (t2 & H2 & E2).
    destruct (H23 _ _ H2) as (t3 & H3 & E3).
    exists t3. split; [done|congruence].
Qed.

#[local] Instance outstandingGrows_preorder : PreOrder outstandingGrows.
Proof.
  split.
  - intros w. exists []. by rewrite app_nil_r.
  - intros w1 w2 w3 [m1 H1] [m2 H2]. exists (m1 ++ m2).
    rewrite H2, H1. by rewrite app_assoc.
Qed.

(** Goals [keeps R m] are split along the structure of [m]; what remains
    is what [R] says of the single assignments. *)
Ltac keeps_step :=
  lazymatch goal with
  | |- keeps ?R (ret ?a) => apply (keeps_ret R a)
  | |- keeps ?R (throw ?e) => apply (keeps_throw R e)
  | |- keeps ?R (gets ?f) => apply (keeps_gets R f)
  | |- keeps ?R (readTx ?r) => apply (keeps_readTx R r)
  | |- keeps ?R (bind ?m ?f) => apply (keeps_bind R m f); [|intros ?]
  | |- keeps ?R (mbind ?f ?m) => apply (keeps_bind R m f); [|intros ?]
  | |- keeps ?R (forEach ?f ?xs) => apply (keeps_forEach R f xs); intros ?
  | |- keeps ?R (promiseAll ?f ?xs) => apply (keeps_promiseAll R f xs); intros ?
  | |- keeps ?R (tryFinally ?m ?h) => apply (keeps_tryFinally R m h); [|intros ? ?]
  | |- keeps ?R (emit ?ev) => apply (keeps_record R ev); intros ?
  | |- keeps ?R (log ?l ?m ?f) => apply (keeps_record R (EvLog l m f)); intros ?
  | |- keeps ?R (modify ?f) => apply (keeps_modify R f); intros ?
  | |- keeps _ (if ?b then _ else _) => destruct b
  | |- keeps _ (match ?x with _ => _ end) => destruct x
  end.

Create HintDb keeps discriminated.

Ltac keeps_auto :=
  repeat first [ solve [auto with keeps] | keeps_step | progress cbv zeta ].

(** **** Calls that only leave a mark in the trace *)

Lemma traceOnly_record ev w : traceOnly w (record ev w).
Proof. unfold traceOnly. simpl. split_and!; try done. by exists [ev]. Qed.
#[local] Hint Resolve traceOnly_record : keeps.

Lemma fetchBundleStatus_traceOnly E v06 h ep : keeps traceOnly (fetchBundleStatus E v06 h ep).
Proof. unfold fetchBundleStatus. keeps_auto. Qed.
#[local] Hint Resolve fetchBundleStatus_traceOnly : keeps.

Lemma resolveStatuses_traceOnly E ep txInfo : keeps traceOnly (resolveStatuses E ep txInfo).
Proof. unfold resolveStatuses. keeps_auto. Qed.

Lemma executorReplaceTransaction_traceOnly E r :
  keeps traceOnly (executorReplaceTransaction E r).
Proof. unfold executorReplaceTransaction. keeps_auto. Qed.

(** **** The block-handler flag is written by [handleBlock] alone *)

Lemma flagKept_record ev w : flagKept w (record ev w).
Proof. done. Qed.
Lemma flagKept_setHeap h w : flagKept w (setHeap h w).
Proof. done. Qed.
Lemma flagKept_setSubmitted x w : flagKept w (setSubmitted x w).
Proof. done. Qed.
Lemma flagKept_setProcessing x w : flagKept w (setProcessing x w).
Proof. done. Qed.
Lemma flagKept_setOutstanding x w : flagKept w (setOutstanding x w).
Proof. done. Qed.
Lemma flagKept_setUnWatch x w : flagKept w (setUnWatch x w).
Proof. done. Qed.
#[local] Hint Resolve flagKept_record flagKept_setHeap flagKept_setSubmitted
  flagKept_setProcessing flagKept_setOutstanding flagKept_setUnWatch : keeps.

Lemma removeSubmitted_flagKept h : keeps flagKept (removeSubmitted h).
Proof. unfold removeSubmitted. keeps_auto. Qed.
Lemma replaceSubmitted_flagKept op r : keeps flagKept (replaceSubmitted op r).
Proof. unfold replaceSubmitted. keeps_auto. Qed.
Lemma updateTx_flagKept r f : keeps flagKept (updateTx r f).
Proof. unfold updateTx. keeps_auto. Qed.
Lemma allocTx_flagKept txInfo : keeps flagKept (allocTx txInfo).
Proof. intros w. done. Qed.
Lemma executorReplaceTransaction_flagKept E r : keeps flagKept (executorReplaceTransaction E r).
Proof. unfold executorReplaceTransaction. keeps_auto. Qed.
Lemma markWalletProcessed_flagKept wallet : keeps flagKept (markWalletProcessed wallet).
Proof. unfold markWalletProcessed. keeps_auto. Qed.
#[local] Hint Resolve removeSubmitted_flagKept replaceSubmitted_flagKept updateTx_flagKept
  allocTx_flagKept executorReplaceTransaction_flagKept markWalletProcessed_flagKept : keeps.

Lemma replaceTransaction_flagKept E r reason : keeps flagKept (replaceTransaction E r reason).
Proof. unfold replaceTransaction. keeps_auto. Qed.
#[local] Hint Resolve replaceTransaction_flagKept : keeps.

Lemma fetchBundleStatus_flagKept E v06 h ep : keeps flagKept (fetchBundleStatus E v06 h ep).
Proof. unfold fetchBundleStatus. keeps_auto. Qed.
#[local] Hint Resolve fetchBundleStatus_flagKept : keeps.

Lemma refreshTransactionStatus_flagKept E ep r :
  keeps flagKept (refreshTransactionStatus E ep r).
Proof.
  unfold refreshTransactionStatus, resolveStatuses, onIncluded, onFailed, checkFrontrun.
  keeps_auto.
Qed.
#[local] Hint Resolve refreshTransactionStatus_flagKept : keeps.

Lemma refreshUserOperationStatuses_flagKept E : keeps flagKept (refreshUserOperationStatuses E).
Proof. unfold refreshUserOperationStatuses, dumpSubmittedOps, noOpsWarning. keeps_auto. Qed.

Lemma gasPricePass_flagKept E : keeps flagKept (gasPricePass E).
Proof. unfold gasPricePass, fetchGasPrice, gasPriceTask, dumpSubmittedOps. keeps_auto. Qed.

Lemma stuckPass_flagKept E : keeps flagKept (stuckPass E).
Proof. unfold stuckPass, stuckTask, dumpSubmittedOps. keeps_auto. Qed.

(** *** Closed forms of the loops over the operations of a transaction *)

Lemma record_recordAll ev evs w : record ev (recordAll evs w) = recordAll (evs ++ [ev]) w.
Proof. unfold record, recordAll. simpl. by rewrite app_assoc. Qed.

Lemma recordAll_recordAll evs1 evs2 w :
  recordAll evs2 (recordAll evs1 w) = recordAll (evs1 ++ evs2) w.
Proof. unfold recordAll. simpl. by rewrite app_assoc. Qed.

Lemma record_eq ev w : record ev w = recordAll [ev] w.
Proof. reflexivity. Qed.

Lemma recordAll_nil w : recordAll [] w = w.
Proof. unfold recordAll. rewrite app_nil_r. by destruct w. Qed.

Lemma forEach_emit {A} (f : A -> Event) (xs : list A) (w : World) :
  forEach (fun x => emit (f x)) xs w = (Ok tt, recordAll (map f xs) w).
Proof.
  revert w. induction xs as [|x xs IH]; intros w; simpl.
  - by rewrite recordAll_nil.
  - rewrite run_seq, run_emit, IH, record_eq, recordAll_recordAll. done.
Qed.

Lemma withoutHashes_cons h hashes s :
  withoutHashes hashes (List.filter (fun e => negb (hashIs h e)) s) =
  withoutHashes (h :: hashes) s.
Proof.
  unfold withoutHashes. induction s as [|e s IH]; [done|]. simpl.
  unfold hashIs at 1. rewrite (bool_decide_ext _ _ (elem_of_cons hashes _ h)).
  destruct (decide (userOperationHash (userOperation e) = h)) as [Heq|Hne].
  - rewrite (bool_decide_true _ Heq). simpl.
    rewrite bool_decide_true by (by left). simpl. apply IH.
  - rewrite (bool_decide_false _ Hne). simpl.
    destruct (decide (userOperationHash (userOperation e) ∈ hashes)) as [Hin|Hnin].
    + rewrite (bool_decide_true _ Hin), bool_decide_true by (by right). simpl. apply IH.
    + rewrite (bool_decide_false _ Hnin), bool_decide_false by (intros [?|?]; done).
      simpl. by rewrite IH.
Qed.

Lemma withoutHashes_nil s : withoutHashes [] s = s.
Proof.
  unfold withoutHashes. induction s as [|e s IH]; [done|]. cbn [List.filter].
  rewrite bool_decide_false by (apply not_elem_of_nil). cbn [negb]. by rewrite IH.
Qed.

Lemma removedAll_nil w : removedAll [] w = w.
Proof.
  unfold removedAll, setSubmitted, recordAll. simpl.
  rewrite withoutHashes_nil, app_nil_r. by destruct w.
Qed.

Lemma run_removeSubmitted h w :
  removeSubmitted h w = (Ok tt, removedAll [h] w).
Proof.
  unfold removeSubmitted. run. unfold removedAll. simpl.
  rewrite <- withoutHashes_cons, withoutHashes_nil. done.
Qed.

Lemma removedAll_cons h hashes w :
  removedAll hashes (removedAll [h] w) = removedAll (h :: hashes) w.
Proof.
  unfold removedAll, setSubmitted, recordAll. simpl.
  rewrite <- (withoutHashes_cons h [] (submitted w)), withoutHashes_nil.
  rewrite withoutHashes_cons. by rewrite <- app_assoc.
Qed.

Lemma forEach_removeSubmitted (ops : list UserOperationInfo) (w : World) :
  forEach (fun opInfo => removeSubmitted (userOperationHash opInfo)) ops w =
  (Ok tt, removedAll (map userOperationHash ops) w).
Proof.
  revert w. induction ops as [|op ops IH]; intros w; simpl.
  - by rewrite removedAll_nil.
  - rewrite run_seq, run_removeSubmitted, IH, removedAll_cons. done.
Qed.

Lemma elem_of_withoutHashes hashes s e :
  e ∈ withoutHashes hashes s ↔
  e ∈ s ∧ userOperationHash (userOperation e) ∉ hashes.
Proof.
  unfold withoutHashes.
  rewrite (list_elem_of_In (List.filter _ _)), filter_In, <- list_elem_of_In.
  by rewrite negb_true_iff, bool_decide_eq_false.
Qed.

(** *** Status resolution *)

Lemma find_first {A} (p : A -> bool) (pre post : list A) (d : A) :
  p d = true → Forall (fun x => p x = false) pre → find p (pre ++ d :: post) = Some d.
Proof.
  intros Hd Hpre. induction Hpre as [|x pre Hx _ IH]; simpl.
  - by rewrite Hd.
  - by rewrite Hx.
Qed.

Lemma find_nowhere {A} (p : A -> bool) (l : list A) :
  Forall (fun x => p x = false) l → find p l = None.
Proof. intros Hl. induction Hl as [|x l Hx _ IH]; simpl; [done|]. by rewrite Hx. Qed.

Lemma resolved_hashes E ep v06 (hs : list HexData32) w details w1 :
  promiseAll (fun h => fetchBundleStatus E v06 h ep) hs w = (Ok details, w1) →
  map td_transactionHash details = hs.
Proof.
  revert w details. induction hs as [|h hs IH]; intros w details; simpl.
  - intros H. by simplify_eq.
  - unfold fetchBundleStatus at 1. run.
    destruct (getBundleStatus E _ v06 h ep) as [[st bn]|e]; simpl.
    + destruct (promiseAll _ hs _) as [[ds|e] w2] eqn:Hrest; [|done].
      intros H. simplify_eq. simpl. f_equal. by eapply IH.
    + destruct (promiseAll _ hs _) as [[ds|e'] w2]; done.
Qed.

(** **** The trace only grows *)

#[local] Instance traceGrows_preorder : PreOrder traceGrows.
Proof.
  split.
  - intros w. exists []. by rewrite app_nil_r.
  - intros w1 w2 w3 [e1 H1] [e2 H2]. exists (e1 ++ e2).
    rewrite H2, H1. by rewrite app_assoc.
Qed.

Lemma traceGrows_record ev w : traceGrows w (record ev w).
Proof. by exists [ev]. Qed.
Lemma traceGrows_setHeap h w : traceGrows w (setHeap h w).
Proof. exists []. simpl. by rewrite app_nil_r. Qed.
Lemma traceGrows_setSubmitted x w : traceGrows w (setSubmitted x w).
Proof. exists []. simpl. by rewrite app_nil_r. Qed.
#[local] Hint Resolve traceGrows_record traceGrows_setHeap traceGrows_setSubmitted : keeps.

Lemma removeSubmitted_traceGrows h : keeps traceGrows (removeSubmitted h).
Proof. unfold removeSubmitted. keeps_auto. Qed.
Lemma replaceSubmitted_traceGrows op r : keeps traceGrows (replaceSubmitted op r).
Proof. unfold replaceSubmitted. keeps_auto. Qed.
Lemma updateTx_traceGrows r f : keeps traceGrows (updateTx r f).
Proof. unfold updateTx. keeps_auto. Qed.
Lemma allocTx_traceGrows txInfo : keeps traceGrows (allocTx txInfo).
Proof. intros w. apply traceGrows_setHeap. Qed.
Lemma markWalletProcessed_traceGrows wallet : keeps traceGrows (markWalletProcessed wallet).
Proof. unfold markWalletProcessed. keeps_auto. Qed.
#[local] Hint Resolve removeSubmitted_traceGrows replaceSubmitted_traceGrows
  updateTx_traceGrows allocTx_traceGrows markWalletProcessed_traceGrows : keeps.

(** **** Which candidate is acted upon *)

Lemma replaceTransaction_traceGrows E r reason :
  keeps traceGrows (replaceTransaction E r reason).
Proof. unfold replaceTransaction, executorReplaceTransaction. keeps_auto. Qed.

Lemma onFinalized_traceGrows E r txInfo fin : keeps traceGrows (onFinalized E r txInfo fin).
Proof.
  pose proof replaceTransaction_traceGrows.
  unfold onFinalized, onIncluded, onFailed, checkFrontrun. keeps_auto.
Qed.

(** Once the statuses are resolved, [refreshTransactionStatus] reports the
    candidate that [mined ?? reverted] gives and goes on with it alone. *)
Lemma refresh_selected E ep r w txInfo details w1 fin :
  heap w !! r = Some txInfo →
  resolveStatuses E ep txInfo w = (Ok details, w1) →
  finalizedTransaction details = Some fin →
  refreshTransactionStatus E ep r w =
    onFinalized E r txInfo fin (recordAll (finalizedEvents txInfo fin) w1) ∧
  ∃ evs, trace (refreshTransactionStatus E ep r w).2 =
           trace w1 ++ finalizedEvents txInfo fin ++ evs.
Proof.
  intros Hr Hres Hfin.
  assert (refreshTransactionStatus E ep r w =
          onFinalized E r txInfo fin (recordAll (finalizedEvents txInfo fin) w1)) as Hrun.
  { unfold refreshTransactionStatus.
    rewrite (run_bind_ok _ _ _ _ _ (run_readTx r w txInfo Hr)).
    rewrite (run_bind_ok _ _ _ _ _ Hres), Hfin.
    rewrite !run_seq, run_log, run_seq, run_emit.
    unfold finalizedEvents, onFinalized. by rewrite !record_eq, recordAll_recordAll. }
  split; [exact Hrun|]. rewrite Hrun.
  destruct (onFinalized_traceGrows E r txInfo fin
              (recordAll (finalizedEvents txInfo fin) w1)) as [evs Hevs].
  exists evs. rewrite Hevs. simpl. by rewrite <- app_assoc.
Qed.

(** C7.  The candidates are the current hash followed by the previous
    hashes, and these are the hashes whose status is resolved, in this
    order.  [refreshTransactionStatus] acts upon the first candidate that
    is included, whatever the lists hold besides, a reverted candidate in
    front of it too: this candidate is the one it reports (the log line and
    the metric carry its status and its hash) and the one whose status,
    hash and block decide all it does from there on.  When no candidate is
    included, it acts in the same way upon the first reverted one.  When
    none is included or reverted, each operation is logged as pending and
    nothing but the trace has changed when the function returns. *)
Theorem status_classification (E : Env) (ep : Address) (r : TxRef) (w : World)
    (txInfo : TransactionInfo) (details : list TransactionDetail) (w1 : World) :
  heap w !! r = Some txInfo →
  resolveStatuses E ep txInfo w = (Ok details, w1) →
  txHashesToCheck txInfo = transactionHash txInfo :: previousTransactionHashes txInfo ∧
  map td_transactionHash details = txHashesToCheck txInfo ∧
  (∀ pre d post,
     details = pre ++ d :: post → isIncluded d = true →
     Forall (fun x => isIncluded x = false) pre →
     finalizedTransaction details = Some d ∧
     refreshTransactionStatus E ep r w =
       onFinalized E r txInfo d (recordAll (finalizedEvents txInfo d) w1) ∧
     ∃ evs, trace (refreshTransactionStatus E ep r w).2 =
              trace w1 ++ finalizedEvents txInfo d ++ evs) ∧
  (∀ pre d post,
     details = pre ++ d :: post → Forall (fun x => isIncluded x = false) details →
     isReverted d = true → Forall (fun x => isReverted x = false) pre →
     finalizedTransaction details = Some d ∧
     refreshTransactionStatus E ep r w =
       onFinalized E r txInfo d (recordAll (finalizedEvents txInfo d) w1) ∧
     ∃ evs, trace (refreshTransactionStatus E ep r w).2 =
              trace w1 ++ finalizedEvents txInfo d ++ evs) ∧
  (Forall (fun x => isIncluded x = false) details →
   Forall (fun x => isReverted x = false) details →
   finalizedTransaction details = None ∧
   refreshTransactionStatus E ep r w =
     (Ok tt, recordAll (map (pendingLog txInfo) (userOperationInfos txInfo)) w1) ∧
   traceOnly w (refreshTransactionStatus E ep r w).2).
Proof.
  intros Hr Hres. split; [done|]. split.
  { unfold resolveStatuses in Hres. by eapply resolved_hashes. }
  split_and!.
  - intros pre d post Hdet Hd Hpre.
    assert (finalizedTransaction details = Some d) as Hfin.
    { rewrite Hdet. unfold finalizedTransaction.
      by rewrite (find_first isIncluded pre post d Hd Hpre). }
    split; [exact Hfin|]. exact (refresh_selected E ep r w txInfo details w1 d Hr Hres Hfin).
  - intros pre d post Hdet Hnone Hd Hpre.
    assert (finalizedTransaction details = Some d) as Hfin.
    { unfold finalizedTransaction.
      rewrite (find_nowhere isIncluded details Hnone). rewrite Hdet.
      by apply find_first. }
    split; [exact Hfin|]. exact (refresh_selected E ep r w txInfo details w1 d Hr Hres Hfin).
  - intros Hni Hnr.
    assert (finalizedTransaction details = None) as Hfin.
    { unfold finalizedTransaction. rewrite (find_nowhere _ _ Hni). by apply find_nowhere. }
    assert (refreshTransactionStatus E ep r w =
            (Ok tt, recordAll (map (pendingLog txInfo) (userOperationInfos txInfo)) w1))
      as Hrun.
    { unfold refreshTransactionStatus.
      rewrite (run_bind_ok _ _ _ _ _ (run_readTx r w txInfo Hr)).
      rewrite (run_bind_ok _ _ _ _ _ Hres), Hfin.
      apply (forEach_emit (pendingLog txInfo)). }
    split; [done|]. split; [done|]. rewrite Hrun. simpl.
    pose proof (resolveStatuses_traceOnly E ep txInfo w) as Hkeep.
    rewrite Hres in Hkeep. simpl in Hkeep.
    etrans; [exact Hkeep|].
    unfold traceOnly. simpl. split_and!; try done. eauto.
Qed.

Lemma status_classification_witness :
  (∃ evs,
     trace (refreshTransactionStatus minedAndRevertedEnv ep06 0%nat world1).2 =
       [ EvGetBundleStatus true "0x7a01" ep06; EvGetBundleStatus true "0x7a00" ep06;
         EvLog lvl_info "finalizedTransaction" ["included"; "0x7a00"];
         EvMetric "userOperationsOnChain" ["included"] 2 ] ++ evs) ∧
  traceOnly world1 (refreshTransactionStatus quietEnv ep06 0%nat world1).2.
Proof.
  split.
  - destruct (status_classification minedAndRevertedEnv ep06 0%nat world1 tx1
                [ {| td_transactionHash := "0x7a01"; bundlingStatus := reverted false None;
                     td_blockNumber := Some 11 |};
                  {| td_transactionHash := "0x7a00"; bundlingStatus := included ∅;
                     td_blockNumber := Some 10 |} ]
                (resolveStatuses minedAndRevertedEnv ep06 tx1 world1).2)
      as (_ & _ & Hincluded & _); [reflexivity|vm_compute; reflexivity|].
    destruct (Hincluded
                [ {| td_transactionHash := "0x7a01"; bundlingStatus := reverted false None;
                     td_blockNumber := Some 11 |} ]
                {| td_transactionHash := "0x7a00"; bundlingStatus := included ∅;
                   td_blockNumber := Some 10 |}
                []) as (_ & _ & evs & Hevs); [reflexivity|reflexivity|repeat constructor|].
    exists evs. rewrite Hevs. reflexivity.
  - destruct (status_classification quietEnv ep06 0%nat world1 tx1
                [ {| td_transactionHash := "0x7a01"; bundlingStatus := not_found;
                     td_blockNumber := None |};
                  {| td_transactionHash := "0x7a00"; bundlingStatus := not_found;
                     td_blockNumber := None |} ]
                (resolveStatuses quietEnv ep06 tx1 world1).2)
      as (_ & _ & _ & _ & Hpending); [reflexivity|vm_compute; reflexivity|].
    destruct Hpending as (_ & _ & Honly); [repeat constructor..|]. exact Honly.
Defined.

(** *** The replacement policy *)

Lemma run_executorReplaceTransaction E r w txInfo :
  heap w !! r = Some txInfo →
  executorReplaceTransaction E r w =
    (executor_replaceTransaction E (record (EvExecutorReplaceTransaction r txInfo) w) txInfo,
     record (EvExecutorReplaceTransaction r txInfo) w).
Proof.
  intros Hr. unfold executorReplaceTransaction.
  rewrite (run_bind_ok _ _ _ _ _ (run_readTx r w txInfo Hr)). run.
  by destruct (executor_replaceTransaction E _ txInfo).
Qed.

(** Whatever the executor answers, [replaceTransaction] begins with the
    call of the executor on the object as it is now and with the metric. *)
Lemma replaceTransaction_starts E r reason w txInfo :
  heap w !! r = Some txInfo →
  ∃ rest,
    trace (replaceTransaction E r reason w).2 =
    trace w ++
      EvExecutorReplaceTransaction r txInfo ::
      replaceMetric reason
        (executor_replaceTransaction E
           (record (EvExecutorReplaceTransaction r txInfo) w) txInfo) :: rest.
Proof.
  intros Hr. unfold replaceTransaction. rewrite run_bind.
  unfold tryFinally at 1. rewrite (run_executorReplaceTransaction E r w txInfo Hr).
  set (w0 := record (EvExecutorReplaceTransaction r txInfo) w).
  destruct (executor_replaceTransaction E w0 txInfo) as [res|e] eqn:Hans.
  - match goal with
    | |- context [ (bind ?m ?f ?w') ] =>
        assert (keeps traceGrows (bind m f)) as Hk
    end.
    { keeps_auto. }
    destruct (Hk (record (replaceMetric reason (Ok res)) w0)) as [evs Hevs].
    exists evs. rewrite Hevs. simpl. by rewrite <- !app_assoc.
  - exists []. simpl. by rewrite <- !app_assoc.
Qed.

(** C3.  When the status of the transaction resolves to reverted with
    [isAA95] set, [refreshTransactionStatus] does what [replaceTransaction]
    with the reason AA95 does in a world in which the gas of the object has
    become [gas * aa95ResubmitMultiplier / 100], its nonce has grown by
    one and none of its operations is in the submitted store; the executor
    is called on the object so changed, after the removals. *)
Theorem aa95_resubmission (E : Env) (ep : Address) (r : TxRef) (w : World)
    (txInfo : TransactionInfo) (details : list TransactionDetail) (w1 : World)
    (fin : TransactionDetail) (reason : option string) :
  heap w !! r = Some txInfo →
  resolveStatuses E ep txInfo w = (Ok details, w1) →
  finalizedTransaction details = Some fin →
  bundlingStatus fin = reverted true reason →
  let w2 := aa95Prepared E r txInfo fin w1 in
  let bumped := bumpForAA95 E txInfo in
  refreshTransactionStatus E ep r w = replaceTransaction E r "AA95" w2 ∧
  heap w2 !! r = Some bumped ∧
  gas (transactionRequest bumped) =
    Z.quot (gas (transactionRequest txInfo) * aa95ResubmitMultiplier E) 100 ∧
  nonce (transactionRequest bumped) = nonce (transactionRequest txInfo) + 1 ∧
  (∀ op e, op ∈ userOperationInfos txInfo → e ∈ submitted w2 →
           userOperationHash (userOperation e) ≠ userOperationHash op) ∧
  ∃ rest,
    trace (replaceTransaction E r "AA95" w2).2 =
    trace w1 ++ finalizedEvents txInfo fin ++
      map EvMempoolRemoveSubmitted (map userOperationHash (userOperationInfos txInfo)) ++
      EvExecutorReplaceTransaction r bumped ::
      replaceMetric "AA95"
        (executor_replaceTransaction E
           (record (EvExecutorReplaceTransaction r bumped) w2) bumped) :: rest.
Proof.
  intros Hr Hres Hfin Hst w2 bumped.
  pose proof (resolveStatuses_traceOnly E ep txInfo w) as Hkeep.
  rewrite Hres in Hkeep. destruct Hkeep as (Hheap & _). simpl in Hheap.
  assert (heap w2 !! r = Some bumped) as Hr2.
  { unfold w2, aa95Prepared. simpl. rewrite Hheap, list_lookup_alter_eq, Hr. done. }
  split_and!; [|done|done|done| |].
  - unfold refreshTransactionStatus.
    rewrite (run_bind_ok _ _ _ _ _ (run_readTx r w txInfo Hr)).
    rewrite (run_bind_ok _ _ _ _ _ Hres), Hfin. rewrite !run_seq, run_log, run_seq, run_emit.
    rewrite Hst. unfold updateTx. rewrite run_seq. simpl.
    rewrite run_seq, forEach_removeSubmitted.
    unfold w2, aa95Prepared, finalizedEvents. rewrite Hst. simpl.
    by rewrite !record_eq, recordAll_recordAll.
  - intros op e Hop He Heq. unfold w2, aa95Prepared in He. simpl in He.
    apply elem_of_withoutHashes in He as [_ Hnot]. apply Hnot.
    rewrite Heq. by apply list_elem_of_fmap_2.
  - destruct (replaceTransaction_starts E r "AA95" w2 bumped Hr2) as [rest Hrest].
    exists rest. rewrite Hrest. unfold w2, aa95Prepared. simpl.
    by rewrite <- !app_assoc.
Qed.

Lemma aa95_resubmission_witness :
  gas (transactionRequest (bumpForAA95 aa95Env tx1)) = 1250 ∧
  nonce (transactionRequest (bumpForAA95 aa95Env tx1)) = 8 ∧
  (refreshTransactionStatus aa95Env ep06 0%nat world1).2.(heap) !! 0%nat =
    Some (bumpForAA95 aa95Env tx1) ∧
  (refreshTransactionStatus aa95Env ep06 0%nat world1).2.(submitted) = [].
Proof.
  destruct (aa95_resubmission aa95Env ep06 0%nat world1 tx1
              [ {| td_transactionHash := "0x7a01"; bundlingStatus := reverted true None;
                   td_blockNumber := Some 11 |};
                {| td_transactionHash := "0x7a00"; bundlingStatus := not_found;
                   td_blockNumber := None |} ]
              (resolveStatuses aa95Env ep06 tx1 world1).2
              {| td_transactionHash := "0x7a01"; bundlingStatus := reverted true None;
                 td_blockNumber := Some 11 |} None)
    as (Hrun & _ & Hgas & Hnonce & _ & _);
    [reflexivity | vm_compute; reflexivity | reflexivity | reflexivity |].
  split; [rewrite Hgas; reflexivity|]. split; [rewrite Hnonce; reflexivity|].
  rewrite Hrun. split; vm_compute; reflexivity.
Defined.

(** **** The two loops of the [replaced] case *)

Lemma forEach_replaceSubmitted (ops : list UserOperationInfo) (r : nat) (w : World) :
  forEach (fun opInfo => replaceSubmitted opInfo r) ops w =
  (Ok tt,
   setSubmitted (rebound ops r (submitted w))
     (recordAll (map (fun opInfo => EvMempoolReplaceSubmitted opInfo r) ops) w)).
Proof.
  revert w. induction ops as [|op ops IH]; intros w; simpl.
  - rewrite recordAll_nil. by destruct w.
  - unfold replaceSubmitted at 1. run. rewrite IH. simpl.
    unfold setSubmitted, recordAll. simpl. by rewrite <- app_assoc.
Qed.

Lemma forEach_removeMissing reason old new (ops : list UserOperationInfo) (w : World) :
  forEach (fun opInfo =>
             removeSubmitted (userOperationHash opInfo);;
             log lvl_warn "missing op in new tx"
               [transactionHash old; transactionHash new; reason]) ops w =
  (Ok tt,
   setSubmitted (withoutHashes (map userOperationHash ops) (submitted w))
     (recordAll (flat_map (missingEvents reason old new) ops) w)).
Proof.
  revert w. induction ops as [|op ops IH]; intros w; simpl.
  - rewrite recordAll_nil, withoutHashes_nil. by destruct w.
  - rewrite !run_seq, run_removeSubmitted, run_log, IH. simpl.
    rewrite <- (withoutHashes_cons (userOperationHash op)
                  (map userOperationHash ops) (submitted w)).
    rewrite <- (withoutHashes_cons (userOperationHash op) [] (submitted w)).
    rewrite withoutHashes_nil.
    unfold setSubmitted, recordAll. simpl. by rewrite <- !app_assoc.
Qed.

Lemma rebind_hash op r e :
  userOperationHash (userOperation (rebind op r e)) = userOperationHash (userOperation e).
Proof.
  unfold rebind, hashIs. case_bool_decide; simpl; congruence.
Qed.

Lemma rebound_hashes ops r s :
  map (fun e => userOperationHash (userOperation e)) (rebound ops r s) =
  map (fun e => userOperationHash (userOperation e)) s.
Proof.
  revert s. induction ops as [|op ops IH]; intros s; simpl; [done|].
  rewrite IH, map_map. apply map_ext. intros e. apply rebind_hash.
Qed.

(** After the loop an entry with the hash of one of the operations
    references [r]; any other entry is as it was. *)
Lemma rebound_spec ops r s e :
  e ∈ rebound ops r s →
  (userOperationHash (userOperation e) ∈ map userOperationHash ops → transactionInfo e = r) ∧
  (userOperationHash (userOperation e) ∉ map userOperationHash ops → e ∈ s).
Proof.
  revert s. induction ops as [|op ops IH]; intros s He; simpl in *.
  - split; [intros H; by apply elem_of_nil in H|done].
  - destruct (IH _ He) as [Hin Hout].
    destruct (decide (userOperationHash (userOperation e) ∈ map userOperationHash ops))
      as [Hmem|Hnot].
    + split; [auto|]. intros Hn. exfalso. apply Hn. by right.
    + specialize (Hout Hnot). apply list_elem_of_fmap in Hout as (e0 & -> & He0).
      unfold rebind, hashIs in *. case_bool_decide as Hh; simpl in *.
      * split; [done|]. intros Hn. exfalso. apply Hn. by left.
      * split; [|done]. intros [Heq|?]%elem_of_cons; [congruence|done].
Qed.

Lemma run_readTx_bind {B} (r : nat) (w : World) (txInfo : TransactionInfo)
    (f : TransactionInfo -> M B) :
  heap w !! r = Some txInfo → bind (readTx r) f w = f txInfo w.
Proof. intros H. by rewrite (run_bind_ok _ _ _ _ _ (run_readTx r w txInfo H)). Qed.

(** C5.  When the executor answers [potentially_already_included], the
    counter of the transaction grows by exactly one.  While the counter so
    reached is below 3 (the first and the second time, counting from 0)
    nothing else changes but the trace, which gains the executor call, the
    metric and one log line.  Once it has reached 3, the operations of the
    transaction leave the submitted store and the wallet of the executor
    is marked processed. *)
Theorem potentially_included_counter (E : Env) (r : nat) (reason : string) (w : World)
    (txInfo : TransactionInfo) :
  heap w !! r = Some txInfo →
  executor_replaceTransaction E (record (EvExecutorReplaceTransaction r txInfo) w) txInfo
    = Ok potentially_already_included →
  let w' := (replaceTransaction E r reason w).2 in
  let hashes := map userOperationHash (userOperationInfos txInfo) in
  (replaceTransaction E r reason w).1 = Ok tt ∧
  heap w' = <[r := countPotentialInclusion txInfo]> (heap w) ∧
  timesPotentiallyIncluded (countPotentialInclusion txInfo)
    = timesPotentiallyIncluded txInfo + 1 ∧
  processing w' = processing w ∧ outstanding w' = outstanding w ∧
  currentlyHandlingBlock w' = currentlyHandlingBlock w ∧ unWatch w' = unWatch w ∧
  (timesPotentiallyIncluded txInfo + 1 < 3 →
     submitted w' = submitted w ∧
     trace w' = trace w ++ potentiallyIncludedEvents r reason txInfo) ∧
  (3 ≤ timesPotentiallyIncluded txInfo + 1 →
     submitted w' = withoutHashes hashes (submitted w) ∧
     trace w' =
       trace w ++ potentiallyIncludedEvents r reason txInfo ++
         map EvMempoolRemoveSubmitted hashes ++
         [ EvMarkWalletProcessed (executor txInfo);
           EvLog lvl_warn
             "transaction potentially already included too many times, removing"
             [transactionHash txInfo; reason] ]).
Proof.
  intros Hr Hans w' hashes. subst w'.
  assert (alter countPotentialInclusion r (heap w)
          = <[r := countPotentialInclusion txInfo]> (heap w)) as Halter.
  { apply list_eq. intros i. destruct (decide (i = r)) as [->|Hne].
    - rewrite list_lookup_alter_eq, Hr. simpl.
      symmetry. apply list_lookup_insert_eq. by eapply lookup_lt_Some.
    - by rewrite list_lookup_alter_ne, list_lookup_insert_ne. }
  unfold replaceTransaction. rewrite run_bind. unfold tryFinally.
  rewrite (run_executorReplaceTransaction E r w txInfo Hr), Hans.
  rewrite run_readTx_bind with (txInfo := txInfo) by done.
  rewrite run_seq, run_log. unfold updateTx. rewrite run_seq. simpl.
  rewrite run_readTx_bind with (txInfo := countPotentialInclusion txInfo)
    by (simpl; by rewrite list_lookup_alter_eq, Hr).
  simpl. destruct (Z.leb_spec 3 (timesPotentiallyIncluded txInfo + 1)) as [Hge|Hlt].
  - rewrite run_seq, forEach_removeSubmitted. unfold markWalletProcessed.
    rewrite run_seq, run_emit, run_log. simpl.
    split_and!; try done; [lia|]. intros _. split; [done|].
    by rewrite <- !app_assoc.
  - simpl. split_and!; try done; [|lia].
    intros _. split; [done|]. by rewrite <- !app_assoc.
Qed.

Lemma potentially_included_counter_witness :
  submitted seenOnce = submitted world1 ∧
  submitted seenTwice = submitted world1 ∧
  submitted seenThrice = [] ∧
  heap seenThrice =
    [countPotentialInclusion (countPotentialInclusion (countPotentialInclusion tx1))].
Proof.
  destruct (potentially_included_counter quietEnv 0%nat "stuck" world1 tx1
              eq_refl eq_refl) as (_ & _ & _ & _ & _ & _ & _ & Hfirst & _).
  destruct (potentially_included_counter quietEnv 0%nat "stuck" seenOnce
              (countPotentialInclusion tx1) eq_refl eq_refl)
    as (_ & _ & _ & _ & _ & _ & _ & Hsecond & _).
  destruct (potentially_included_counter quietEnv 0%nat "stuck" seenTwice
              (countPotentialInclusion (countPotentialInclusion tx1)) eq_refl eq_refl)
    as (_ & Hheap & _ & _ & _ & _ & _ & _ & Hthird).
  destruct Hfirst as [H1 _]; [simpl; lia|].
  destruct Hsecond as [H2 _]; [simpl; lia|].
  destruct Hthird as [H3 _]; [simpl; lia|].
  split; [exact H1|]. split; [unfold seenTwice; rewrite H2; exact H1|].
  split; [unfold seenThrice; rewrite H3; reflexivity|].
  unfold seenThrice. rewrite Hheap. reflexivity.
Defined.

Lemma elem_of_matchingOps old new op :
  op ∈ matchingOps old new ↔
  op ∈ old ∧ userOperationHash op ∈ map userOperationHash new.
Proof.
  unfold matchingOps, hashIn.
  rewrite (list_elem_of_In (List.filter _ _)), filter_In, <- list_elem_of_In.
  by rewrite bool_decide_eq_true.
Qed.

Lemma elem_of_missingOps old new op :
  op ∈ missingOps old new ↔
  op ∈ old ∧ userOperationHash op ∉ map userOperationHash new.
Proof.
  unfold missingOps, hashIn.
  rewrite (list_elem_of_In (List.filter _ _)), filter_In, <- list_elem_of_In.
  by rewrite negb_true_iff, bool_decide_eq_false.
Qed.

(** C4.  When the executor answers [replaced] with a new transaction, the
    operations of the old one fall into those whose hash is among the
    hashes of the new one (matching) and the others (missing): each
    operation is in exactly one of the two.  [replaceSubmitted] is called
    for every matching operation with the new transaction, then
    [removeSubmitted] for every missing one; afterwards no entry of the
    submitted store has the hash of a missing operation, and every entry
    that had the hash of a matching operation is still there and
    references the new transaction. *)
Theorem replaced_partition (E : Env) (r : nat) (reason : string) (w : World)
    (txInfo newTxInfo : TransactionInfo) :
  heap w !! r = Some txInfo →
  executor_replaceTransaction E (record (EvExecutorReplaceTransaction r txInfo) w) txInfo
    = Ok (replaced newTxInfo) →
  let matching := matchingOps (userOperationInfos txInfo) (userOperationInfos newTxInfo) in
  let missing := missingOps (userOperationInfos txInfo) (userOperationInfos newTxInfo) in
  let newRef := length (heap w) in
  let w' := (replaceTransaction E r reason w).2 in
  let hashOf := fun e => userOperationHash (userOperation e) in
  (∀ op, op ∈ userOperationInfos txInfo ↔ op ∈ matching ∨ op ∈ missing) ∧
  (∀ op, ¬ (op ∈ matching ∧ op ∈ missing)) ∧
  (∀ op, op ∈ matching ↔
         op ∈ userOperationInfos txInfo ∧
         userOperationHash op ∈ map userOperationHash (userOperationInfos newTxInfo)) ∧
  (replaceTransaction E r reason w).1 = Ok tt ∧
  heap w' = heap w ++ [newTxInfo] ∧
  trace w' =
    trace w ++
      [EvExecutorReplaceTransaction r txInfo; replaceMetric reason (Ok (replaced newTxInfo))] ++
      map (fun op => EvMempoolReplaceSubmitted op newRef) matching ++
      flat_map (missingEvents reason txInfo newTxInfo) missing ++
      [EvLog lvl_info "replaced transaction"
         [transactionHash txInfo; transactionHash newTxInfo; reason]] ∧
  (∀ e, e ∈ submitted w' → hashOf e ∉ map userOperationHash missing) ∧
  (∀ e, e ∈ submitted w' → hashOf e ∈ map userOperationHash matching →
        transactionInfo e = newRef) ∧
  (∀ e, e ∈ submitted w → hashOf e ∈ map userOperationHash matching →
        ∃ e', e' ∈ submitted w' ∧ hashOf e' = hashOf e ∧ transactionInfo e' = newRef).
Proof.
  intros Hr Hans matching missing newRef w' hashOf.
  assert (∀ op, ¬ (op ∈ matching ∧ op ∈ missing)) as Hdisjoint.
  { intros op [H1 H2]. apply elem_of_matchingOps in H1 as [_ H1].
    apply elem_of_missingOps in H2 as [_ H2]. done. }
  assert (∀ h, h ∈ map userOperationHash matching → h ∉ map userOperationHash missing)
    as Hhashes.
  { intros h (op1 & -> & H1)%list_elem_of_fmap (op2 & Heq & H2)%list_elem_of_fmap.
    apply elem_of_matchingOps in H1 as [_ H1].
    apply elem_of_missingOps in H2 as [_ H2]. congruence. }
  assert (replaceTransaction E r reason w =
          (Ok tt,
           record (EvLog lvl_info "replaced transaction"
                     [transactionHash txInfo; transactionHash newTxInfo; reason])
             (setSubmitted
                (withoutHashes (map userOperationHash missing)
                   (rebound matching newRef (submitted w)))
                (recordAll
                   ([EvExecutorReplaceTransaction r txInfo;
                     replaceMetric reason (Ok (replaced newTxInfo))] ++
                    map (fun op => EvMempoolReplaceSubmitted op newRef) matching ++
                    flat_map (missingEvents reason txInfo newTxInfo) missing)
                   (setHeap (heap w ++ [newTxInfo]) w))))) as Hrun.
  { unfold replaceTransaction. rewrite run_bind. unfold tryFinally.
    rewrite (run_executorReplaceTransaction E r w txInfo Hr), Hans.
    rewrite run_readTx_bind with (txInfo := txInfo) by done.
    rewrite run_bind. unfold allocTx. simpl.
    rewrite run_seq, forEach_replaceSubmitted.
    rewrite run_seq, forEach_removeMissing, run_log. simpl.
    fold matching missing newRef. f_equal.
    unfold record, setSubmitted, recordAll, setHeap. simpl.
    f_equal. repeat (rewrite <- app_assoc; simpl). done. }
  subst w'. rewrite Hrun. simpl. split_and!; try done.
  - intros op. unfold matching, missing.
    rewrite elem_of_matchingOps, elem_of_missingOps.
    split.
    + intros Hop.
      destruct (decide (userOperationHash op ∈
                  map userOperationHash (userOperationInfos newTxInfo)));
        [left|right]; done.
    + intros [[Hop _]|[Hop _]]; exact Hop.
  - intros op. apply elem_of_matchingOps.
  - repeat (rewrite <- app_assoc; simpl). done.
  - intros e He. by apply elem_of_withoutHashes in He as [_ ?].
  - intros e He Hm. apply elem_of_withoutHashes in He as [He _].
    by apply (rebound_spec _ _ _ _ He).
  - intros e He Hm.
    assert (hashOf e ∈ map hashOf (rebound matching newRef (submitted w))) as Hin.
    { unfold hashOf. rewrite rebound_hashes. apply list_elem_of_fmap. by exists e. }
    apply list_elem_of_fmap in Hin as (e' & Heq & He').
    exists e'. split_and!; [|done|].
    + apply elem_of_withoutHashes. split; [done|]. fold (hashOf e').
      rewrite <- Heq. by apply Hhashes.
    + apply (rebound_spec _ _ _ _ He'). fold (hashOf e'). by rewrite <- Heq.
Qed.

Lemma replaced_partition_witness :
  matchingOps (userOperationInfos tx1) (userOperationInfos tx2) = [opInfo1] ∧
  missingOps (userOperationInfos tx1) (userOperationInfos tx2) = [opInfo2] ∧
  (replaceTransaction aa95Env 0%nat "gas_price" world1).2.(heap) = [tx1; tx2] ∧
  (∀ e, e ∈ (replaceTransaction aa95Env 0%nat "gas_price" world1).2.(submitted) →
        userOperationHash (userOperation e) ∉ map userOperationHash [opInfo2]) ∧
  ∃ e', e' ∈ (replaceTransaction aa95Env 0%nat "gas_price" world1).2.(submitted) ∧
        userOperationHash (userOperation e') = "0x01" ∧ transactionInfo e' = 1%nat.
Proof.
  destruct (replaced_partition aa95Env 0%nat "gas_price" world1 tx1 tx2 eq_refl eq_refl)
    as (_ & _ & _ & _ & Hheap & _ & Hgone & _ & Hkept).
  split; [reflexivity|]. split; [reflexivity|]. split; [exact Hheap|].
  split; [exact Hgone|].
  apply (Hkept {| userOperation := opInfo1; transactionInfo := 0%nat |}).
  - apply list_elem_of_here.
  - apply list_elem_of_here.
Defined.

(** *** The gas-price pass *)

Lemma requestsKept_record ev w : requestsKept w (record ev w).
Proof. intros r t H. eauto. Qed.
Lemma requestsKept_setSubmitted x w : requestsKept w (setSubmitted x w).
Proof. intros r t H. eauto. Qed.
Lemma requestsKept_count r w :
  requestsKept w (setHeap (alter countPotentialInclusion r (heap w)) w).
Proof.
  intros i t H. simpl. destruct (decide (r = i)) as [->|Hne].
  - exists (countPotentialInclusion t). by rewrite list_lookup_alter_eq, H.
  - exists t. by rewrite list_lookup_alter_ne.
Qed.
#[local] Hint Resolve requestsKept_record requestsKept_setSubmitted requestsKept_count : keeps.

Lemma removeSubmitted_requestsKept h : keeps requestsKept (removeSubmitted h).
Proof. unfold removeSubmitted. keeps_auto. Qed.
Lemma replaceSubmitted_requestsKept op r : keeps requestsKept (replaceSubmitted op r).
Proof. unfold replaceSubmitted. keeps_auto. Qed.
Lemma allocTx_requestsKept txInfo : keeps requestsKept (allocTx txInfo).
Proof.
  intros w r t H. simpl. exists t. split; [|done]. by apply lookup_app_l_Some.
Qed.
Lemma executorReplaceTransaction_requestsKept E r :
  keeps requestsKept (executorReplaceTransaction E r).
Proof. unfold executorReplaceTransaction. keeps_auto. Qed.
Lemma markWalletProcessed_requestsKept wallet :
  keeps requestsKept (markWalletProcessed wallet).
Proof. unfold markWalletProcessed. keeps_auto. Qed.
#[local] Hint Resolve removeSubmitted_requestsKept replaceSubmitted_requestsKept
  allocTx_requestsKept executorReplaceTransaction_requestsKept
  markWalletProcessed_requestsKept : keeps.

Lemma replaceTransaction_requestsKept E r reason :
  keeps requestsKept (replaceTransaction E r reason).
Proof. unfold replaceTransaction, updateTx. keeps_auto. Qed.

Lemma gasPriceOk_below gp txInfo :
  negb (gasPriceOk gp txInfo) =
  (maxFeePerGas (transactionRequest txInfo) <? gp_maxFeePerGas gp)
  || (maxPriorityFeePerGas (transactionRequest txInfo) <? gp_maxPriorityFeePerGas gp).
Proof.
  unfold gasPriceOk.
  destruct (Z.leb_spec (gp_maxFeePerGas gp) (maxFeePerGas (transactionRequest txInfo))),
    (Z.leb_spec (gp_maxPriorityFeePerGas gp)
       (maxPriorityFeePerGas (transactionRequest txInfo)));
    destruct (Z.ltb_spec (maxFeePerGas (transactionRequest txInfo)) (gp_maxFeePerGas gp)),
      (Z.ltb_spec (maxPriorityFeePerGas (transactionRequest txInfo))
         (gp_maxPriorityFeePerGas gp)); simpl; lia || reflexivity.
Qed.

Lemma elem_of_setFromList_acc (xs acc : list nat) (x : nat) :
  x ∈ fold_left (fun acc x => if bool_decide (x ∈ acc) then acc else acc ++ [x]) xs acc ↔
  x ∈ acc ∨ x ∈ xs.
Proof.
  revert acc. induction xs as [|y xs IH]; intros acc; simpl.
  - split; [by left|]. intros [?|H]; [done|]. by apply elem_of_nil in H.
  - rewrite IH. case_bool_decide as Hy.
    + rewrite elem_of_cons. split; [intros [?|?]; auto|].
      intros [?|[->|?]]; auto.
    + rewrite elem_of_app, !elem_of_cons.
      split; [intros [[?|[?|H]]|?]; auto; by apply elem_of_nil in H|].
      intros [?|[?|?]]; auto.
Qed.

Lemma elem_of_getTransactions (entries : list SubmittedUserOperation) (r : nat) :
  r ∈ getTransactionsFromUserOperationEntries entries ↔
  ∃ e, e ∈ entries ∧ transactionInfo e = r.
Proof.
  unfold getTransactionsFromUserOperationEntries, setFromList.
  rewrite elem_of_setFromList_acc, list_elem_of_fmap.
  split.
  - intros [H|(e & -> & He)]; [by apply elem_of_nil in H|eauto].
  - intros (e & He & <-). right. eauto.
Qed.

(** The tasks of the pass, run from a world [w] that has kept the
    transaction requests of [w0], do what [replaceTransaction] does for the
    locations whose fees were below the oracle in [w0]. *)
Lemma gasPriceTasks_run E gp (refs : list nat) (w0 w : World) :
  requestsKept w0 w →
  (∀ r, r ∈ refs → is_Some (heap w0 !! r)) →
  (promiseAll (gasPriceTask E gp) refs w).2 =
    (promiseAll (fun r => replaceTransaction E r "gas_price")
       (List.filter (feeBelow gp w0) refs) w).2 ∧
  rejection (promiseAll (gasPriceTask E gp) refs w).1 =
    rejection (promiseAll (fun r => replaceTransaction E r "gas_price")
                 (List.filter (feeBelow gp w0) refs) w).1.
Proof.
  revert w. induction refs as [|r refs IH]; intros w Hkept Halloc; [done|].
  destruct (Halloc r) as [t0 Ht0]; [by left|].
  destruct (Hkept r t0 Ht0) as (t & Ht & Hreq).
  assert (∀ r', r' ∈ refs → is_Some (heap w0 !! r')) as Halloc'.
  { intros r' Hr'. apply Halloc. by right. }
  assert (feeBelow gp w0 r = negb (gasPriceOk gp t)) as Hlow.
  { unfold feeBelow. by rewrite Ht0, gasPriceOk_below, Hreq. }
  assert (gasPriceTask E gp r w =
          if gasPriceOk gp t then (Ok tt, w) else replaceTransaction E r "gas_price" w)
    as Htask.
  { unfold gasPriceTask. rewrite (run_readTx_bind r w t _ Ht). by destruct (gasPriceOk gp t). }
  cbn [promiseAll List.filter]. rewrite Hlow, Htask.
  destruct (gasPriceOk gp t); cbn [negb promiseAll].
  - destruct (IH w Hkept Halloc') as [IH1 IH2].
    destruct (promiseAll (gasPriceTask E gp) refs w) as [rs w2].
    simpl in *. split; [done|]. by destruct rs.
  - pose proof (replaceTransaction_requestsKept E r "gas_price" w) as Hstep.
    destruct (replaceTransaction E r "gas_price" w) as [res w1]. simpl in Hstep.
    destruct (IH w1 (transitivity Hkept Hstep) Halloc') as [IH1 IH2].
    destruct (promiseAll (gasPriceTask E gp) refs w1) as [rs w2].
    destruct (promiseAll _ (List.filter _ refs) w1) as [rs' w2'].
    simpl in *. split; [done|].
    destruct res, rs, rs'; simpl in *; congruence.
Qed.

(** C2.  Let the oracle answer [gp], and let [refs] be the transactions of
    the submitted store when the pass begins, each of them an object of the
    heap.  The pass does what [replaceTransaction] with the reason
    gas_price does, in order, for those of [refs] that are in [low], and
    nothing for the others; a transaction is in [low] if and only if its
    [maxFeePerGas] is strictly below that of the oracle or its
    [maxPriorityFeePerGas] is strictly below that of the oracle.  With both
    fees at or above the oracle the task of the transaction changes
    nothing. *)
Theorem gas_price_replacement (E : Env) (w : World) (gp : GasPriceParameters) :
  getGasPrice E (record EvGetGasPrice w) = Ok gp →
  let refs := getTransactionsFromUserOperationEntries (submitted w) in
  let low := List.filter (feeBelow gp w) refs in
  let w1 := recordAll gasPriceFetched w in
  (∀ r, r ∈ refs → is_Some (heap w !! r)) →
  (∀ r, r ∈ refs ↔ ∃ e, e ∈ submitted w ∧ transactionInfo e = r) ∧
  (∀ r txInfo, r ∈ refs → heap w !! r = Some txInfo →
     (r ∈ low ↔
      maxFeePerGas (transactionRequest txInfo) < gp_maxFeePerGas gp ∨
      maxPriorityFeePerGas (transactionRequest txInfo) < gp_maxPriorityFeePerGas gp)) ∧
  (∀ r txInfo w', heap w' !! r = Some txInfo →
     gp_maxFeePerGas gp ≤ maxFeePerGas (transactionRequest txInfo) →
     gp_maxPriorityFeePerGas gp ≤ maxPriorityFeePerGas (transactionRequest txInfo) →
     gasPriceTask E gp r w' = (Ok tt, w')) ∧
  (gasPricePass E w).2 =
    (promiseAll (fun r => replaceTransaction E r "gas_price") low w1).2 ∧
  rejection (gasPricePass E w).1 =
    rejection (promiseAll (fun r => replaceTransaction E r "gas_price") low w1).1.
Proof.
  intros Hgp refs low w1 Halloc.
  assert (requestsKept w w1) as Hkept by (intros r t H; eauto).
  destruct (gasPriceTasks_run E gp refs w w1 Hkept Halloc) as [Hworld Hrej].
  assert (gasPricePass E w = (promiseAll (gasPriceTask E gp) refs;; ret tt) w1) as Hpass.
  { unfold gasPricePass, fetchGasPrice, dumpSubmittedOps. run. rewrite Hgp. run.
    by rewrite !record_eq, recordAll_recordAll. }
  split_and!.
  - intros r. apply elem_of_getTransactions.
  - intros r txInfo Hr Htx. unfold low.
    rewrite (list_elem_of_In (List.filter _ _)), filter_In, <- list_elem_of_In.
    unfold feeBelow. rewrite Htx, orb_true_iff, !Z.ltb_lt. tauto.
  - intros r txInfo w' Htx Hfee Hprio. unfold gasPriceTask.
    rewrite (run_readTx_bind r w' txInfo _ Htx). unfold gasPriceOk.
    destruct (Z.leb_spec (gp_maxFeePerGas gp) (maxFeePerGas (transactionRequest txInfo)));
      [|lia].
    destruct (Z.leb_spec (gp_maxPriorityFeePerGas gp)
                (maxPriorityFeePerGas (transactionRequest txInfo))); [|lia].
    done.
  - rewrite Hpass, run_seq.
    destruct (promiseAll (gasPriceTask E gp) refs w1) as [[rs|e] w2]; simpl in *; done.
  - rewrite Hpass, run_seq.
    destruct (promiseAll (gasPriceTask E gp) refs w1) as [[rs|e] w2]; simpl in *; done.
Qed.

Lemma gas_price_replacement_witness :
  0%nat ∈ List.filter
            (feeBelow {| gp_maxFeePerGas := 11; gp_maxPriorityFeePerGas := 2 |} world1)
            (getTransactionsFromUserOperationEntries (submitted world1)) ∧
  (gasPricePass risingEnv world1).2 =
    (replaceTransaction risingEnv 0%nat "gas_price" (recordAll gasPriceFetched world1)).2 ∧
  (gasPricePass quietEnv world1).2 = recordAll gasPriceFetched world1.
Proof.
  assert (∀ r, r ∈ getTransactionsFromUserOperationEntries (submitted world1) →
               is_Some (heap world1 !! r)) as Halloc.
  { intros r Hr.
    change (getTransactionsFromUserOperationEntries (submitted world1)) with [0%nat] in Hr.
    apply list_elem_of_singleton in Hr. subst r. eexists. reflexivity. }
  destruct (gas_price_replacement risingEnv world1
              {| gp_maxFeePerGas := 11; gp_maxPriorityFeePerGas := 2 |} eq_refl Halloc)
    as (_ & Hiff & _ & Hrun & _).
  destruct (gas_price_replacement quietEnv world1
              {| gp_maxFeePerGas := 10; gp_maxPriorityFeePerGas := 2 |} eq_refl Halloc)
    as (_ & _ & _ & Hquiet & _).
  split; [|split].
  - apply (Hiff 0%nat tx1); [apply list_elem_of_here|reflexivity|]. left. simpl. lia.
  - rewrite Hrun. vm_compute. reflexivity.
  - rewrite Hquiet. reflexivity.
Defined.

(** *** Bundling *)

Lemma markSubmitted_heapKept h r : keeps heapKept (markSubmitted h r).
Proof.
  unfold markSubmitted. keeps_auto; [done|]. unfold heapKept.
  by destruct (find _ (processing _)).
Qed.
Lemma removeProcessing_heapKept h : keeps heapKept (removeProcessing h).
Proof. unfold removeProcessing. keeps_auto; done. Qed.
Lemma mempoolAdd_heapKept op ep : keeps heapKept (mempoolAdd op ep).
Proof. unfold mempoolAdd. keeps_auto; done. Qed.
Lemma startWatchingBlocks_heapKept : keeps heapKept startWatchingBlocks.
Proof. unfold startWatchingBlocks. keeps_auto; done. Qed.
Lemma emit_heapKept ev : keeps heapKept (emit ev).
Proof. keeps_auto; done. Qed.
Lemma log_heapKept l m f : keeps heapKept (log l m f).
Proof. keeps_auto; done. Qed.
#[local] Hint Resolve markSubmitted_heapKept removeProcessing_heapKept mempoolAdd_heapKept
  startWatchingBlocks_heapKept emit_heapKept log_heapKept : keeps.

Lemma handleResult_heapKept E acc result : keeps heapKept (handleResult E acc result).
Proof. unfold handleResult. keeps_auto. Qed.

Lemma markSubmitted_outstandingGrows h r : keeps outstandingGrows (markSubmitted h r).
Proof.
  unfold markSubmitted. keeps_auto.
  - exists []. simpl. by rewrite app_nil_r.
  - exists []. destruct (find _ (processing _)); simpl; by rewrite app_nil_r.
Qed.
Lemma removeProcessing_outstandingGrows h : keeps outstandingGrows (removeProcessing h).
Proof. unfold removeProcessing. keeps_auto; exists []; simpl; by rewrite app_nil_r. Qed.
Lemma mempoolAdd_outstandingGrows op ep : keeps outstandingGrows (mempoolAdd op ep).
Proof.
  unfold mempoolAdd. keeps_auto.
  - exists []. simpl. by rewrite app_nil_r.
  - by exists [(op, ep)].
Qed.
Lemma startWatchingBlocks_outstandingGrows : keeps outstandingGrows startWatchingBlocks.
Proof. unfold startWatchingBlocks. keeps_auto; exists []; simpl; by rewrite app_nil_r. Qed.
Lemma emit_outstandingGrows ev : keeps outstandingGrows (emit ev).
Proof. keeps_auto. exists []. simpl. by rewrite app_nil_r. Qed.
Lemma log_outstandingGrows l m f : keeps outstandingGrows (log l m f).
Proof. keeps_auto. exists []. simpl. by rewrite app_nil_r. Qed.
#[local] Hint Resolve markSubmitted_outstandingGrows removeProcessing_outstandingGrows
  mempoolAdd_outstandingGrows startWatchingBlocks_outstandingGrows
  emit_outstandingGrows log_outstandingGrows : keeps.

Lemma handleResult_outstandingGrows E acc result :
  keeps outstandingGrows (handleResult E acc result).
Proof. unfold handleResult. keeps_auto. Qed.

Lemma handleResults_outstandingGrows E acc results :
  keeps outstandingGrows (handleResults E acc results).
Proof.
  revert acc. induction results as [|result results IH]; intros acc; simpl.
  - apply keeps_ret; apply _.
  - apply keeps_bind; [apply _|apply handleResult_outstandingGrows|auto].
Qed.

(** What [handleResult] returns for a result with the status success. *)
Lemma handleResult_success E acc u t w txInfo :
  heap w !! t = Some txInfo →
  (handleResult E acc (success u t) w).1 = Ok (Some (transactionHash txInfo)).
Proof.
  intros Ht. simpl. rewrite run_seq.
  pose proof (markSubmitted_heapKept (userOperationHash u) t w) as Hk.
  destruct (markSubmitted (userOperationHash u) t w) as [[[]|e] w1] eqn:Hm.
  - unfold heapKept in Hk. simpl in Hk.
    rewrite (run_readTx_bind t w1 txInfo) by (by rewrite Hk).
    rewrite run_seq, run_emit, run_seq.
    destruct (startWatchingBlocks _) as [[[]|e] w2] eqn:Hs; [by run|].
    unfold startWatchingBlocks in Hs. revert Hs. run.
    by destruct (unWatch _).
  - unfold markSubmitted in Hm. revert Hm. by run.
Qed.

Lemma handleResult_other E acc result w :
  isSuccess result = false → (handleResult E acc result w).1 = Ok acc.
Proof. destruct result; [done|intros _; by run..]. Qed.

Lemma last_cons_default {A} (x : A) (l : list A) :
  last (x :: l) = Some (default x (last l)).
Proof.
  revert x. induction l as [|y l IH]; intros x; [done|].
  change (last (x :: y :: l)) with (last (y :: l)). rewrite IH. simpl.
  by destruct (last l).
Qed.

(** [handleResults] returns the hash of the transaction of the last
    success, and the value it started with when there is none. *)
Lemma handleResults_returns E (results : list BundleResult) (w : World)
    (acc : option string) :
  (∀ u t, success u t ∈ results → is_Some (heap w !! t)) →
  (handleResults E acc results w).1 =
    Ok (match lastSuccess results with
        | Some t => hashOfRef w t
        | None => acc
        end).
Proof.
  revert w acc. induction results as [|result results IH]; intros w acc Halloc; [done|].
  simpl. rewrite run_bind.
  pose proof (handleResult_heapKept E acc result w) as Hk. unfold heapKept in Hk.
  assert (∀ u t, success u t ∈ results →
                 is_Some (heap (handleResult E acc result w).2 !! t)) as Halloc'.
  { intros u t Hin. rewrite Hk. eapply Halloc. by right. }
  destruct result as [u t|h reason op|h op ep reason].
  - destruct (Halloc u t) as [txInfo Ht]; [by left|].
    pose proof (handleResult_success E acc u t w txInfo Ht) as Hres.
    destruct (handleResult E acc (success u t) w) as [r1 w1]. simpl in *. subst r1.
    rewrite (IH w1 _ Halloc'). unfold lastSuccess, hashOfRef.
    change (omap successRef (success u t :: results)) with (t :: omap successRef results).
    rewrite last_cons_default.
    destruct (last (omap successRef results)) as [t'|]; simpl.
    + by rewrite Hk.
    + by rewrite Ht.
  - pose proof (handleResult_other E acc (failure h reason op) w eq_refl) as Hres.
    destruct (handleResult E acc _ w) as [r1 w1]. simpl in *. subst r1.
    rewrite (IH w1 _ Halloc'). unfold lastSuccess, hashOfRef.
    change (omap successRef (_ :: results)) with (omap successRef results).
    destruct (last (omap successRef results)); by rewrite ?Hk.
  - pose proof (handleResult_other E acc (resubmit h op ep reason) w eq_refl) as Hres.
    destruct (handleResult E acc _ w) as [r1 w1]. simpl in *. subst r1.
    rewrite (IH w1 _ Halloc'). unfold lastSuccess, hashOfRef.
    change (omap successRef (_ :: results)) with (omap successRef results).
    destruct (last (omap successRef results)); by rewrite ?Hk.
Qed.

Lemma forEach_bundleMetric (bundles : list (list BundleResult)) (w : World) :
  forEach bundleMetric bundles w = (Ok tt, recordAll (map bundleMetricEvent bundles) w).
Proof.
  revert w. induction bundles as [|b bundles IH]; intros w; simpl.
  - by rewrite recordAll_nil.
  - rewrite run_seq.
    assert (bundleMetric b w = (Ok tt, record (bundleMetricEvent b) w)) as ->.
    { unfold bundleMetric, bundleMetricEvent. by destruct (forallb isSuccess b). }
    by rewrite IH, record_eq, recordAll_recordAll.
Qed.

(** After the calls of the executor, [sendToExecutor] reports and then
    handles the results one by one. *)
Lemma sendToExecutor_run E ep mops w bundles w1 :
  callExecutor E ep mops w = (Ok bundles, w1) →
  ∃ evs, sendToExecutor E ep mops w =
         handleResults E None (concat bundles) (recordAll evs w1).
Proof.
  intros Hcall. unfold sendToExecutor.
  rewrite (run_bind_ok _ _ _ _ _ Hcall), run_seq, forEach_bundleMetric, run_seq.
  destruct (0 <? _).
  - rewrite run_seq, run_log, run_emit, !record_eq, !recordAll_recordAll. eauto.
  - simpl. eauto.
Qed.

Lemma callExecutor_throw E ep mops w e w1 :
  callExecutor E ep mops w = (Throw e, w1) → sendToExecutor E ep mops w = (Throw e, w1).
Proof. intros Hcall. unfold sendToExecutor. by rewrite run_bind, Hcall. Qed.

Lemma handleResults_no_success E acc (results : list BundleResult) (w : World) :
  Forall (fun r => isSuccess r = false) results →
  (handleResults E acc results w).1 = Ok acc.
Proof.
  intros Hall. revert w. induction Hall as [|result results Hr _ IH]; intros w; [done|].
  simpl. rewrite run_bind.
  pose proof (handleResult_other E acc result w Hr) as Hres.
  destruct (handleResult E acc result w) as [r1 w1]. simpl in Hres. subst r1. apply IH.
Qed.

(** An operation handed back for another round is in the mempool again
    when all results have been handled. *)
Lemma handleResults_requeues E acc (results : list BundleResult) (w : World)
    h op ep reason :
  Forall (fun r => isSuccess r = false) results →
  resubmit h op ep reason ∈ results →
  (op, ep) ∈ outstanding (handleResults E acc results w).2.
Proof.
  intros Hall. revert w. induction Hall as [|result results Hr _ IH]; intros w Hin.
  - by apply elem_of_nil in Hin.
  - simpl. rewrite run_bind.
    pose proof (handleResult_other E acc result w Hr) as Hres.
    apply elem_of_cons in Hin as [<-|Hin].
    + pose proof (handleResults_outstandingGrows E acc results
                    (handleResult E acc (resubmit h op ep reason) w).2) as [more Hmore].
      destruct (handleResult E acc (resubmit h op ep reason) w) as [r1 w1] eqn:Hone.
      simpl in *. subst r1. rewrite Hmore.
      assert (outstanding w1 = outstanding w ++ [(op, ep)]) as ->.
      { revert Hone. unfold mempoolAdd, removeProcessing. run. intros H. by simplify_eq. }
      rewrite !elem_of_app, list_elem_of_singleton. auto.
    + destruct (handleResult E acc result w) as [r1 w1]. simpl in Hres. subst r1.
      by apply IH.
Qed.

Lemma promiseAll_app {A B} (f : A -> M B) (pre post : list A) (w : World) :
  promiseAll f (pre ++ post) w =
  let '(r1, w1) := promiseAll f pre w in
  let '(r2, w2) := promiseAll f post w1 in
  (match r1, r2 with
   | Throw e, _ => Throw e
   | Ok _, Throw e => Throw e
   | Ok bs1, Ok bs2 => Ok (bs1 ++ bs2)
   end, w2).
Proof.
  revert w. induction pre as [|x pre IH]; intros w; simpl.
  - destruct (promiseAll f post w) as [[bs|e] w2]; done.
  - destruct (f x w) as [r w1]. rewrite IH.
    destruct (promiseAll f pre w1) as [r1 w2].
    destruct (promiseAll f post w2) as [r2 w3].
    destruct r, r1, r2; done.
Qed.

(** A task that rejects makes the whole [Promise.all] reject, with its
    own error unless an earlier task has rejected. *)
Lemma promiseAll_rejects {A B} (f : A -> M B) (pre post : list A) (x : A) (w : World) e :
  (f x (promiseAll f pre w).2).1 = Throw e →
  is_throw (promiseAll f (pre ++ x :: post) w).1 = true ∧
  (rejection (promiseAll f pre w).1 = None →
   (promiseAll f (pre ++ x :: post) w).1 = Throw e).
Proof.
  intros Hx. rewrite promiseAll_app.
  destruct (promiseAll f pre w) as [r1 w1]. simpl in *.
  destruct (f x w1) as [r w2]. simpl in Hx. subst r.
  destruct (promiseAll f post w2) as [r2 w3].
  destruct r1; simpl; [|done]. split; [done|]. done.
Qed.

Lemma promiseAll_ext {A B} (f g : A -> M B) (xs : list A) (w : World) :
  (∀ x w', x ∈ xs → f x w' = g x w') → promiseAll f xs w = promiseAll g xs w.
Proof.
  revert w. induction xs as [|x xs IH]; intros w Hfg; [done|].
  simpl. rewrite (Hfg x w) by (by left).
  destruct (g x w) as [r w1]. rewrite IH; [done|].
  intros y w' Hy. apply Hfg. by right.
Qed.

Lemma bundleNow_run E w :
  mempool_process E w (maxGasLimitPerBundle E) 1 ≠ [] →
  bundleNow E w =
    bundleNowDispatch E (mempool_process E w (maxGasLimitPerBundle E) 1)
      (mempoolProcess E (maxGasLimitPerBundle E) 1 w).2.
Proof.
  intros Hne. unfold bundleNow, mempoolProcess. rewrite run_bind. simpl.
  by destruct (mempool_process E w (maxGasLimitPerBundle E) 1).
Qed.



(** **** Dispatch by entry point *)

Lemma groupBy_step_lookup {A B} (key : A -> string) (val : A -> B) (op : A)
    (m : gmap string (list B)) (k : string) :
  alter (fun l => l ++ [val op]) (key op)
    (match m !! key op with Some _ => m | None => <[key op := []]> m end) !! k =
  if bool_decide (key op = k) then Some (default [] (m !! k) ++ [val op]) else m !! k.
Proof.
  case_bool_decide as Hk.
  - subst k. rewrite lookup_alter_eq. destruct (m !! key op) as [l|] eqn:Hm.
    + by rewrite Hm.
    + by rewrite lookup_insert_eq.
  - rewrite lookup_alter_ne by done. destruct (m !! key op); [done|].
    by rewrite lookup_insert_ne.
Qed.

Lemma groupBy_lookup_acc {A B} (key : A -> string) (val : A -> B) (ops : list A)
    (m : gmap string (list B)) (k : string) :
  fold_left
    (fun m op =>
       let m1 := match m !! key op with Some _ => m | None => <[key op := []]> m end in
       alter (fun l => l ++ [val op]) (key op) m1) ops m !! k =
  match opsFor key k ops with
  | [] => m !! k
  | sel => Some (default [] (m !! k) ++ map val sel)
  end.
Proof.
  revert m. induction ops as [|op ops IH]; intros m; [done|].
  cbn [fold_left]. rewrite IH. cbv zeta. rewrite groupBy_step_lookup.
  unfold opsFor. cbn [List.filter]. case_bool_decide as Hk.
  - simpl. destruct (List.filter _ ops) as [|x sel]; [done|].
    simpl. by rewrite <- app_assoc.
  - done.
Qed.

(** What [opEntryPointMap.get(ep)] holds: the payloads of the operations
    of the batch whose entry point is [ep], and nothing when there is no
    such operation. *)
Lemma groupBy_lookup {A B} (key : A -> string) (val : A -> B) (ops : list A) (k : string) :
  groupByEntryPoint key val ops !! k =
  match opsFor key k ops with
  | [] => None
  | sel => Some (map val sel)
  end.
Proof.
  unfold groupByEntryPoint. rewrite groupBy_lookup_acc, lookup_empty.
  by destruct (opsFor key k ops).
Qed.

Lemma opsFor_configured E (ep : string) (ops : list UserOperationInfo) :
  ep ∈ entryPoints E →
  opsFor entryPoint ep (List.filter (configured E) ops) = opsFor entryPoint ep ops.
Proof.
  intros Hep. unfold opsFor. induction ops as [|op ops IH]; [done|].
  cbn [List.filter]. unfold configured at 1.
  destruct (decide (entryPoint op = ep)) as [Heq|Hne].
  - rewrite bool_decide_true by (by rewrite Heq). cbn [List.filter].
    rewrite (bool_decide_true _ Heq). by rewrite IH.
  - rewrite (bool_decide_false _ Hne). case_bool_decide; [|done].
    cbn [List.filter]. by rewrite (bool_decide_false _ Hne).
Qed.

Lemma groupBy_configured E (ep : string) (ops : list UserOperationInfo) :
  ep ∈ entryPoints E →
  groupByEntryPoint entryPoint mempoolUserOperation (List.filter (configured E) ops) !! ep =
  groupByEntryPoint entryPoint mempoolUserOperation ops !! ep.
Proof. intros Hep. by rewrite !groupBy_lookup, opsFor_configured. Qed.

Lemma bundleBatch_configured E (ops : list UserOperationInfo) (w : World) :
  bundleBatch E (List.filter (configured E) ops) w = bundleBatch E ops w.
Proof.
  unfold bundleBatch. rewrite !run_seq.
  rewrite (promiseAll_ext
             (bundleEntryPoint E (groupByEntryPoint entryPoint mempoolUserOperation
                                    (List.filter (configured E) ops)))
             (bundleEntryPoint E (groupByEntryPoint entryPoint mempoolUserOperation ops)));
    [done|].
  intros ep w' Hep. unfold bundleEntryPoint. by rewrite groupBy_configured.
Qed.

(** **** What stays in the processing store *)

#[local] Instance processingKept_preorder h : PreOrder (processingKept h).
Proof.
  split.
  - intros w op H _. done.
  - intros w1 w2 w3 H12 H23 op H Hh. apply H23; [|done]. by apply H12.
Qed.

Lemma processingKept_same h w w' : processing w' = processing w → processingKept h w w'.
Proof. intros Heq op H _. by rewrite Heq. Qed.

Lemma processingKept_filter h h' w :
  h' ≠ h →
  processingKept h w (setProcessing (List.filter (otherHash h') (processing w)) w).
Proof.
  intros Hne op Hop Hh. simpl. apply list_elem_of_In, filter_In.
  split; [by apply list_elem_of_In|].
  apply negb_true_iff, bool_decide_eq_false. congruence.
Qed.

Lemma emit_processingKept h ev : keeps (processingKept h) (emit ev).
Proof. keeps_auto. by apply processingKept_same. Qed.
Lemma log_processingKept h l m f : keeps (processingKept h) (log l m f).
Proof. keeps_auto. by apply processingKept_same. Qed.
Lemma mempoolAdd_processingKept h op ep : keeps (processingKept h) (mempoolAdd op ep).
Proof. unfold mempoolAdd. keeps_auto; by apply processingKept_same. Qed.
Lemma startWatchingBlocks_processingKept h : keeps (processingKept h) startWatchingBlocks.
Proof. unfold startWatchingBlocks. keeps_auto; by apply processingKept_same. Qed.
Lemma removeProcessing_processingKept h h' :
  h' ≠ h → keeps (processingKept h) (removeProcessing h').
Proof.
  intros Hne. unfold removeProcessing. keeps_auto.
  - by apply processingKept_same.
  - by apply processingKept_filter.
Qed.
Lemma markSubmitted_processingKept h h' r :
  h' ≠ h → keeps (processingKept h) (markSubmitted h' r).
Proof.
  intros Hne. unfold markSubmitted. keeps_auto.
  - by apply processingKept_same.
  - destruct (find _ (processing _)); [|done].
    intros op Hop Hh. by apply (processingKept_filter h h' _ Hne).
Qed.
#[local] Hint Resolve emit_processingKept log_processingKept mempoolAdd_processingKept
  startWatchingBlocks_processingKept : keeps.

Lemma handleResult_processingKept E h acc result :
  resultHash result ≠ h → keeps (processingKept h) (handleResult E acc result).
Proof.
  intros Hne. destruct result; simpl in *; keeps_auto;
    by (apply markSubmitted_processingKept || apply removeProcessing_processingKept).
Qed.

Lemma handleResults_processingKept E h acc results :
  Forall (fun result => resultHash result ≠ h) results →
  keeps (processingKept h) (handleResults E acc results).
Proof.
  intros Hall. revert acc. induction Hall as [|result results Hr _ IH]; intros acc; simpl.
  - keeps_auto.
  - keeps_step; [by apply handleResult_processingKept|apply IH].
Qed.

Lemma placeCreated_named h reply w rs w1 :
  (∀ r, reply = Ok r → Forall (fun result => resultHash result ≠ h) (results r)) →
  placeCreated reply w = (Ok rs, w1) →
  Forall (fun result => resultHash result ≠ h) rs.
Proof.
  intros Hnames. destruct reply as [r|e]; simpl; [|done].
  run. intros H. simplify_eq. by apply Hnames.
Qed.

Lemma executorBundle_named E h ep ops w rs w1 :
  neverNames E h → executorBundle E ep ops w = (Ok rs, w1) →
  Forall (fun result => resultHash result ≠ h) rs.
Proof.
  intros [Hplain _]. unfold executorBundle. rewrite run_seq, run_emit, run_bind. cbn [gets].
  apply placeCreated_named. intros r Hr. by eapply Hplain.
Qed.

Lemma executorBundleCompressed_named E h ep ops w rs w1 :
  neverNames E h → executorBundleCompressed E ep ops w = (Ok rs, w1) →
  Forall (fun result => resultHash result ≠ h) rs.
Proof.
  intros [_ Hcompressed]. unfold executorBundleCompressed.
  rewrite run_seq, run_emit, run_bind. cbn [gets].
  apply placeCreated_named. intros r Hr. by eapply Hcompressed.
Qed.

(** What the executor hands back never speaks of [h]. *)
Lemma callExecutor_named E h ep mops w bundles w1 :
  neverNames E h →
  callExecutor E ep mops w = (Ok bundles, w1) →
  Forall (fun result => resultHash result ≠ h) (concat bundles).
Proof.
  intros Hnames. unfold callExecutor. cbv zeta. rewrite run_bind.
  assert (∀ (b : bool) (m : M (list BundleResult)) wa bs wb,
            (∀ rs wc, m wa = (Ok rs, wc) →
                      Forall (fun result => resultHash result ≠ h) rs) →
            (if b then (x <-- m; ret [x]) else ret []) wa = (Ok bs, wb) →
            Forall (fun result => resultHash result ≠ h) (concat bs)) as Hone.
  { intros [] m wa bs wb Hm; [|run; intros H; simplify_eq; constructor].
    rewrite run_bind. destruct (m wa) as [[rs|e] wc] eqn:Hrun; [|done].
    run. intros H. simplify_eq. simpl. rewrite app_nil_r. by eapply Hm. }
  lazymatch goal with
  | |- match ?x with _ => _ end = _ → _ => destruct x as [[b1|e] wa] eqn:H1; [|done]
  end.
  rewrite run_bind.
  lazymatch goal with
  | |- match ?x with _ => _ end = _ → _ => destruct x as [[b2|e] wb] eqn:H2; [|done]
  end.
  run. intros H. simplify_eq. rewrite concat_app. apply Forall_app. split.
  - eapply Hone; [|exact H1]. intros rs wc. by apply executorBundle_named.
  - eapply Hone; [|exact H2]. intros rs wc. by apply executorBundleCompressed_named.
Qed.

Lemma callExecutor_processingKept E h ep mops :
  keeps (processingKept h) (callExecutor E ep mops).
Proof.
  unfold callExecutor, executorBundle, executorBundleCompressed, placeCreated.
  keeps_auto; by apply processingKept_same.
Qed.

Lemma sendToExecutor_processingKept E h ep mops :
  neverNames E h → keeps (processingKept h) (sendToExecutor E ep mops).
Proof.
  intros Hnames w.
  pose proof (callExecutor_processingKept E h ep mops w) as Hcalls.
  destruct (callExecutor E ep mops w) as [[bundles|e] w1] eqn:Hcall; simpl in Hcalls.
  - pose proof (callExecutor_named E h ep mops w bundles w1 Hnames Hcall) as Hall.
    destruct (sendToExecutor_run E ep mops w bundles w1 Hcall) as [evs ->].
    etrans; [exact Hcalls|].
    etrans; [|by apply handleResults_processingKept].
    by apply processingKept_same.
  - by rewrite (callExecutor_throw E ep mops w e w1 Hcall).
Qed.

Lemma bundleNowDispatch_processingKept E h ops :
  neverNames E h → keeps (processingKept h) (bundleNowDispatch E ops).
Proof.
  intros Hnames. unfold bundleNowDispatch, bundleNowEntryPoint, noOpsWarning.
  keeps_auto. by apply sendToExecutor_processingKept.
Qed.

Lemma bundleDispatch_processingKept E h opsToBundle :
  neverNames E h → keeps (processingKept h) (bundleDispatch E opsToBundle).
Proof.
  intros Hnames. unfold bundleDispatch, bundleBatch, bundleEntryPoint, noOpsWarning.
  keeps_auto. by apply sendToExecutor_processingKept.
Qed.



(** *** The block handler *)

Lemma handleBlockEnter_in_flight (block : Block) (w : World) :
  currentlyHandlingBlock w = false → submitted w ≠ [] →
  handleBlockEnter block w =
    (Ok InFlight,
     record (EvLog lvl_debug "handling block" []) (setCurrentlyHandlingBlock true w)).
Proof.
  intros Hflag Hsub. unfold handleBlockEnter, dumpSubmittedOps. run. rewrite Hflag. run.
  destruct (submitted w); done.
Qed.

Lemma handleBlockResume_ok_clears E w :
  (handleBlockResume E w).1 = Ok tt →
  currentlyHandlingBlock (handleBlockResume E w).2 = false.
Proof.
  unfold handleBlockResume. rewrite !run_seq.
  destruct (refreshUserOperationStatuses E w) as [[[]|e] w1]; [|done].
  rewrite run_seq.
  destruct (gasPricePass E w1) as [[[]|e] w2]; [|done].
  rewrite run_seq.
  destruct (stuckPass E w2) as [[[]|e] w3]; done.
Qed.

(** A tick that could not finish leaves the flag set. *)
Lemma handleBlockResume_throw_keeps_flag E w e :
  (handleBlockResume E w).1 = Throw e →
  currentlyHandlingBlock (handleBlockResume E w).2 = currentlyHandlingBlock w.
Proof.
  unfold handleBlockResume. rewrite !run_seq.
  pose proof (refreshUserOperationStatuses_flagKept E w) as H1.
  destruct (refreshUserOperationStatuses E w) as [[[]|e1] w1]; simpl in H1; [|done].
  rewrite run_seq.
  pose proof (gasPricePass_flagKept E w1) as H2.
  destruct (gasPricePass E w1) as [[[]|e2] w2]; simpl in H2;
    [|intros _; unfold flagKept in *; simpl; congruence].
  rewrite run_seq.
  pose proof (stuckPass_flagKept E w2) as H3.
  destruct (stuckPass E w2) as [[[]|e3] w3]; simpl in H3; [done|].
  intros _. unfold flagKept in *. simpl. congruence.
Qed.

(** The flag through a tick.  A call of [handleBlock] that finds the flag
    set returns at once and changes nothing.  With the flag clear and
    nothing submitted, the call returns normally, unsubscribed and with the
    flag clear.  With the flag clear and something submitted, the flag is
    set before the first [await] and none of the awaited steps clears it,
    so that a notification arriving while the tick is in flight is
    coalesced; when the tick returns normally the flag is clear again.
    There is no handler around the awaited steps (the status refresh, the
    gas-price pass with its oracle call, the stuck pass): what one of them
    raises, [handleBlock] raises. *)
Theorem handleBlock_single_flight (E : Env) (block : Block) (w : World) :
  (currentlyHandlingBlock w = true → handleBlock E block w = (Ok tt, w)) ∧
  (currentlyHandlingBlock w = false → submitted w = [] →
     (handleBlock E block w).1 = Ok tt ∧
     currentlyHandlingBlock (handleBlock E block w).2 = false ∧
     unWatch (handleBlock E block w).2 = false) ∧
  (currentlyHandlingBlock w = false → submitted w ≠ [] →
     ∃ w1,
       handleBlockEnter block w = (Ok InFlight, w1) ∧
       currentlyHandlingBlock w1 = true ∧
       handleBlock E block w1 = (Ok tt, w1) ∧
       handleBlock E block w = handleBlockResume E w1 ∧
       (∀ w2, currentlyHandlingBlock w2 = true →
              currentlyHandlingBlock (refreshUserOperationStatuses E w2).2 = true ∧
              currentlyHandlingBlock (gasPricePass E w2).2 = true ∧
              currentlyHandlingBlock (stuckPass E w2).2 = true) ∧
       ((handleBlock E block w).1 = Ok tt →
        currentlyHandlingBlock (handleBlock E block w).2 = false) ∧
       (∀ e, (refreshUserOperationStatuses E w1).1 = Throw e →
             (handleBlock E block w).1 = Throw e) ∧
       (∀ w2 e, refreshUserOperationStatuses E w1 = (Ok tt, w2) →
                (getGasPrice E (record EvGetGasPrice w2) = Throw e ∨
                 (gasPricePass E w2).1 = Throw e) →
                (handleBlock E block w).1 = Throw e) ∧
       (∀ w2 w3 e, refreshUserOperationStatuses E w1 = (Ok tt, w2) →
                   gasPricePass E w2 = (Ok tt, w3) →
                   (stuckPass E w3).1 = Throw e →
                   (handleBlock E block w).1 = Throw e)).
Proof.
  split_and!.
  - intros Hflag. unfold handleBlock, handleBlockEnter. run. by rewrite Hflag.
  - intros Hflag Hsub. unfold handleBlock, handleBlockEnter, dumpSubmittedOps,
      stopWatchingBlocks. run. rewrite Hflag. run. rewrite Hsub. simpl.
    destruct (unWatch w) eqn:Hw; run; rewrite ?Hw; done.
  - intros Hflag Hsub. eexists.
    split; [by apply handleBlockEnter_in_flight|].
    assert (handleBlock E block w =
            handleBlockResume E
              (record (EvLog lvl_debug "handling block" [])
                 (setCurrentlyHandlingBlock true w))) as Hrun.
    { unfold handleBlock. by rewrite (run_bind_ok _ _ _ _ _
        (handleBlockEnter_in_flight block w Hflag Hsub)). }
    split; [done|]. split.
    { unfold handleBlock, handleBlockEnter. run. done. }
    split; [done|]. split.
    { intros w2 Hw2.
      pose proof (refreshUserOperationStatuses_flagKept E w2) as H1.
      pose proof (gasPricePass_flagKept E w2) as H2.
      pose proof (stuckPass_flagKept E w2) as H3.
      unfold flagKept in *. by rewrite H1, H2, H3. }
    rewrite Hrun. split; [apply handleBlockResume_ok_clears|].
    split_and!.
    + intros e He. unfold handleBlockResume. rewrite run_seq.
      destruct (refreshUserOperationStatuses E _) as [[[]|e'] w2]; simpl in *; congruence.
    + intros w2 e Hr Hg. unfold handleBlockResume.
      rewrite (run_seq_ok _ _ _ _ _ Hr), run_seq.
      assert ((gasPricePass E w2).1 = Throw e) as Hpass.
      { destruct Hg as [Hg|Hg]; [|done].
        unfold gasPricePass, fetchGasPrice. run. by rewrite Hg. }
      destruct (gasPricePass E w2) as [[[]|e'] w3]; simpl in *; congruence.
    + intros w2 w3 e Hr Hg Hs. unfold handleBlockResume.
      rewrite (run_seq_ok _ _ _ _ _ Hr), (run_seq_ok _ _ _ _ _ Hg), run_seq.
      destruct (stuckPass E w3) as [[[]|e'] w4]; simpl in *; congruence.
Qed.

Lemma handleBlock_single_flight_witness :
  (handleBlock quietEnv block12 idleWorld).1 = Ok tt ∧
  currentlyHandlingBlock (handleBlock quietEnv block12 idleWorld).2 = false ∧
  currentlyHandlingBlock (handleBlock quietEnv block12 world1).2 = false ∧
  (handleBlock gasOracleDown block12 world1).1 =
    Throw (CollaboratorError "gas price unavailable").
Proof.
  destruct (handleBlock_single_flight quietEnv block12 idleWorld) as (_ & Hidle & _).
  destruct (Hidle eq_refl eq_refl) as (Hok & Hflag & _).
  destruct (handleBlock_single_flight quietEnv block12 world1) as (_ & _ & Hbusy).
  destruct Hbusy as (w1 & Henter & _ & _ & _ & _ & Hclear & _); [reflexivity|discriminate|].
  destruct (handleBlock_single_flight gasOracleDown block12 world1) as (_ & _ & Hdown).
  destruct Hdown as (w1' & Henter' & _ & _ & _ & _ & _ & _ & Hgas & _);
    [reflexivity|discriminate|].
  injection Henter' as <-.
  split; [exact Hok|]. split; [exact Hflag|]. split.
  - apply Hclear. vm_compute. reflexivity.
  - eapply Hgas; [vm_compute; reflexivity|]. left. reflexivity.
Defined.

(** A tick that ends in an error leaves the flag set: the statement that
    clears it is on the two normal exits only (source lines 866 and 913). *)
Lemma handleBlock_throw_leaves_flag E block w e :
  currentlyHandlingBlock w = false →
  (handleBlock E block w).1 = Throw e →
  currentlyHandlingBlock (handleBlock E block w).2 = true.
Proof.
  intros Hflag Hthrow. destruct (submitted w) as [|s ss] eqn:Hsub.
  - exfalso. revert Hthrow.
    unfold handleBlock, handleBlockEnter, dumpSubmittedOps, stopWatchingBlocks.
    run. rewrite Hflag. run. rewrite Hsub. simpl.
    destruct (unWatch w) eqn:Hw; run; rewrite ?Hw; done.
  - assert (submitted w ≠ []) as Hsome by (by rewrite Hsub).
    assert (handleBlock E block w =
            handleBlockResume E
              (record (EvLog lvl_debug "handling block" [])
                 (setCurrentlyHandlingBlock true w))) as Hrun.
    { unfold handleBlock. by rewrite (run_bind_ok _ _ _ _ _
        (handleBlockEnter_in_flight block w Hflag Hsome)). }
    rewrite Hrun in Hthrow |- *.
    by rewrite (handleBlockResume_throw_keeps_flag E _ e Hthrow).
Qed.

(** With the flag set, [handleBlock] returns at line 856. *)
Lemma handleBlock_coalesced E block w :
  currentlyHandlingBlock w = true → handleBlock E block w = (Ok tt, w).
Proof. intros Hflag. unfold handleBlock, handleBlockEnter. run. by rewrite Hflag. Qed.

(** C1 (a defect of the code).  [tx1] is submitted with its two operations,
    no tick is in flight, the chain does not know the transaction yet and
    the gas oracle is out of reach.  The claim wants the tick to end
    without an error and with the flag clear.  In the code the error of the
    oracle comes out of [handleBlock] and the flag is still set afterwards,
    although both normal exits clear it, as the runs with an oracle that
    answers and with an empty submitted store show.  From then on every
    call of [handleBlock], whatever the block and whatever the chain, the
    oracle and the executor answer, returns at once and does nothing: no
    later block is handled. *)
Theorem handleBlock_error_escapes :
  currentlyHandlingBlock world1 = false ∧
  (handleBlock gasOracleDown block12 world1).1 =
    Throw (CollaboratorError "gas price unavailable") ∧
  currentlyHandlingBlock (handleBlock gasOracleDown block12 world1).2 = true ∧
  (∀ E block,
     handleBlock E block (handleBlock gasOracleDown block12 world1).2 =
       (Ok tt, (handleBlock gasOracleDown block12 world1).2)) ∧
  (handleBlock quietEnv block12 world1).1 = Ok tt ∧
  currentlyHandlingBlock (handleBlock quietEnv block12 world1).2 = false ∧
  (handleBlock quietEnv block12 idleWorld).1 = Ok tt ∧
  currentlyHandlingBlock (handleBlock quietEnv block12 idleWorld).2 = false.
Proof.
  assert ((handleBlock gasOracleDown block12 world1).1 =
            Throw (CollaboratorError "gas price unavailable")) as Hthrow
    by (vm_compute; reflexivity).
  pose proof (handleBlock_throw_leaves_flag gasOracleDown block12 world1 _ eq_refl Hthrow)
    as Hset.
  split; [reflexivity|]. split; [exact Hthrow|]. split; [exact Hset|]. split.
  - intros E block. by apply handleBlock_coalesced.
  - vm_compute. by repeat split.
Qed.

(** ** The rest of the manager *)

(** *** The transactions of the submitted store *)

Lemma setFromList_snoc (xs : list nat) (x : nat) :
  setFromList (xs ++ [x]) =
  if bool_decide (x ∈ setFromList xs) then setFromList xs else setFromList xs ++ [x].
Proof. unfold setFromList. by rewrite fold_left_app. Qed.

Lemma elem_of_setFromList (xs : list nat) (x : nat) : x ∈ setFromList xs ↔ x ∈ xs.
Proof.
  unfold setFromList. rewrite elem_of_setFromList_acc.
  split; [intros [H|H]; [by apply elem_of_nil in H|done]|auto].
Qed.

(** [Array.from(new Set(xs))] keeps the first occurrence of each element:
    read from the end, it is what is left when every element that occurs
    again further on is dropped. *)
Lemma setFromList_first (xs : list nat) :
  setFromList xs = reverse (remove_dups (reverse xs)).
Proof.
  induction xs as [|x xs IH] using rev_ind; [done|].
  rewrite setFromList_snoc, reverse_snoc. cbn [remove_dups].
  destruct (decide_rel elem_of x (reverse xs)) as [Hin|Hnin].
  - rewrite bool_decide_true; [done|]. apply elem_of_setFromList. by apply elem_of_reverse.
  - rewrite bool_decide_false; [by rewrite reverse_cons, IH|].
    rewrite elem_of_setFromList. by rewrite elem_of_reverse in Hnin.
Qed.

Lemma setFromList_NoDup (xs : list nat) : NoDup (setFromList xs).
Proof. rewrite setFromList_first, reverse_Permutation. apply NoDup_remove_dups. Qed.

Lemma setFromList_sublist (xs : list nat) : setFromList xs `sublist_of` xs.
Proof.
  induction xs as [|x xs IH] using rev_ind; [done|].
  rewrite setFromList_snoc. case_bool_decide.
  - by apply sublist_inserts_r.
  - by apply sublist_app.
Qed.

Lemma setFromList_NoDup_id (xs : list nat) : NoDup xs → setFromList xs = xs.
Proof.
  induction xs as [|x xs IH] using rev_ind; [done|].
  intros (Hxs & Hx & _)%NoDup_app. rewrite setFromList_snoc, IH by done.
  rewrite bool_decide_false; [done|]. intros Hin. apply (Hx x Hin). by left.
Qed.

(** X1.  [getTransactionsFromUserOperationEntries] hands out every
    transaction object that an entry references, each of them once, in the
    order in which they first occur among the entries; entries that share
    their transaction object contribute it once, and entries with
    transaction objects all different get them back one for one. *)
Theorem transactions_listed_once (entries : list SubmittedUserOperation) :
  let txs := getTransactionsFromUserOperationEntries entries in
  NoDup txs ∧
  (∀ r, r ∈ txs ↔ ∃ e, e ∈ entries ∧ transactionInfo e = r) ∧
  txs = reverse (remove_dups (reverse (map transactionInfo entries))) ∧
  txs `sublist_of` map transactionInfo entries ∧
  (NoDup (map transactionInfo entries) → txs = map transactionInfo entries).
Proof.
  intros txs. unfold txs, getTransactionsFromUserOperationEntries. split_and!.
  - apply setFromList_NoDup.
  - apply elem_of_getTransactions.
  - apply setFromList_first.
  - apply setFromList_sublist.
  - apply setFromList_NoDup_id.
Qed.

Lemma transactions_listed_once_witness :
  getTransactionsFromUserOperationEntries
    [ {| userOperation := opInfo1; transactionInfo := 0%nat |};
      {| userOperation := opInfo2; transactionInfo := 1%nat |} ] = [0%nat; 1%nat].
Proof.
  destruct (transactions_listed_once
              [ {| userOperation := opInfo1; transactionInfo := 0%nat |};
                {| userOperation := opInfo2; transactionInfo := 1%nat |} ])
    as (_ & _ & _ & _ & Hid).
  apply Hid. simpl. apply NoDup_cons. split; [|apply NoDup_singleton].
  intros H%list_elem_of_singleton. discriminate.
Defined.


(** *** The block subscription *)

#[local] Instance watchKept_preorder : PreOrder watchKept.
Proof.
  split; [intros w H; exact H|]. intros w1 w2 w3 H12 H23 H. apply H23, H12, H.
Qed.

Lemma openSubscriptions_app evs1 evs2 :
  openSubscriptions (evs1 ++ evs2) = openSubscriptions evs1 + openSubscriptions evs2.
Proof. induction evs1 as [|ev evs1 IH]; simpl; [done|]. rewrite IH. lia. Qed.

(** A world that differs in neither [unWatch] nor the subscriptions seen
    in the trace is as consistent as the one it comes from. *)
Lemma watchKept_same w w' :
  unWatch w' = unWatch w → openSubscriptions (trace w') = openSubscriptions (trace w) →
  watchKept w w'.
Proof. unfold watchKept, watchConsistent. by intros -> ->. Qed.

Lemma watchKept_record ev w : subscriptionChange ev = 0 → watchKept w (record ev w).
Proof.
  intros Hev. apply watchKept_same; [done|]. simpl.
  rewrite openSubscriptions_app. simpl. lia.
Qed.

Ltac watch_leaf :=
  first [ apply watchKept_record; reflexivity
        | apply watchKept_same; [reflexivity|reflexivity] ].

Ltac watch_auto := keeps_auto; try watch_leaf.

Lemma startWatchingBlocks_watchKept : keeps watchKept startWatchingBlocks.
Proof.
  intros w. unfold startWatchingBlocks, watchKept, watchConsistent. run.
  destruct (unWatch w) eqn:Hw; simpl; [by rewrite Hw|].
  intros H. rewrite <- app_assoc, openSubscriptions_app, H. reflexivity.
Qed.

Lemma stopWatchingBlocks_watchKept : keeps watchKept stopWatchingBlocks.
Proof.
  intros w. unfold stopWatchingBlocks, watchKept, watchConsistent. run.
  destruct (unWatch w) eqn:Hw; simpl; [|by rewrite Hw].
  intros H. rewrite <- app_assoc, openSubscriptions_app, H. reflexivity.
Qed.

Lemma removeSubmitted_watchKept h : keeps watchKept (removeSubmitted h).
Proof. unfold removeSubmitted. watch_auto. Qed.
Lemma replaceSubmitted_watchKept op r : keeps watchKept (replaceSubmitted op r).
Proof. unfold replaceSubmitted. watch_auto. Qed.
Lemma markSubmitted_watchKept h r : keeps watchKept (markSubmitted h r).
Proof.
  unfold markSubmitted. watch_auto.
  apply watchKept_same; by destruct (find _ (processing _)).
Qed.
Lemma removeProcessing_watchKept h : keeps watchKept (removeProcessing h).
Proof. unfold removeProcessing. watch_auto. Qed.
Lemma mempoolAdd_watchKept op ep : keeps watchKept (mempoolAdd op ep).
Proof. unfold mempoolAdd. watch_auto. Qed.
Lemma mempoolProcess_watchKept E g n : keeps watchKept (mempoolProcess E g n).
Proof. intros w. unfold mempoolProcess. simpl. etrans; [|watch_leaf]. watch_leaf. Qed.
Lemma updateTx_watchKept r f : keeps watchKept (updateTx r f).
Proof. unfold updateTx. watch_auto. Qed.
Lemma allocTx_watchKept txInfo : keeps watchKept (allocTx txInfo).
Proof. intros w. simpl. watch_leaf. Qed.
#[local] Hint Resolve startWatchingBlocks_watchKept stopWatchingBlocks_watchKept
  removeSubmitted_watchKept replaceSubmitted_watchKept markSubmitted_watchKept
  removeProcessing_watchKept mempoolAdd_watchKept mempoolProcess_watchKept
  updateTx_watchKept allocTx_watchKept : keeps.

Lemma replaceTransaction_watchKept E r reason : keeps watchKept (replaceTransaction E r reason).
Proof.
  unfold replaceTransaction, executorReplaceTransaction, markWalletProcessed. watch_auto.
Qed.
#[local] Hint Resolve replaceTransaction_watchKept : keeps.

Lemma refreshTransactionStatus_watchKept E ep r :
  keeps watchKept (refreshTransactionStatus E ep r).
Proof.
  unfold refreshTransactionStatus, resolveStatuses, fetchBundleStatus, onIncluded, onFailed,
    checkFrontrun, markWalletProcessed.
  watch_auto.
Qed.
#[local] Hint Resolve refreshTransactionStatus_watchKept : keeps.

Lemma handleResults_watchKept E acc results : keeps watchKept (handleResults E acc results).
Proof.
  revert acc. induction results as [|result results IH]; intros acc; simpl.
  - watch_auto.
  - keeps_step; [|apply IH]. unfold handleResult. watch_auto.
Qed.
#[local] Hint Resolve handleResults_watchKept : keeps.

Lemma sendToExecutor_watchKept E ep mops : keeps watchKept (sendToExecutor E ep mops).
Proof.
  unfold sendToExecutor, callExecutor, executorBundle, executorBundleCompressed,
    placeCreated, bundleMetric.
  watch_auto.
Qed.
#[local] Hint Resolve sendToExecutor_watchKept : keeps.

Lemma drainMempool_watchKept E fuel acc : keeps watchKept (drainMempool E fuel acc).
Proof. revert acc. induction fuel as [|fuel IH]; intros acc; simpl; watch_auto. Qed.
#[local] Hint Resolve drainMempool_watchKept : keeps.

Lemma handleBlock_watchKept E block : keeps watchKept (handleBlock E block).
Proof.
  unfold handleBlock, handleBlockEnter, handleBlockResume, refreshUserOperationStatuses,
    gasPricePass, stuckPass, gasPriceTask, stuckTask, fetchGasPrice, dumpSubmittedOps,
    noOpsWarning.
  watch_auto.
Qed.

Lemma bundleNow_watchKept E : keeps watchKept (bundleNow E).
Proof.
  unfold bundleNow, bundleNowDispatch, bundleNowEntryPoint, noOpsWarning. watch_auto.
Qed.

Lemma bundle_watchKept E fuel : keeps watchKept (bundle E fuel).
Proof.
  unfold bundle, bundleDispatch, bundleBatch, bundleEntryPoint, noOpsWarning. watch_auto.
Qed.

(** X3.  The manager never holds more than one block subscription, and
    [this.unWatch] is set exactly when it holds one: if this is so before a
    call of [handleBlock], [bundleNow], [bundle] or [sendToExecutor], it is
    so afterwards, however the call ends.  Subscribing when subscribed and
    unsubscribing when not subscribed do nothing at all. *)
Theorem one_block_subscription (E : Env) (w : World) :
  watchConsistent w →
  (∀ block, watchConsistent (handleBlock E block w).2) ∧
  watchConsistent (bundleNow E w).2 ∧
  (∀ fuel, watchConsistent (bundle E fuel w).2) ∧
  (∀ ep mempoolOps, watchConsistent (sendToExecutor E ep mempoolOps w).2) ∧
  watchConsistent (startWatchingBlocks w).2 ∧
  watchConsistent (stopWatchingBlocks w).2 ∧
  unWatch (startWatchingBlocks w).2 = true ∧
  unWatch (stopWatchingBlocks w).2 = false ∧
  (unWatch w = true → startWatchingBlocks w = (Ok tt, w)) ∧
  (unWatch w = false → stopWatchingBlocks w = (Ok tt, w)).
Proof.
  intros Hw. split_and!.
  - intros block. revert Hw. apply handleBlock_watchKept.
  - revert Hw. apply bundleNow_watchKept.
  - intros fuel. revert Hw. apply bundle_watchKept.
  - intros ep mops. revert Hw. apply sendToExecutor_watchKept.
  - revert Hw. apply startWatchingBlocks_watchKept.
  - revert Hw. apply stopWatchingBlocks_watchKept.
  - unfold startWatchingBlocks. run. by destruct (unWatch w) eqn:H.
  - unfold stopWatchingBlocks. run. by destruct (unWatch w) eqn:H.
  - intros H. unfold startWatchingBlocks. run. by rewrite H.
  - intros H. unfold stopWatchingBlocks. run. by rewrite H.
Qed.

Lemma one_block_subscription_witness :
  watchConsistent freshWorld ∧
  watchConsistent (bundleNow bundlingEnv freshWorld).2 ∧
  unWatch (bundleNow bundlingEnv freshWorld).2 = true ∧
  watchConsistent
    (handleBlock bundlingEnv (mkBlock (Some 7)) (bundleNow bundlingEnv freshWorld).2).2.
Proof.
  assert (watchConsistent freshWorld) as Hfresh by reflexivity.
  destruct (one_block_subscription bundlingEnv freshWorld Hfresh) as (_ & Hnow & _).
  destruct (one_block_subscription bundlingEnv _ Hnow) as (Hblock & _).
  split; [exact Hfresh|]. split; [exact Hnow|].
  split; [vm_compute; reflexivity|apply Hblock].
Defined.

(** *** Replacements that do not come about *)

(** X4.  When the executor answers [failed], every operation of the
    transaction leaves the submitted store and the failure is logged; the
    transaction object is left as it is, and the wallet of the executor is
    not marked processed. *)
Theorem replace_failed (E : Env) (r : nat) (reason : string) (w : World)
    (txInfo : TransactionInfo) :
  heap w !! r = Some txInfo →
  executor_replaceTransaction E (record (EvExecutorReplaceTransaction r txInfo) w) txInfo
    = Ok failed →
  let w' := (replaceTransaction E r reason w).2 in
  let hashes := map userOperationHash (userOperationInfos txInfo) in
  (replaceTransaction E r reason w).1 = Ok tt ∧
  submitted w' = withoutHashes hashes (submitted w) ∧
  (∀ e, e ∈ submitted w' ↔
        e ∈ submitted w ∧ userOperationHash (userOperation e) ∉ hashes) ∧
  heap w' = heap w ∧ processing w' = processing w ∧ outstanding w' = outstanding w ∧
  currentlyHandlingBlock w' = currentlyHandlingBlock w ∧ unWatch w' = unWatch w ∧
  trace w' =
    trace w ++
      [EvExecutorReplaceTransaction r txInfo;
       EvMetric "replacedTransactions" [reason; "failed"] 1] ++
      map EvMempoolRemoveSubmitted hashes ++
      [EvLog lvl_warn "failed to replace transaction" [transactionHash txInfo; reason]] ∧
  EvMarkWalletProcessed (executor txInfo) ∉ drop (length (trace w)) (trace w').
Proof.
  intros Hr Hans w' hashes.
  assert (replaceTransaction E r reason w =
          (Ok tt,
           record (EvLog lvl_warn "failed to replace transaction"
                     [transactionHash txInfo; reason])
             (removedAll hashes
                (recordAll [EvExecutorReplaceTransaction r txInfo;
                            replaceMetric reason (Ok failed)] w)))) as Hrun.
  { unfold replaceTransaction. rewrite run_bind. unfold tryFinally.
    rewrite (run_executorReplaceTransaction E r w txInfo Hr), Hans.
    rewrite run_readTx_bind with (txInfo := txInfo) by done.
    rewrite run_seq, forEach_removeSubmitted, run_log.
    by rewrite !record_eq, !recordAll_recordAll. }
  assert (trace w' =
          trace w ++
            [EvExecutorReplaceTransaction r txInfo;
             EvMetric "replacedTransactions" [reason; "failed"] 1] ++
            map EvMempoolRemoveSubmitted hashes ++
            [EvLog lvl_warn "failed to replace transaction"
               [transactionHash txInfo; reason]]) as Htrace.
  { subst w'. rewrite Hrun. simpl. by repeat (rewrite <- app_assoc; simpl). }
  split_and!; try (subst w'; rewrite Hrun; done).
  - intros e. subst w'. rewrite Hrun. simpl. apply elem_of_withoutHashes.
  - exact Htrace.
  - rewrite Htrace, drop_app_length. intros Hin.
    apply elem_of_cons in Hin as [?|Hin]; [done|].
    apply elem_of_cons in Hin as [?|Hin]; [done|].
    apply elem_of_app in Hin as [Hin|Hin].
    + apply list_elem_of_fmap in Hin as (h & ? & _). done.
    + apply list_elem_of_singleton in Hin. done.
Qed.

Lemma replace_failed_witness :
  submitted (replaceTransaction minedAndRevertedEnv 0%nat "stuck" world1).2 = [] ∧
  heap (replaceTransaction minedAndRevertedEnv 0%nat "stuck" world1).2 = [tx1].
Proof.
  destruct (replace_failed minedAndRevertedEnv 0%nat "stuck" world1 tx1 eq_refl eq_refl)
    as (_ & Hsub & _ & Hheap & _).
  split; [rewrite Hsub; reflexivity|exact Hheap].
Defined.

(** X5.  When the call of the executor is rejected, [replaceTransaction] is
    rejected with the same error.  All that has happened by then is the call
    itself and the metric, which counts the replacement under the status
    failed, as it does for an executor that answers [failed]; unlike there,
    the operations stay in the submitted store. *)
Theorem replace_rejected (E : Env) (r : nat) (reason : string) (w : World)
    (txInfo : TransactionInfo) (e : Exn) :
  heap w !! r = Some txInfo →
  executor_replaceTransaction E (record (EvExecutorReplaceTransaction r txInfo) w) txInfo
    = Throw e →
  replaceTransaction E r reason w =
    (Throw e,
     recordAll [EvExecutorReplaceTransaction r txInfo;
                EvMetric "replacedTransactions" [reason; "failed"] 1] w) ∧
  replaceMetric reason (Throw e) = replaceMetric reason (Ok failed) ∧
  submitted (replaceTransaction E r reason w).2 = submitted w ∧
  heap (replaceTransaction E r reason w).2 = heap w.
Proof.
  intros Hr Hans.
  assert (replaceTransaction E r reason w =
          (Throw e,
           recordAll [EvExecutorReplaceTransaction r txInfo;
                      EvMetric "replacedTransactions" [reason; "failed"] 1] w)) as Hrun.
  { unfold replaceTransaction. rewrite run_bind. unfold tryFinally.
    rewrite (run_executorReplaceTransaction E r w txInfo Hr), Hans. simpl.
    by rewrite !record_eq, recordAll_recordAll. }
  rewrite Hrun. done.
Qed.

Lemma replace_rejected_witness :
  (replaceTransaction executorDown 0%nat "gas_price" world1).1 =
    Throw (CollaboratorError "executor unavailable") ∧
  submitted (replaceTransaction executorDown 0%nat "gas_price" world1).2 = submitted world1.
Proof.
  destruct (replace_rejected executorDown 0%nat "gas_price" world1 tx1
              (CollaboratorError "executor unavailable") eq_refl eq_refl)
    as (Hrun & _ & Hsub & _).
  split; [by rewrite Hrun|exact Hsub].
Defined.

(** *** The ways of a finalized transaction *)

Lemma forEach_app {A} (f : A -> M unit) (xs ys : list A) (w : World) :
  forEach f (xs ++ ys) w =
  match forEach f xs w with
  | (Ok _, w1) => forEach f ys w1
  | (Throw e, w1) => (Throw e, w1)
  end.
Proof.
  revert w. induction xs as [|x xs IH]; intros w; simpl; [done|].
  rewrite !run_seq. destruct (f x w) as [[[]|e] w1]; [apply IH|done].
Qed.

Lemma withoutHashes_app hs1 hs2 s :
  withoutHashes hs2 (withoutHashes hs1 s) = withoutHashes (hs1 ++ hs2) s.
Proof.
  revert s. induction hs1 as [|h hs1 IH]; intros s; simpl.
  - by rewrite withoutHashes_nil.
  - by rewrite <- !withoutHashes_cons, IH.
Qed.

(** [refreshTransactionStatus] up to the point where it looks at the kind
    of the status of the finalized transaction. *)
Lemma refresh_finalized E ep r w txInfo details w1 fin :
  heap w !! r = Some txInfo →
  resolveStatuses E ep txInfo w = (Ok details, w1) →
  finalizedTransaction details = Some fin →
  heap w1 = heap w ∧ submitted w1 = submitted w ∧
  refreshTransactionStatus E ep r w =
    (match bundlingStatus fin with
     | included userOperationDetails =>
         forEach (onIncluded E userOperationDetails (td_transactionHash fin)
                    (td_blockNumber fin)) (userOperationInfos txInfo);;
         markWalletProcessed (executor txInfo)
     | reverted true _ =>
         updateTx r (bumpForAA95 E);;
         forEach (fun opInfo => removeSubmitted (userOperationHash opInfo))
           (userOperationInfos txInfo);;
         replaceTransaction E r "AA95"
     | reverted false reason =>
         if match reason with Some r => includes r "AA25" | None => false end then
           forEach (fun opInfo => checkFrontrun (userOperationHash opInfo)
                                    (td_transactionHash fin) (td_blockNumber fin))
             (userOperationInfos txInfo)
         else
           forEach (onFailed (td_transactionHash fin) (td_blockNumber fin))
             (userOperationInfos txInfo);;
           markWalletProcessed (executor txInfo)
     | not_found =>
         forEach (onFailed (td_transactionHash fin) (td_blockNumber fin))
           (userOperationInfos txInfo);;
         markWalletProcessed (executor txInfo)
     end) (recordAll (finalizedEvents txInfo fin) w1).
Proof.
  intros Hr Hres Hfin.
  pose proof (resolveStatuses_traceOnly E ep txInfo w) as Hkeep.
  rewrite Hres in Hkeep. destruct Hkeep as (Hheap & Hsub & _). simpl in *.
  split; [done|]. split; [done|].
  unfold refreshTransactionStatus.
  rewrite (run_bind_ok _ _ _ _ _ (run_readTx r w txInfo Hr)).
  rewrite (run_bind_ok _ _ _ _ _ Hres), Hfin. rewrite !run_seq, run_log, run_seq, run_emit.
  unfold finalizedEvents. by rewrite !record_eq, recordAll_recordAll.
Qed.

Lemma forEach_onFailed txHash bn (ops : list UserOperationInfo) (w : World) :
  forEach (onFailed txHash bn) ops w =
  (Ok tt,
   setSubmitted (withoutHashes (map userOperationHash ops) (submitted w))
     (recordAll (flat_map (failedEvents txHash bn) ops) w)).
Proof.
  revert w. induction ops as [|op ops IH]; intros w; simpl.
  - rewrite recordAll_nil, withoutHashes_nil. by destruct w.
  - rewrite run_seq. unfold onFailed at 1. cbv zeta.
    rewrite run_seq, run_removeSubmitted. cbv iota beta.
    rewrite run_seq, run_emit. cbv iota beta.
    rewrite run_seq, run_emit. cbv iota beta.
    rewrite run_log, IH. simpl.
    rewrite <- (withoutHashes_cons (userOperationHash op)
                  (map userOperationHash ops) (submitted w)).
    rewrite <- (withoutHashes_cons (userOperationHash op) [] (submitted w)).
    rewrite withoutHashes_nil.
    unfold setSubmitted, recordAll. simpl. by rewrite <- !app_assoc.
Qed.

Lemma run_onIncluded E details txHash bn op d w :
  details !! userOperationHash op = Some d →
  onIncluded E details txHash bn op w =
    (Ok tt,
     setSubmitted (withoutHashes [userOperationHash op] (submitted w))
       (recordAll (includedEvents E txHash bn (dateNow E w) op d) w)).
Proof.
  intros Hd. unfold onIncluded. cbv zeta.
  rewrite run_bind. cbn [gets]. rewrite run_seq, run_emit. cbv iota beta.
  rewrite run_seq, run_removeSubmitted. cbv iota beta. rewrite Hd.
  rewrite run_seq, run_emit. cbv iota beta. rewrite run_seq.
  assert (∀ w0, (if bool_decide (opStatus d = "succesful")
                 then emit (EvEmitIncludedOnChain (userOperationHash op) txHash bn)
                 else emit (EvEmitExecutionRevertedOnChain (userOperationHash op) txHash
                              (orElse (opRevertReason d) "0x") bn)) w0 =
                (Ok tt, record (inclusionEvent txHash bn op d) w0)) as ->.
  { intros w0. unfold inclusionEvent. by case_bool_decide. }
  cbv iota beta. rewrite run_seq, run_emit. cbv iota beta. rewrite run_log.
  f_equal. unfold removedAll, setSubmitted, recordAll, record, includedEvents. simpl.
  f_equal. by repeat (rewrite <- app_assoc; simpl).
Qed.

Lemma run_onIncluded_missing E details txHash bn op w :
  details !! userOperationHash op = None →
  onIncluded E details txHash bn op w =
    (Throw (JsTypeError "Cannot read properties of undefined"),
     setSubmitted (withoutHashes [userOperationHash op] (submitted w))
       (recordAll [EvObserveInclusionDuration (dateNow E w - firstSubmitted op);
                   EvMempoolRemoveSubmitted (userOperationHash op)] w)).
Proof.
  intros Hd. unfold onIncluded. cbv zeta.
  rewrite run_bind. cbn [gets]. rewrite run_seq, run_emit. cbv iota beta.
  rewrite run_seq, run_removeSubmitted. cbv iota beta. rewrite Hd.
  unfold throw. f_equal. unfold removedAll, setSubmitted, recordAll, record. simpl.
  f_equal. by repeat (rewrite <- app_assoc; simpl).
Qed.

(** The loop over the operations of an included transaction, as long as
    the status has details for each of them. *)
Lemma forEach_onIncluded E details txHash bn (ops : list UserOperationInfo) (w : World) :
  Forall (fun op => is_Some (details !! userOperationHash op)) ops →
  ∃ nows, length nows = length ops ∧
    forEach (onIncluded E details txHash bn) ops w =
    (Ok tt,
     setSubmitted (withoutHashes (map userOperationHash ops) (submitted w))
       (recordAll (flat_map (includedFor E details txHash bn) (zip nows ops)) w)).
Proof.
  intros Hall. revert w. induction Hall as [|op ops [d Hd] _ IH]; intros w.
  - exists []. split; [done|]. simpl. rewrite recordAll_nil, withoutHashes_nil. by destruct w.
  - simpl. rewrite run_seq, (run_onIncluded _ _ _ _ _ d) by done.
    destruct (IH (setSubmitted (withoutHashes [userOperationHash op] (submitted w))
                    (recordAll (includedEvents E txHash bn (dateNow E w) op d) w)))
      as (nows & Hlen & Hrun).
    exists (dateNow E w :: nows). split; [simpl; by rewrite Hlen|].
    rewrite Hrun. f_equal. simpl. unfold includedFor at 2. simpl. rewrite Hd.
    rewrite withoutHashes_app. simpl.
    unfold setSubmitted, recordAll. simpl. f_equal. by rewrite <- !app_assoc.
Qed.

(** X6.  When the finalized transaction is included and its status has
    details for every operation of the transaction, each operation, in
    order, has its inclusion time observed, leaves the submitted store, is
    reported to the reputation manager, to the event manager (as included
    when its status is "succesful", as reverted in execution otherwise,
    with the revert reason or "0x") and to the monitor with the hash of the
    finalized transaction; then the wallet is marked processed.  Nothing
    else changes: the entries of other operations and the transaction
    objects are as they were. *)
Theorem included_settles (E : Env) (ep : Address) (r : nat) (w : World)
    (txInfo : TransactionInfo) (details : list TransactionDetail) (w1 : World)
    (fin : TransactionDetail) (userOperationDetails : gmap string UserOperationDetails) :
  heap w !! r = Some txInfo →
  resolveStatuses E ep txInfo w = (Ok details, w1) →
  finalizedTransaction details = Some fin →
  bundlingStatus fin = included userOperationDetails →
  Forall (fun op => is_Some (userOperationDetails !! userOperationHash op))
    (userOperationInfos txInfo) →
  let w' := (refreshTransactionStatus E ep r w).2 in
  let hashes := map userOperationHash (userOperationInfos txInfo) in
  (refreshTransactionStatus E ep r w).1 = Ok tt ∧
  submitted w' = withoutHashes hashes (submitted w) ∧
  (∀ e, e ∈ submitted w' ↔
        e ∈ submitted w ∧ userOperationHash (userOperation e) ∉ hashes) ∧
  heap w' = heap w ∧ processing w' = processing w ∧ outstanding w' = outstanding w ∧
  currentlyHandlingBlock w' = currentlyHandlingBlock w ∧ unWatch w' = unWatch w ∧
  ∃ nows, length nows = length (userOperationInfos txInfo) ∧
    trace w' =
      trace w1 ++ finalizedEvents txInfo fin ++
        flat_map (includedFor E userOperationDetails (td_transactionHash fin)
                    (td_blockNumber fin)) (zip nows (userOperationInfos txInfo)) ++
        [EvMarkWalletProcessed (executor txInfo)].
Proof.
  intros Hr Hres Hfin Hst Hall w' hashes.
  destruct (refresh_finalized E ep r w txInfo details w1 fin Hr Hres Hfin)
    as (Hheap & Hsub & Hrun).
  pose proof (resolveStatuses_traceOnly E ep txInfo w) as Hkeep.
  rewrite Hres in Hkeep. destruct Hkeep as (_ & _ & Hproc & Hout & Hflag & Hwatch & _).
  simpl in *.
  rewrite Hst in Hrun.
  destruct (forEach_onIncluded E userOperationDetails (td_transactionHash fin)
              (td_blockNumber fin) (userOperationInfos txInfo)
              (recordAll (finalizedEvents txInfo fin) w1) Hall) as (nows & Hlen & Hloop).
  rewrite run_seq, Hloop in Hrun. unfold markWalletProcessed in Hrun.
  rewrite run_emit in Hrun.
  subst w'. rewrite Hrun. simpl. rewrite Hsub.
  split_and!; try done.
  - intros e. apply elem_of_withoutHashes.
  - exists nows. split; [done|]. by rewrite <- !app_assoc.
Qed.

Lemma included_settles_witness :
  (refreshTransactionStatus includedEnv ep06 0%nat world1).1 = Ok tt ∧
  submitted (refreshTransactionStatus includedEnv ep06 0%nat world1).2 = [] ∧
  heap (refreshTransactionStatus includedEnv ep06 0%nat world1).2 = [tx1].
Proof.
  destruct (included_settles includedEnv ep06 0%nat world1 tx1
              (currentFinalized (included bothDetailed))
              (resolveStatuses includedEnv ep06 tx1 world1).2
              {| td_transactionHash := "0x7a01"; bundlingStatus := included bothDetailed;
                 td_blockNumber := Some 11 |} bothDetailed)
    as (Hok & Hsub & _ & Hheap & _);
    [reflexivity | vm_compute; reflexivity | reflexivity | reflexivity
    | repeat constructor; eexists; vm_compute; reflexivity |].
  split; [exact Hok|]. split; [rewrite Hsub; reflexivity|exact Hheap].
Defined.

Lemma includedFor_no_wallet E details txHash bn timed wallet :
  EvMarkWalletProcessed wallet ∉ includedFor E details txHash bn timed.
Proof.
  unfold includedFor. destruct (details !! _) as [d|]; [|apply not_elem_of_nil].
  unfold includedEvents, inclusionEvent. intros Hin.
  repeat (apply elem_of_cons in Hin as [Heq|Hin]; [by (discriminate || case_bool_decide)|]).
  by apply elem_of_nil in Hin.
Qed.

(** X7.  When the finalized transaction is included but its status lacks
    the details of one of the operations, [refreshTransactionStatus] raises
    a type error at this operation.  The operations before it are settled
    as usual; the operation itself has left the submitted store, but is
    reported to nobody; the operations after it are not looked at and the
    wallet is not marked processed. *)
Theorem included_without_details (E : Env) (ep : Address) (r : nat) (w : World)
    (txInfo : TransactionInfo) (details : list TransactionDetail) (w1 : World)
    (fin : TransactionDetail) (userOperationDetails : gmap string UserOperationDetails)
    (pre post : list UserOperationInfo) (op : UserOperationInfo) :
  heap w !! r = Some txInfo →
  resolveStatuses E ep txInfo w = (Ok details, w1) →
  finalizedTransaction details = Some fin →
  bundlingStatus fin = included userOperationDetails →
  userOperationInfos txInfo = pre ++ op :: post →
  Forall (fun o => is_Some (userOperationDetails !! userOperationHash o)) pre →
  userOperationDetails !! userOperationHash op = None →
  let w' := (refreshTransactionStatus E ep r w).2 in
  (refreshTransactionStatus E ep r w).1 =
    Throw (JsTypeError "Cannot read properties of undefined") ∧
  submitted w' = withoutHashes (map userOperationHash (pre ++ [op])) (submitted w) ∧
  heap w' = heap w ∧
  (∃ nows now, length nows = length pre ∧
     trace w' =
       trace w1 ++ finalizedEvents txInfo fin ++
         flat_map (includedFor E userOperationDetails (td_transactionHash fin)
                     (td_blockNumber fin)) (zip nows pre) ++
         [EvObserveInclusionDuration (now - firstSubmitted op);
          EvMempoolRemoveSubmitted (userOperationHash op)]) ∧
  EvMarkWalletProcessed (executor txInfo) ∉ drop (length (trace w1)) (trace w').
Proof.
  intros Hr Hres Hfin Hst Hops Hpre Hop w'.
  destruct (refresh_finalized E ep r w txInfo details w1 fin Hr Hres Hfin)
    as (Hheap & Hsub & Hrun).
  rewrite Hst, Hops in Hrun.
  destruct (forEach_onIncluded E userOperationDetails (td_transactionHash fin)
              (td_blockNumber fin) pre
              (recordAll (finalizedEvents txInfo fin) w1) Hpre) as (nows & Hlen & Hloop).
  rewrite run_seq, forEach_app, Hloop in Hrun. simpl in Hrun.
  rewrite run_seq, run_onIncluded_missing in Hrun by done. simpl in Hrun.
  assert (trace w' =
          trace w1 ++ finalizedEvents txInfo fin ++
            flat_map (includedFor E userOperationDetails (td_transactionHash fin)
                        (td_blockNumber fin)) (zip nows pre) ++
            [EvObserveInclusionDuration
               (dateNow E
                  (setSubmitted (withoutHashes (map userOperationHash pre) (submitted w1))
                     (recordAll
                        (flat_map (includedFor E userOperationDetails
                                     (td_transactionHash fin) (td_blockNumber fin))
                           (zip nows pre))
                        (recordAll (finalizedEvents txInfo fin) w1)))
                - firstSubmitted op);
             EvMempoolRemoveSubmitted (userOperationHash op)]) as Htrace.
  { subst w'. rewrite Hrun. simpl. by repeat (rewrite <- app_assoc; simpl). }
  split_and!.
  - subst w'. by rewrite Hrun.
  - subst w'. rewrite Hrun. simpl. by rewrite withoutHashes_app, Hsub, map_app.
  - subst w'. by rewrite Hrun.
  - eexists nows, _. split; [done|]. exact Htrace.
  - rewrite Htrace, drop_app_length. intros Hin.
    apply elem_of_cons in Hin as [?|Hin]; [done|].
    apply elem_of_cons in Hin as [?|Hin]; [done|].
    apply elem_of_app in Hin as [Hin|Hin].
    + apply list_elem_of_In, in_flat_map in Hin as (timed & _ & Hin).
      apply list_elem_of_In in Hin. by apply includedFor_no_wallet in Hin.
    + apply elem_of_cons in Hin as [?|Hin]; [done|].
      apply list_elem_of_singleton in Hin. done.
Qed.

Lemma included_without_details_witness :
  (refreshTransactionStatus halfDetailedEnv ep06 0%nat world1).1 =
    Throw (JsTypeError "Cannot read properties of undefined") ∧
  submitted (refreshTransactionStatus halfDetailedEnv ep06 0%nat world1).2 = [].
Proof.
  destruct (included_without_details halfDetailedEnv ep06 0%nat world1 tx1
              (currentFinalized (included firstDetailed))
              (resolveStatuses halfDetailedEnv ep06 tx1 world1).2
              {| td_transactionHash := "0x7a01"; bundlingStatus := included firstDetailed;
                 td_blockNumber := Some 11 |} firstDetailed [opInfo1] [] opInfo2)
    as (Hthrow & Hsub & _);
    [reflexivity | vm_compute; reflexivity | reflexivity | reflexivity | reflexivity
    | repeat constructor; eexists; vm_compute; reflexivity | vm_compute; reflexivity |].
  split; [exact Hthrow|]. rewrite Hsub. reflexivity.
Defined.

(** X8.  When the finalized transaction is reverted without AA95 and the
    reason mentions AA25, [refreshTransactionStatus] writes the log line
    and the metric of a finalized transaction and then does nothing but
    open one block-number subscription per operation: the operations stay
    in the submitted store, no status is reported yet and the wallet is not
    marked processed. *)
Theorem reverted_aa25_watched (E : Env) (ep : Address) (r : nat) (w : World)
    (txInfo : TransactionInfo) (details : list TransactionDetail) (w1 : World)
    (fin : TransactionDetail) (reason : string) :
  heap w !! r = Some txInfo →
  resolveStatuses E ep txInfo w = (Ok details, w1) →
  finalizedTransaction details = Some fin →
  bundlingStatus fin = reverted false (Some reason) →
  includes reason "AA25" = true →
  refreshTransactionStatus E ep r w =
    (Ok tt,
     recordAll
       (finalizedEvents txInfo fin ++
        map (frontrunWatch (td_transactionHash fin) (td_blockNumber fin))
          (userOperationInfos txInfo)) w1) ∧
  traceOnly w (refreshTransactionStatus E ep r w).2.
Proof.
  intros Hr Hres Hfin Hst Haa25.
  destruct (refresh_finalized E ep r w txInfo details w1 fin Hr Hres Hfin)
    as (_ & _ & Hrun).
  rewrite Hst, Haa25 in Hrun.
  rewrite (forEach_emit (frontrunWatch (td_transactionHash fin) (td_blockNumber fin)))
    in Hrun.
  rewrite recordAll_recordAll in Hrun.
  split; [exact Hrun|]. rewrite Hrun. simpl.
  pose proof (resolveStatuses_traceOnly E ep txInfo w) as Hkeep.
  rewrite Hres in Hkeep. simpl in Hkeep.
  etrans; [exact Hkeep|].
  unfold traceOnly. simpl. split_and!; try done. eauto.
Qed.

Lemma reverted_aa25_watched_witness :
  submitted (refreshTransactionStatus aa25Env ep06 0%nat world1).2 = submitted world1 ∧
  drop 4 (trace (refreshTransactionStatus aa25Env ep06 0%nat world1).2) =
    [EvWatchBlockNumber "0x01" "0x7a01" (Some 11);
     EvWatchBlockNumber "0x02" "0x7a01" (Some 11)].
Proof.
  destruct (reverted_aa25_watched aa25Env ep06 0%nat world1 tx1
              (currentFinalized (reverted false (Some "AA25 invalid account nonce")))
              (resolveStatuses aa25Env ep06 tx1 world1).2
              {| td_transactionHash := "0x7a01";
                 bundlingStatus := reverted false (Some "AA25 invalid account nonce");
                 td_blockNumber := Some 11 |} "AA25 invalid account nonce")
    as (Hrun & _);
    [reflexivity | vm_compute; reflexivity | reflexivity | reflexivity | reflexivity |].
  rewrite Hrun. split; reflexivity.
Defined.

(** X9.  When the finalized transaction is reverted without AA95 and its
    reason, if it has one, does not mention AA25, every operation of the
    transaction leaves the submitted store, is reported as rejected to the
    monitor and as failed on chain to the event manager, with the hash and
    the block of the finalized transaction; then the wallet is marked
    processed. *)
Theorem reverted_fails_operations (E : Env) (ep : Address) (r : nat) (w : World)
    (txInfo : TransactionInfo) (details : list TransactionDetail) (w1 : World)
    (fin : TransactionDetail) (reason : option string) :
  heap w !! r = Some txInfo →
  resolveStatuses E ep txInfo w = (Ok details, w1) →
  finalizedTransaction details = Some fin →
  bundlingStatus fin = reverted false reason →
  match reason with Some r => includes r "AA25" | None => false end = false →
  let w' := (refreshTransactionStatus E ep r w).2 in
  let hashes := map userOperationHash (userOperationInfos txInfo) in
  (refreshTransactionStatus E ep r w).1 = Ok tt ∧
  submitted w' = withoutHashes hashes (submitted w) ∧
  (∀ e, e ∈ submitted w' ↔
        e ∈ submitted w ∧ userOperationHash (userOperation e) ∉ hashes) ∧
  heap w' = heap w ∧
  trace w' =
    trace w1 ++ finalizedEvents txInfo fin ++
      flat_map (failedEvents (td_transactionHash fin) (td_blockNumber fin))
        (userOperationInfos txInfo) ++
      [EvMarkWalletProcessed (executor txInfo)].
Proof.
  intros Hr Hres Hfin Hst Hreason w' hashes.
  destruct (refresh_finalized E ep r w txInfo details w1 fin Hr Hres Hfin)
    as (Hheap & Hsub & Hrun).
  rewrite Hst, Hreason in Hrun.
  rewrite run_seq, forEach_onFailed in Hrun. unfold markWalletProcessed in Hrun.
  rewrite run_emit in Hrun.
  subst w'. rewrite Hrun. simpl. rewrite Hsub. split_and!; try done.
  - intros e. apply elem_of_withoutHashes.
  - by rewrite <- !app_assoc.
Qed.

Lemma reverted_fails_operations_witness :
  (refreshTransactionStatus aa21Env ep06 0%nat world1).1 = Ok tt ∧
  submitted (refreshTransactionStatus aa21Env ep06 0%nat world1).2 = [] ∧
  last (trace (refreshTransactionStatus aa21Env ep06 0%nat world1).2) =
    Some (EvMarkWalletProcessed wallet1).
Proof.
  destruct (reverted_fails_operations aa21Env ep06 0%nat world1 tx1
              (currentFinalized (reverted false (Some "AA21 didn't pay prefund")))
              (resolveStatuses aa21Env ep06 tx1 world1).2
              {| td_transactionHash := "0x7a01";
                 bundlingStatus := reverted false (Some "AA21 didn't pay prefund");
                 td_blockNumber := Some 11 |} (Some "AA21 didn't pay prefund"))
    as (Hok & Hsub & _ & _ & Htrace);
    [reflexivity | vm_compute; reflexivity | reflexivity | reflexivity | reflexivity |].
  split; [exact Hok|]. split; [rewrite Hsub; reflexivity|].
  rewrite Htrace. reflexivity.
Defined.

(** *** The status refresh, entry point by entry point *)

Lemma promiseAll_emit {A} (f : A -> Event) (xs : list A) (w : World) :
  promiseAll (fun x => emit (f x)) xs w = (Ok (map (fun _ => tt) xs), recordAll (map f xs) w).
Proof.
  revert w. induction xs as [|x xs IH]; intros w; simpl.
  - by rewrite recordAll_nil.
  - rewrite IH. by rewrite record_eq, recordAll_recordAll.
Qed.

Lemma refreshEntryPoint_lookup E (entries : list SubmittedUserOperation) ep w :
  match groupByEntryPoint (fun op => entryPoint (userOperation op)) (fun op => op) entries
          !! ep with
  | Some ops =>
      promiseAll (fun txInfo => refreshTransactionStatus E ep txInfo)
        (getTransactionsFromUserOperationEntries ops);;
      ret tt
  | None => noOpsWarning ep
  end w = refreshEntryPoint E entries ep w.
Proof.
  rewrite groupBy_lookup. unfold refreshEntryPoint.
  destruct (opsFor _ ep entries) as [|e sel]; [done|]. by rewrite map_id.
Qed.

Lemma opsFor_none {A} (key : A -> string) (ep : string) (s : list A) :
  (∀ e, e ∈ s → key e ≠ ep) → opsFor key ep s = [].
Proof.
  unfold opsFor. induction s as [|e s IH]; intros Hnone; [done|].
  cbn [List.filter]. rewrite bool_decide_false by (apply Hnone; by left).
  apply IH. intros e' He'. apply Hnone. by right.
Qed.

(** X10.  [refreshUserOperationStatuses] goes through the configured entry
    points, and for each of them refreshes the transactions of the
    submitted entries whose operation targets this entry point, each
    transaction once; an entry point without such entries gets a warning.
    Entries whose entry point is not configured are never looked at: when
    the submitted store holds no others, or nothing at all, the refresh
    asks the chain nothing and only leaves the warnings. *)
Theorem refresh_by_entry_point (E : Env) (w : World) :
  refreshUserOperationStatuses E w =
    (promiseAll (refreshEntryPoint E (submitted w)) (entryPoints E);; ret tt) w ∧
  (∀ ep, opsFor (fun op => entryPoint (userOperation op)) ep (submitted w) = [] →
         refreshEntryPoint E (submitted w) ep = noOpsWarning ep) ∧
  ((∀ e, e ∈ submitted w → entryPoint (userOperation e) ∉ entryPoints E) →
   refreshUserOperationStatuses E w =
     (Ok tt, recordAll (map noOpsWarningEvent (entryPoints E)) w)).
Proof.
  assert (refreshUserOperationStatuses E w =
          (promiseAll (refreshEntryPoint E (submitted w)) (entryPoints E);; ret tt) w)
    as Hrun.
  { unfold refreshUserOperationStatuses, dumpSubmittedOps. rewrite run_bind. cbn [gets].
    rewrite !run_seq.
    rewrite (promiseAll_ext _ (refreshEntryPoint E (submitted w))); [done|].
    intros ep w' _. apply refreshEntryPoint_lookup. }
  split; [exact Hrun|]. split.
  - intros ep Hnone. unfold refreshEntryPoint. by rewrite Hnone.
  - intros Hstray. rewrite Hrun, run_seq.
    rewrite (promiseAll_ext _ (fun ep => emit (noOpsWarningEvent ep))).
    + by rewrite promiseAll_emit.
    + intros ep w' Hep. unfold refreshEntryPoint.
      rewrite opsFor_none; [done|].
      intros e He Heq. apply (Hstray e He). by rewrite Heq.
Qed.

Lemma refresh_by_entry_point_witness :
  refreshUserOperationStatuses quietEnv strayWorld =
    (Ok tt, recordAll [noOpsWarningEvent ep06] strayWorld) ∧
  refreshUserOperationStatuses quietEnv idleWorld =
    (Ok tt, recordAll [noOpsWarningEvent ep06] idleWorld).
Proof.
  destruct (refresh_by_entry_point quietEnv strayWorld) as (_ & _ & Hstray).
  destruct (refresh_by_entry_point quietEnv idleWorld) as (_ & _ & Hidle).
  split.
  - apply Hstray. intros e He. apply list_elem_of_singleton in He. subst e.
    intros Hin. apply list_elem_of_singleton in Hin. discriminate.
  - apply Hidle. intros e He. by apply elem_of_nil in He.
Defined.

(** *** What is changed in place, and what is not *)

Section FieldKept.

Context {A : Type} (f : TransactionInfo -> A).

#[local] Instance fieldKept_preorder : PreOrder (fieldKept f).
Proof.
  split.
  - intros w r txInfo H. eauto.
  - intros w1 w2 w3 H12 H23 r txInfo H.
    destruct (H12 _ _ H) as (t2 & H2 & E2).
    destruct (H23 _ _ H2) as (t3 & H3 & E3).
    exists t3. split; [done|congruence].
Qed.

Lemma fieldKept_same w w' : heap w' = heap w → fieldKept f w w'.
Proof. intros Heq r t H. rewrite Heq. eauto. Qed.

Lemma fieldKept_alter (g : TransactionInfo -> TransactionInfo) r w :
  (∀ t, f (g t) = f t) → fieldKept f w (setHeap (alter g r (heap w)) w).
Proof.
  intros Hg i t H. simpl. destruct (decide (r = i)) as [->|Hne].
  - exists (g t). by rewrite list_lookup_alter_eq, H.
  - exists t. by rewrite list_lookup_alter_ne.
Qed.

Lemma fieldKept_grown more w : fieldKept f w (setHeap (heap w ++ more) w).
Proof. intros r t H. simpl. exists t. split; [|done]. by apply lookup_app_l_Some. Qed.

End FieldKept.

#[local] Existing Instance fieldKept_preorder.

Ltac field_leaf := apply fieldKept_same; reflexivity.
Ltac field_auto := keeps_auto; try field_leaf.

Section FieldKeptBy.

Context {A : Type} (f : TransactionInfo -> A).
Hypothesis count_kept : ∀ t, f (countPotentialInclusion t) = f t.

Lemma removeSubmitted_fieldKept h : keeps (fieldKept f) (removeSubmitted h).
Proof. unfold removeSubmitted. field_auto. Qed.
Lemma replaceSubmitted_fieldKept op r : keeps (fieldKept f) (replaceSubmitted op r).
Proof. unfold replaceSubmitted. field_auto. Qed.
Lemma allocTx_fieldKept txInfo : keeps (fieldKept f) (allocTx txInfo).
Proof. intros w. apply (fieldKept_grown f [txInfo]). Qed.

Lemma replaceTransaction_fieldKept E r reason :
  keeps (fieldKept f) (replaceTransaction E r reason).
Proof.
  pose proof removeSubmitted_fieldKept. pose proof replaceSubmitted_fieldKept.
  pose proof allocTx_fieldKept.
  unfold replaceTransaction, executorReplaceTransaction, markWalletProcessed, updateTx.
  field_auto. by apply fieldKept_alter.
Qed.

Hypothesis bump_kept : ∀ E t, f (bumpForAA95 E t) = f t.

Lemma refreshTransactionStatus_fieldKept E ep r :
  keeps (fieldKept f) (refreshTransactionStatus E ep r).
Proof.
  pose proof removeSubmitted_fieldKept. pose proof replaceTransaction_fieldKept.
  unfold refreshTransactionStatus, resolveStatuses, fetchBundleStatus, onIncluded, onFailed,
    checkFrontrun, markWalletProcessed, updateTx.
  field_auto. by apply fieldKept_alter.
Qed.

Lemma handleBlock_fieldKept E block : keeps (fieldKept f) (handleBlock E block).
Proof.
  pose proof refreshTransactionStatus_fieldKept. pose proof replaceTransaction_fieldKept.
  unfold handleBlock, handleBlockEnter, handleBlockResume, refreshUserOperationStatuses,
    gasPricePass, stuckPass, gasPriceTask, stuckTask, fetchGasPrice, dumpSubmittedOps,
    noOpsWarning, stopWatchingBlocks.
  field_auto.
Qed.

End FieldKeptBy.

Section Unchanged.

(** Bundling allocates, and changes nothing in place. *)
Local Abbreviation whole := (fun t : TransactionInfo => t).

Lemma markSubmitted_unchanged h r : keeps (fieldKept whole) (markSubmitted h r).
Proof.
  unfold markSubmitted. field_auto.
  apply fieldKept_same. by destruct (find _ (processing _)).
Qed.
Lemma removeProcessing_unchanged h : keeps (fieldKept whole) (removeProcessing h).
Proof. unfold removeProcessing. field_auto. Qed.
Lemma mempoolAdd_unchanged op ep : keeps (fieldKept whole) (mempoolAdd op ep).
Proof. unfold mempoolAdd. field_auto. Qed.
Lemma mempoolProcess_unchanged E g n : keeps (fieldKept whole) (mempoolProcess E g n).
Proof. intros w. unfold mempoolProcess. simpl. field_leaf. Qed.
Lemma startWatchingBlocks_unchanged : keeps (fieldKept whole) startWatchingBlocks.
Proof. unfold startWatchingBlocks. field_auto. Qed.
Lemma placeCreated_unchanged reply : keeps (fieldKept whole) (placeCreated reply).
Proof. unfold placeCreated. field_auto. apply fieldKept_grown. Qed.

Lemma handleResults_unchanged E acc results :
  keeps (fieldKept whole) (handleResults E acc results).
Proof.
  pose proof markSubmitted_unchanged. pose proof removeProcessing_unchanged.
  pose proof mempoolAdd_unchanged. pose proof startWatchingBlocks_unchanged.
  revert acc. induction results as [|result results IH]; intros acc; simpl.
  - field_auto.
  - keeps_step; [|apply IH]. unfold handleResult. field_auto.
Qed.

Lemma sendToExecutor_unchanged E ep mops :
  keeps (fieldKept whole) (sendToExecutor E ep mops).
Proof.
  pose proof handleResults_unchanged. pose proof placeCreated_unchanged.
  unfold sendToExecutor, callExecutor, executorBundle, executorBundleCompressed, bundleMetric.
  field_auto.
Qed.

Lemma bundleNow_unchanged E : keeps (fieldKept whole) (bundleNow E).
Proof.
  pose proof sendToExecutor_unchanged. pose proof mempoolProcess_unchanged.
  unfold bundleNow, bundleNowDispatch, bundleNowEntryPoint, noOpsWarning. field_auto.
Qed.

Lemma drainMempool_unchanged E fuel acc : keeps (fieldKept whole) (drainMempool E fuel acc).
Proof.
  pose proof mempoolProcess_unchanged.
  revert acc. induction fuel as [|fuel IH]; intros acc; simpl; field_auto.
Qed.

Lemma bundle_unchanged E fuel : keeps (fieldKept whole) (bundle E fuel).
Proof.
  pose proof sendToExecutor_unchanged. pose proof drainMempool_unchanged.
  unfold bundle, bundleDispatch, bundleBatch, bundleEntryPoint, noOpsWarning. field_auto.
Qed.

End Unchanged.

(** X11.  Of a transaction object the manager changes in place nothing but
    the gas and the nonce of its request and its counter
    [timesPotentiallyIncluded]: after a block tick, however it ends, every
    object is still there with the hash, the earlier hashes, the
    operations, the executor, the version, the time of its last replacement
    and the two fees it had; the transaction that replaces another is a new
    object.  Bundling changes no object at all. *)
Theorem objects_keep_identity (E : Env) (w : World) (r : nat) (txInfo : TransactionInfo) :
  heap w !! r = Some txInfo →
  (∀ block, ∃ txInfo', heap (handleBlock E block w).2 !! r = Some txInfo' ∧
                       identity txInfo' = identity txInfo) ∧
  (∀ ep, ∃ txInfo', heap (refreshTransactionStatus E ep r w).2 !! r = Some txInfo' ∧
                    identity txInfo' = identity txInfo) ∧
  (∀ reason, ∃ txInfo', heap (replaceTransaction E r reason w).2 !! r = Some txInfo' ∧
                        identity txInfo' = identity txInfo) ∧
  heap (bundleNow E w).2 !! r = Some txInfo ∧
  (∀ fuel, heap (bundle E fuel w).2 !! r = Some txInfo) ∧
  (∀ ep mempoolOps, heap (sendToExecutor E ep mempoolOps w).2 !! r = Some txInfo).
Proof.
  intros Hr.
  assert (∀ t, identity (countPotentialInclusion t) = identity t) as Hcount by done.
  assert (∀ E t, identity (bumpForAA95 E t) = identity t) as Hbump by done.
  assert (∀ {B} (m : M B), keeps (fieldKept (fun t : TransactionInfo => t)) m →
            heap (m w).2 !! r = Some txInfo) as Hsame.
  { intros B m Hm. destruct (Hm w r txInfo Hr) as (t' & Ht' & ->). exact Ht'. }
  split_and!.
  - intros block. apply (handleBlock_fieldKept identity Hcount Hbump E block w r txInfo Hr).
  - intros ep.
    apply (refreshTransactionStatus_fieldKept identity Hcount Hbump E ep r w r txInfo Hr).
  - intros reason.
    apply (replaceTransaction_fieldKept identity Hcount E r reason w r txInfo Hr).
  - apply Hsame, bundleNow_unchanged.
  - intros fuel. apply Hsame, bundle_unchanged.
  - intros ep mops. apply Hsame, sendToExecutor_unchanged.
Qed.

Lemma objects_keep_identity_witness :
  (∃ txInfo', heap (handleBlock risingEnv block12 world1).2 !! 0%nat = Some txInfo' ∧
              identity txInfo' = identity tx1) ∧
  heap (handleBlock risingEnv block12 world1).2 !! 1%nat = Some tx2.
Proof.
  destruct (objects_keep_identity risingEnv world1 0%nat tx1 eq_refl) as (Hblock & _).
  split; [apply Hblock|]. vm_compute. reflexivity.
Defined.

(** *** The stuck pass *)

(** The tasks of the pass, run from a world [w] whose objects have the
    time of last replacement they had in [w0], under a clock that shows
    [now] throughout. *)
Lemma stuckTasks_run E now (refs : list nat) (w0 w : World) :
  (∀ w', dateNow E w' = now) →
  fieldKept lastReplaced w0 w →
  (∀ r, r ∈ refs → is_Some (heap w0 !! r)) →
  (promiseAll (stuckTask E) refs w).2 =
    (promiseAll (fun r => replaceTransaction E r "stuck")
       (List.filter (overdue now w0) refs) w).2 ∧
  rejection (promiseAll (stuckTask E) refs w).1 =
    rejection (promiseAll (fun r => replaceTransaction E r "stuck")
                 (List.filter (overdue now w0) refs) w).1.
Proof.
  intros Hclock. revert w. induction refs as [|r refs IH]; intros w Hkept Halloc; [done|].
  destruct (Halloc r) as [t0 Ht0]; [by left|].
  destruct (Hkept r t0 Ht0) as (t & Ht & Hstamp).
  assert (∀ r', r' ∈ refs → is_Some (heap w0 !! r')) as Halloc'.
  { intros r' Hr'. apply Halloc. by right. }
  assert (overdue now w0 r = negb (now - lastReplaced t <? 5 * 60 * 1000)) as Hlate.
  { unfold overdue. rewrite Ht0, Hstamp. apply Z.leb_antisym. }
  assert (stuckTask E r w =
          if now - lastReplaced t <? 5 * 60 * 1000 then (Ok tt, w)
          else replaceTransaction E r "stuck" w) as Htask.
  { unfold stuckTask. rewrite (run_readTx_bind r w t _ Ht). rewrite run_bind. cbn [gets].
    rewrite Hclock. by destruct (now - lastReplaced t <? 5 * 60 * 1000). }
  cbn [promiseAll List.filter]. rewrite Hlate, Htask.
  destruct (now - lastReplaced t <? 5 * 60 * 1000); cbn [negb promiseAll].
  - destruct (IH w Hkept Halloc') as [IH1 IH2].
    destruct (promiseAll (stuckTask E) refs w) as [rs w2].
    simpl in *. split; [done|]. by destruct rs.
  - pose proof (replaceTransaction_fieldKept lastReplaced (fun _ => eq_refl)
                  E r "stuck" w) as Hstep.
    destruct (replaceTransaction E r "stuck" w) as [res w1]. simpl in Hstep.
    destruct (IH w1 (transitivity Hkept Hstep) Halloc') as [IH1 IH2].
    destruct (promiseAll (stuckTask E) refs w1) as [rs w2].
    destruct (promiseAll _ (List.filter _ refs) w1) as [rs' w2'].
    simpl in *. split; [done|].
    destruct res, rs, rs'; simpl in *; congruence.
Qed.

(** X12.  Let the clock show [now] throughout the stuck pass, and let
    [refs] be the transactions of the submitted store when the pass begins.
    The pass does what [replaceTransaction] with the reason stuck does, in
    order, for those of [refs] that were last replaced five minutes ago or
    more (300000 ms, the bound included), and nothing for the others. *)
Theorem stuck_replacement (E : Env) (w : World) (now : Z) :
  (∀ w', dateNow E w' = now) →
  let refs := getTransactionsFromUserOperationEntries (submitted w) in
  let late := List.filter (overdue now w) refs in
  (∀ r, r ∈ refs → is_Some (heap w !! r)) →
  (∀ r txInfo, r ∈ refs → heap w !! r = Some txInfo →
     (r ∈ late ↔ 300000 ≤ now - lastReplaced txInfo)) ∧
  (∀ r txInfo w', heap w' !! r = Some txInfo → now - lastReplaced txInfo < 300000 →
     stuckTask E r w' = (Ok tt, w')) ∧
  (stuckPass E w).2 = (promiseAll (fun r => replaceTransaction E r "stuck") late w).2 ∧
  rejection (stuckPass E w).1 =
    rejection (promiseAll (fun r => replaceTransaction E r "stuck") late w).1.
Proof.
  intros Hclock refs late Halloc.
  destruct (stuckTasks_run E now refs w w Hclock (reflexivity w) Halloc) as [Hworld Hrej].
  assert (stuckPass E w = (promiseAll (stuckTask E) refs;; ret tt) w) as Hpass.
  { unfold stuckPass, dumpSubmittedOps. by rewrite run_bind. }
  split_and!.
  - intros r txInfo Hr Htx. unfold late.
    rewrite (list_elem_of_In (List.filter _ _)), filter_In, <- list_elem_of_In.
    unfold overdue. rewrite Htx, Z.leb_le. change (5 * 60 * 1000) with 300000. tauto.
  - intros r txInfo w' Htx Hrecent. unfold stuckTask.
    rewrite (run_readTx_bind r w' txInfo _ Htx). rewrite run_bind. cbn [gets].
    rewrite Hclock. change (5 * 60 * 1000) with 300000.
    by destruct (Z.ltb_spec (now - lastReplaced txInfo) 300000); [|lia].
  - rewrite Hpass, run_seq.
    destruct (promiseAll (stuckTask E) refs w) as [[rs|e] w2]; simpl in *; done.
  - rewrite Hpass, run_seq.
    destruct (promiseAll (stuckTask E) refs w) as [[rs|e] w2]; simpl in *; done.
Qed.

Lemma stuck_replacement_witness :
  (stuckPass laterEnv world1).2 = (replaceTransaction laterEnv 0%nat "stuck" world1).2 ∧
  submitted (stuckPass laterEnv world1).2 = [] ∧
  (stuckPass quietEnv world1).2 = world1.
Proof.
  assert (∀ r, r ∈ getTransactionsFromUserOperationEntries (submitted world1) →
               is_Some (heap world1 !! r)) as Halloc.
  { intros r Hr.
    change (getTransactionsFromUserOperationEntries (submitted world1)) with [0%nat] in Hr.
    apply list_elem_of_singleton in Hr. subst r. eexists. reflexivity. }
  destruct (stuck_replacement laterEnv world1 301000 (fun _ => eq_refl) Halloc)
    as (_ & _ & Hlate & _).
  destruct (stuck_replacement quietEnv world1 2000 (fun _ => eq_refl) Halloc)
    as (_ & _ & Hquiet & _).
  split; [|split].
  - rewrite Hlate. reflexivity.
  - rewrite Hlate. reflexivity.
  - rewrite Hquiet. reflexivity.
Defined.

(** *** Who calls whom *)

#[local] Instance callsOnly_preorder P : PreOrder (callsOnly P).
Proof.
  split.
  - intros w. exists []. by rewrite app_nil_r.
  - intros w1 w2 w3 (e1 & H1 & P1) (e2 & H2 & P2). exists (e1 ++ e2).
    rewrite H2, H1, app_assoc, forallb_app, P1, P2. done.
Qed.

Lemma callsOnly_same P w w' : trace w' = trace w → callsOnly P w w'.
Proof. intros Heq. exists []. by rewrite app_nil_r. Qed.

Lemma callsOnly_record P ev w : P ev = true → callsOnly P w (record ev w).
Proof. intros Hev. exists [ev]. simpl. by rewrite Hev. Qed.

#[local] Instance intakeKept_preorder : PreOrder intakeKept.
Proof.
  split; [done|]. intros w1 w2 w3 [H1 H2] [K1 K2]. split; congruence.
Qed.

Ltac calls_leaf :=
  first [ apply callsOnly_record; reflexivity
        | apply callsOnly_same; reflexivity
        | split; reflexivity ].
Ltac calls_auto := keeps_auto; try calls_leaf.

Local Abbreviation upkeepOnly := (callsOnly (fun ev => negb (isIntake ev))).
Local Abbreviation intakeOnly := (callsOnly (fun ev => negb (isUpkeep ev))).

Section Calls.

Context (P : Event -> bool).

Lemma allocTx_callsOnly txInfo : keeps (callsOnly P) (allocTx txInfo).
Proof. intros w. by apply callsOnly_same. Qed.
Lemma updateTx_callsOnly r f : keeps (callsOnly P) (updateTx r f).
Proof. unfold updateTx. calls_auto. Qed.
Lemma placeCreated_callsOnly reply : keeps (callsOnly P) (placeCreated reply).
Proof. unfold placeCreated. calls_auto. Qed.

End Calls.

Lemma removeSubmitted_upkeepOnly h : keeps upkeepOnly (removeSubmitted h).
Proof. unfold removeSubmitted. calls_auto. Qed.

Lemma replaceTransaction_upkeepOnly E r reason : keeps upkeepOnly (replaceTransaction E r reason).
Proof.
  pose proof (allocTx_callsOnly (fun ev => negb (isIntake ev))).
  pose proof (updateTx_callsOnly (fun ev => negb (isIntake ev))).
  pose proof removeSubmitted_upkeepOnly.
  unfold replaceTransaction, executorReplaceTransaction, markWalletProcessed, replaceSubmitted.
  calls_auto.
Qed.

Lemma refreshTransactionStatus_upkeepOnly E ep r :
  keeps upkeepOnly (refreshTransactionStatus E ep r).
Proof.
  pose proof (updateTx_callsOnly (fun ev => negb (isIntake ev))).
  pose proof removeSubmitted_upkeepOnly. pose proof replaceTransaction_upkeepOnly.
  unfold refreshTransactionStatus, resolveStatuses, fetchBundleStatus, onIncluded, onFailed,
    checkFrontrun, markWalletProcessed.
  calls_auto.
Qed.

Lemma handleBlock_upkeepOnly E block : keeps upkeepOnly (handleBlock E block).
Proof.
  pose proof refreshTransactionStatus_upkeepOnly. pose proof replaceTransaction_upkeepOnly.
  unfold handleBlock, handleBlockEnter, handleBlockResume, stopWatchingBlocks,
    refreshUserOperationStatuses, gasPricePass, stuckPass, gasPriceTask, stuckTask,
    fetchGasPrice, dumpSubmittedOps, noOpsWarning.
  calls_auto.
Qed.

(** The same calls leave alone what has not been sent yet. *)
Lemma replaceTransaction_intakeKept E r reason : keeps intakeKept (replaceTransaction E r reason).
Proof.
  assert (∀ txInfo, keeps intakeKept (allocTx txInfo)) by (intros ? ?; done).
  unfold replaceTransaction, executorReplaceTransaction, markWalletProcessed, replaceSubmitted,
    removeSubmitted, updateTx.
  calls_auto.
Qed.

Lemma refreshTransactionStatus_intakeKept E ep r :
  keeps intakeKept (refreshTransactionStatus E ep r).
Proof.
  pose proof replaceTransaction_intakeKept.
  unfold refreshTransactionStatus, resolveStatuses, fetchBundleStatus, onIncluded, onFailed,
    checkFrontrun, markWalletProcessed, removeSubmitted, updateTx.
  calls_auto.
Qed.

Lemma handleBlock_intakeKept E block : keeps intakeKept (handleBlock E block).
Proof.
  pose proof refreshTransactionStatus_intakeKept. pose proof replaceTransaction_intakeKept.
  unfold handleBlock, handleBlockEnter, handleBlockResume, stopWatchingBlocks,
    refreshUserOperationStatuses, gasPricePass, stuckPass, gasPriceTask, stuckTask,
    fetchGasPrice, dumpSubmittedOps, noOpsWarning.
  calls_auto.
Qed.

Lemma handleResults_intakeOnly E acc results : keeps intakeOnly (handleResults E acc results).
Proof.
  revert acc. induction results as [|result results IH]; intros acc; simpl.
  - calls_auto.
  - keeps_step; [|apply IH].
    unfold handleResult, markSubmitted, removeProcessing, mempoolAdd, startWatchingBlocks.
    calls_auto. apply callsOnly_same. by destruct (find _ (processing _)).
Qed.

Lemma sendToExecutor_intakeOnly E ep mops : keeps intakeOnly (sendToExecutor E ep mops).
Proof.
  pose proof handleResults_intakeOnly.
  pose proof (placeCreated_callsOnly (fun ev => negb (isUpkeep ev))).
  unfold sendToExecutor, callExecutor, executorBundle, executorBundleCompressed, bundleMetric.
  calls_auto.
Qed.

Lemma mempoolProcess_intakeOnly E g n : keeps intakeOnly (mempoolProcess E g n).
Proof.
  intros w. unfold mempoolProcess. simpl.
  exists [EvMempoolProcess g n]. done.
Qed.

Lemma bundleNow_intakeOnly E : keeps intakeOnly (bundleNow E).
Proof.
  pose proof sendToExecutor_intakeOnly. pose proof mempoolProcess_intakeOnly.
  unfold bundleNow, bundleNowDispatch, bundleNowEntryPoint, noOpsWarning. calls_auto.
Qed.

Lemma drainMempool_intakeOnly E fuel acc : keeps intakeOnly (drainMempool E fuel acc).
Proof.
  pose proof mempoolProcess_intakeOnly.
  revert acc. induction fuel as [|fuel IH]; intros acc; simpl; calls_auto.
Qed.

Lemma bundle_intakeOnly E fuel : keeps intakeOnly (bundle E fuel).
Proof.
  pose proof sendToExecutor_intakeOnly. pose proof drainMempool_intakeOnly.
  unfold bundle, bundleDispatch, bundleBatch, bundleEntryPoint, noOpsWarning. calls_auto.
Qed.

(** The block-handler flag is not touched by bundling. *)
Lemma handleResults_flagKept E acc results : keeps flagKept (handleResults E acc results).
Proof.
  revert acc. induction results as [|result results IH]; intros acc; simpl.
  - keeps_auto.
  - keeps_step; [|apply IH].
    unfold handleResult, markSubmitted, removeProcessing, mempoolAdd, startWatchingBlocks.
    keeps_auto. unfold flagKept. by destruct (find _ (processing _)).
Qed.

Lemma sendToExecutor_flagKept E ep mops : keeps flagKept (sendToExecutor E ep mops).
Proof.
  pose proof handleResults_flagKept.
  unfold sendToExecutor, callExecutor, executorBundle, executorBundleCompressed,
    placeCreated, bundleMetric.
  keeps_auto.
Qed.

Lemma mempoolProcess_flagKept E g n : keeps flagKept (mempoolProcess E g n).
Proof. intros w. done. Qed.

Lemma bundleNow_flagKept E : keeps flagKept (bundleNow E).
Proof.
  pose proof sendToExecutor_flagKept. pose proof mempoolProcess_flagKept.
  unfold bundleNow, bundleNowDispatch, bundleNowEntryPoint, noOpsWarning. keeps_auto.
Qed.

Lemma drainMempool_flagKept E fuel acc : keeps flagKept (drainMempool E fuel acc).
Proof.
  pose proof mempoolProcess_flagKept.
  revert acc. induction fuel as [|fuel IH]; intros acc; simpl; keeps_auto.
Qed.

Lemma bundle_flagKept E fuel : keeps flagKept (bundle E fuel).
Proof.
  pose proof sendToExecutor_flagKept. pose proof drainMempool_flagKept.
  unfold bundle, bundleDispatch, bundleBatch, bundleEntryPoint, noOpsWarning. keeps_auto.
Qed.

(** X13.  The block handler and the bundler share no collaborator call
    but the log and the metrics.  A block tick, however it ends, never asks
    the mempool for operations, never adds, marks or removes an operation
    that is being processed, never calls the executor to bundle and never
    subscribes to blocks; it leaves the processing store and the
    outstanding operations as they are.  Bundling ([bundleNow], [bundle],
    [sendToExecutor]) never asks the chain for a status or the oracle for a
    gas price, never has a transaction replaced, never removes or rebinds
    a submitted operation, never unsubscribes; and it leaves the
    block-handler flag as it is. *)
Theorem division_of_calls (E : Env) (w : World) :
  (∀ block,
     callsOnly (fun ev => negb (isIntake ev)) w (handleBlock E block w).2 ∧
     processing (handleBlock E block w).2 = processing w ∧
     outstanding (handleBlock E block w).2 = outstanding w) ∧
  (callsOnly (fun ev => negb (isUpkeep ev)) w (bundleNow E w).2 ∧
   currentlyHandlingBlock (bundleNow E w).2 = currentlyHandlingBlock w) ∧
  (∀ fuel,
     callsOnly (fun ev => negb (isUpkeep ev)) w (bundle E fuel w).2 ∧
     currentlyHandlingBlock (bundle E fuel w).2 = currentlyHandlingBlock w) ∧
  (∀ ep mempoolOps,
     callsOnly (fun ev => negb (isUpkeep ev)) w (sendToExecutor E ep mempoolOps w).2 ∧
     currentlyHandlingBlock (sendToExecutor E ep mempoolOps w).2 = currentlyHandlingBlock w).
Proof.
  split; [|split; [|split]].
  - intros block.
    split; [apply (handleBlock_upkeepOnly E block w)|apply (handleBlock_intakeKept E block w)].
  - split; [apply (bundleNow_intakeOnly E w)|apply (bundleNow_flagKept E w)].
  - intros fuel. split; [apply (bundle_intakeOnly E fuel w)|apply (bundle_flagKept E fuel w)].
  - intros ep mops.
    split; [apply (sendToExecutor_intakeOnly E ep mops w)
           |apply (sendToExecutor_flagKept E ep mops w)].
Qed.

(** *** The loop of [bundle] *)

Lemma run_mempoolProcess E g n w :
  mempoolProcess E g n w =
    (Ok (mempool_process E w g n),
     setProcessing (processing w ++ mempool_process E w g n) (record (EvMempoolProcess g n) w)).
Proof. reflexivity. Qed.

Lemma run_mempoolProcess_empty E g n w :
  mempool_process E w g n = [] →
  mempoolProcess E g n w = (Ok [], record (EvMempoolProcess g n) w).
Proof.
  intros Hnone. rewrite run_mempoolProcess, Hnone, app_nil_r. by destruct w.
Qed.

(** What the loop has done when it ends. *)
Lemma drainMempool_collects E fuel acc w opsToBundle w' :
  drainMempool E fuel acc w = (Ok (Some opsToBundle), w') →
  ∃ batches,
    opsToBundle = acc ++ batches ∧
    Forall (fun ops => ops ≠ []) batches ∧
    trace w' = trace w ++ replicate (S (length batches)) drainCall ∧
    processing w' = processing w ++ concat batches ∧
    heap w' = heap w ∧ submitted w' = submitted w ∧ outstanding w' = outstanding w ∧
    currentlyHandlingBlock w' = currentlyHandlingBlock w ∧ unWatch w' = unWatch w.
Proof.
  revert acc w. induction fuel as [|fuel IH]; intros acc w; simpl; [done|].
  rewrite run_bind, run_mempoolProcess.
  destruct (mempool_process E w 5000000 1) as [|op ops] eqn:Hops; simpl.
  - unfold ret, mret, M_ret. intros H. simplify_eq. exists []. simpl.
    rewrite !app_nil_r. done.
  - intros Hrest. destruct (IH _ _ Hrest) as (batches & -> & Hne & Htr & Hpr & Hrest').
    exists ((op :: ops) :: batches). simpl in *.
    split_and!; try tauto.
    + by rewrite <- app_assoc.
    + by constructor.
    + rewrite Htr, <- app_assoc. done.
    + rewrite Hpr, <- app_assoc. done.
Qed.

Lemma drainMempool_returns E fuel acc w :
  ∃ out w', drainMempool E fuel acc w = (Ok out, w').
Proof.
  revert acc w. induction fuel as [|fuel IH]; intros acc w; simpl; [by eexists _, _|].
  rewrite run_bind, run_mempoolProcess.
  destruct (0 <? length _)%nat; [apply IH|by eexists _, _].
Qed.

(** The bound on the number of rounds is of the model alone: a run that
    has ended ends the same under any larger bound. *)
Lemma drainMempool_more_fuel E fuel fuel' acc w opsToBundle w' :
  drainMempool E fuel acc w = (Ok (Some opsToBundle), w') → (fuel ≤ fuel')%nat →
  drainMempool E fuel' acc w = (Ok (Some opsToBundle), w').
Proof.
  revert fuel' acc w. induction fuel as [|fuel IH]; intros fuel' acc w; simpl; [done|].
  destruct fuel' as [|fuel']; [lia|]. simpl.
  rewrite !run_bind, run_mempoolProcess.
  destruct (0 <? length _)%nat; [|done].
  intros Hrun Hle. apply IH; [done|lia].
Qed.

(** X14.  The loop at the head of [bundle] asks the mempool for batches,
    always with the gas limit 5000000 and the minimum 1 whatever
    [maxGasLimitPerBundle] is configured, until a batch comes back empty;
    it never raises.  When it ends it has collected the batches handed out
    before, none of them empty, in the order they came, and has called the
    mempool once more than there are batches.  With a mempool that is
    empty at once, [bundle] returns after this one call and does nothing
    else: unlike [bundleNow], it neither raises nor logs. *)
Theorem bundle_drains (E : Env) (w : World) :
  (∀ fuel acc, ∃ out w', drainMempool E fuel acc w = (Ok out, w')) ∧
  (∀ fuel acc opsToBundle w',
     drainMempool E fuel acc w = (Ok (Some opsToBundle), w') →
     ∃ batches,
       opsToBundle = acc ++ batches ∧
       Forall (fun ops => ops ≠ []) batches ∧
       trace w' = trace w ++ replicate (S (length batches)) (EvMempoolProcess 5000000 1) ∧
       processing w' = processing w ++ concat batches ∧
       heap w' = heap w ∧ submitted w' = submitted w ∧ outstanding w' = outstanding w ∧
       currentlyHandlingBlock w' = currentlyHandlingBlock w ∧ unWatch w' = unWatch w) ∧
  (∀ fuel fuel' acc opsToBundle w',
     drainMempool E fuel acc w = (Ok (Some opsToBundle), w') → (fuel ≤ fuel')%nat →
     drainMempool E fuel' acc w = (Ok (Some opsToBundle), w')) ∧
  (mempool_process E w 5000000 1 = [] →
   ∀ fuel, bundle E (S fuel) w = (Ok (Some tt), record (EvMempoolProcess 5000000 1) w)) ∧
  (∀ fuel opsToBundle w',
     drainMempool E fuel [] w = (Ok (Some opsToBundle), w') → opsToBundle ≠ [] →
     bundle E fuel w = (promiseAll (bundleBatch E) opsToBundle;; ret (Some tt)) w').
Proof.
  split_and!.
  - intros fuel acc. apply drainMempool_returns.
  - intros fuel acc opsToBundle w'. apply drainMempool_collects.
  - intros fuel fuel' acc opsToBundle w'. apply drainMempool_more_fuel.
  - intros Hnone fuel. unfold bundle. simpl.
    rewrite !run_bind, (run_mempoolProcess_empty E _ _ w Hnone). done.
  - intros fuel opsToBundle w' Hdrain Hne. unfold bundle.
    rewrite (run_bind_ok _ _ _ _ _ Hdrain). unfold bundleDispatch.
    destruct opsToBundle as [|ops rest]; [done|]. cbn [length Nat.eqb].
    rewrite !run_seq.
    by destruct (promiseAll (bundleBatch E) (ops :: rest) w') as [[?|?] ?].
Qed.

Lemma bundle_drains_witness :
  (∃ batches,
     [[opInfo1; opInfo2]] = [] ++ batches ∧
     trace (drainMempool onceEnv 2 [] freshWorld).2 =
       trace freshWorld ++ replicate (S (length batches)) (EvMempoolProcess 5000000 1)) ∧
  drainMempool onceEnv 7 [] freshWorld = drainMempool onceEnv 2 [] freshWorld ∧
  bundle onceEnv 1 drainedWorld =
    (Ok (Some tt), record (EvMempoolProcess 5000000 1) drainedWorld).
Proof.
  destruct (bundle_drains onceEnv freshWorld) as (_ & Hcollects & Hfuel & _).
  destruct (bundle_drains onceEnv drainedWorld) as (_ & _ & _ & Hempty & _).
  split; [|split].
  - destruct (Hcollects 2%nat [] [[opInfo1; opInfo2]] (drainMempool onceEnv 2 [] freshWorld).2)
      as (batches & Hb & _ & Htrace & _); [reflexivity|].
    exists batches. split; [exact Hb|exact Htrace].
  - apply (Hfuel 2%nat 7%nat); [reflexivity|lia].
  - apply Hempty. reflexivity.
Defined.

(** *** [bundleNow] *)

Lemma bundleNowEntryPoint_pushed E (opMap : gmap string (list MempoolUserOperation)) ep w
    pushed w' :
  bundleNowEntryPoint E opMap ep w = (Ok pushed, w') →
  match opMap !! ep with
  | Some _ => ∃ h, pushed = Some h ∧ h ≠ EmptyString
  | None => pushed = None
  end.
Proof.
  unfold bundleNowEntryPoint. destruct (opMap !! ep) as [ops|].
  - rewrite run_bind. destruct (sendToExecutor E ep ops w) as [[[h|]|e] w1]; simpl; [|done..].
    case_bool_decide as Hh; [done|]. unfold ret, mret, M_ret. intros Heq. simplify_eq. eauto.
  - unfold noOpsWarning. rewrite run_seq, run_log. unfold ret, mret, M_ret.
    intros H. by simplify_eq.
Qed.

Lemma promiseAll_bundleNow_pushed E (opMap : gmap string (list MempoolUserOperation))
    (eps : list string) w pushed w' :
  promiseAll (bundleNowEntryPoint E opMap) eps w = (Ok pushed, w') →
  length (omap id pushed) =
    length (List.filter (fun ep => bool_decide (is_Some (opMap !! ep))) eps) ∧
  Forall (fun h => h ≠ EmptyString) (omap id pushed).
Proof.
  revert w pushed. induction eps as [|ep eps IH]; intros w pushed; simpl.
  - intros H. simplify_eq. done.
  - destruct (bundleNowEntryPoint E opMap ep w) as [[p|e] w1] eqn:Hep;
      [|destruct (promiseAll _ eps w1) as [? ?]; done].
    destruct (promiseAll _ eps w1) as [[ps|e] w2] eqn:Hrest; [|done].
    intros H. simplify_eq. destruct (IH _ _ Hrest) as [Hlen Hall].
    apply bundleNowEntryPoint_pushed in Hep.
    destruct (opMap !! ep) as [ops|].
    + destruct Hep as (h & -> & Hh). rewrite bool_decide_true by eauto.
      split; [simpl; f_equal; exact Hlen|by constructor].
    + subst p. rewrite bool_decide_false by (intros [? ?]; done). done.
Qed.



(** *** The calls of the executor *)

Lemma payload_partition (mempoolOps : list MempoolUserOperation) :
  map payload mempoolOps ≡ₚ plainOps mempoolOps ++ compressedOps mempoolOps.
Proof.
  unfold plainOps, compressedOps. induction mempoolOps as [|op ops IH]; [done|].
  destruct op; simpl.
  - by constructor.
  - rewrite IH. apply Permutation_middle.
Qed.

Lemma run_placeCreated reply w :
  placeCreated (Ok reply) w = (Ok (results reply), setHeap (heap w ++ created reply) w).
Proof. reflexivity. Qed.

Lemma callExecutor_calls E ep mempoolOps w bundles w1 :
  callExecutor E ep mempoolOps w = (Ok bundles, w1) →
  trace w1 = trace w ++ executorCalls ep mempoolOps ∧
  length bundles = length (executorCalls ep mempoolOps).
Proof.
  unfold callExecutor, executorCalls. cbv zeta. rewrite run_bind.
  destruct (0 <? length (plainOps mempoolOps))%nat.
  - rewrite run_bind. unfold executorBundle.
    rewrite run_seq, run_emit, run_bind. cbn [gets].
    destruct (executor_bundle E _ ep _) as [reply|e]; [|done].
    rewrite run_placeCreated. cbn [ret mret M_ret]. rewrite run_bind.
    destruct (0 <? length (compressedOps mempoolOps))%nat.
    + rewrite run_bind. unfold executorBundleCompressed.
      rewrite run_seq, run_emit, run_bind. cbn [gets].
      destruct (executor_bundleCompressed E _ ep _) as [reply2|e]; [|done].
      rewrite run_placeCreated. unfold ret, mret, M_ret. intros H. simplify_eq.
      simpl. by rewrite <- app_assoc.
    + unfold ret, mret, M_ret. intros H. simplify_eq. done.
  - unfold ret at 1, mret, M_ret. rewrite run_bind.
    destruct (0 <? length (compressedOps mempoolOps))%nat.
    + rewrite run_bind. unfold executorBundleCompressed.
      rewrite run_seq, run_emit, run_bind. cbn [gets].
      destruct (executor_bundleCompressed E _ ep _) as [reply2|e]; [|done].
      rewrite run_placeCreated. unfold ret, mret, M_ret. intros H. simplify_eq. done.
    + unfold ret, mret, M_ret. intros H. simplify_eq. simpl. by rewrite app_nil_r.
Qed.

(** X16.  Every operation given to [sendToExecutor] goes to exactly one of
    the two calls of the executor: the plain ones to [bundle], the
    compressed ones to [bundleCompressed], in both cases in the order they
    have in the list; a call is made only for a list that is not empty, and
    [bundle] is called first.  When [bundle] is rejected,
    [sendToExecutor] is rejected with the same error, [bundleCompressed]
    is not called and no result is handled.  For an empty list nothing
    happens and [undefined] is returned. *)
Theorem executor_calls (E : Env) (ep : Address) (mempoolOps : list MempoolUserOperation)
    (w : World) :
  map payload mempoolOps ≡ₚ plainOps mempoolOps ++ compressedOps mempoolOps ∧
  (∀ bundles w1, callExecutor E ep mempoolOps w = (Ok bundles, w1) →
     trace w1 = trace w ++ executorCalls ep mempoolOps ∧
     length bundles = length (executorCalls ep mempoolOps)) ∧
  (∀ e, plainOps mempoolOps ≠ [] →
     executor_bundle E (record (EvExecutorBundle ep (plainOps mempoolOps)) w) ep
       (plainOps mempoolOps) = Throw e →
     sendToExecutor E ep mempoolOps w =
       (Throw e, record (EvExecutorBundle ep (plainOps mempoolOps)) w)) ∧
  sendToExecutor E ep [] w = (Ok None, w).
Proof.
  split_and!.
  - apply payload_partition.
  - intros bundles w1. apply callExecutor_calls.
  - intros e Hplain Hthrow. apply callExecutor_throw.
    unfold callExecutor. cbv zeta. rewrite run_bind.
    destruct (plainOps mempoolOps) as [|op ops] eqn:Hops; [done|]. cbn [length Nat.ltb Nat.leb].
    rewrite run_bind. unfold executorBundle.
    rewrite run_seq, run_emit, run_bind. cbn [gets]. by rewrite Hthrow.
  - reflexivity.
Qed.

Lemma executor_calls_witness :
  sendToExecutor bundlerDown ep06 [Plain "op1"; Compressed "op3"] freshWorld =
    (Throw (CollaboratorError "executor unavailable"),
     record (EvExecutorBundle ep06 ["op1"]) freshWorld) ∧
  trace (callExecutor bundlingEnv ep06 [Plain "op1"; Compressed "op3"; Plain "op2"]
           freshWorld).2 =
    [EvExecutorBundle ep06 ["op1"; "op2"]; EvExecutorBundleCompressed ep06 ["op3"]].
Proof.
  destruct (executor_calls bundlerDown ep06 [Plain "op1"; Compressed "op3"] freshWorld)
    as (_ & _ & Hdown & _).
  destruct (executor_calls bundlingEnv ep06 [Plain "op1"; Compressed "op3"; Plain "op2"]
              freshWorld) as (_ & Hcalls & _).
  split.
  - apply (Hdown (CollaboratorError "executor unavailable")); [discriminate|reflexivity].
  - destruct (Hcalls [[success opInfo1 0%nat; success opInfo2 0%nat]; []]
                (callExecutor bundlingEnv ep06 [Plain "op1"; Compressed "op3"; Plain "op2"]
                   freshWorld).2) as [Htrace _]; [reflexivity|].
    rewrite Htrace. reflexivity.
Defined.

(** *** What becomes of the results *)

Lemma run_markSubmitted h t w :
  ∃ w1, markSubmitted h t w = (Ok tt, w1) ∧
        heap w1 = heap w ∧ unWatch w1 = unWatch w ∧
        trace w1 = trace w ++ [EvMempoolMarkSubmitted h t].
Proof.
  unfold markSubmitted. rewrite run_seq, run_emit. unfold modify. eexists. split; [done|].
  by destruct (find _ (processing _)).
Qed.

Lemma run_startWatchingBlocks w :
  ∃ evs, startWatchingBlocks w = (Ok tt, setUnWatch true (recordAll evs w)).
Proof.
  unfold startWatchingBlocks. rewrite run_bind. cbn [gets].
  destruct (unWatch w) eqn:Hw.
  - exists []. rewrite recordAll_nil. unfold ret, mret, M_ret. f_equal.
    destruct w; simpl in *; by subst.
  - exists [EvWatchBlocks; EvLog lvl_debug "started watching blocks" []].
    rewrite run_seq. unfold modify at 1. cbv iota beta. rewrite run_seq, run_emit, run_log.
    f_equal. unfold setUnWatch, recordAll, record. simpl. by rewrite <- app_assoc.
Qed.

(** What [handleResult] does for a result with the status success. *)
Lemma run_handleResult_success E acc u t w txInfo :
  heap w !! t = Some txInfo →
  ∃ w1 evs,
    handleResult E acc (success u t) w = (Ok (Some (transactionHash txInfo)), w1) ∧
    heap w1 = heap w ∧ unWatch w1 = true ∧
    trace w1 =
      trace w ++
        [EvMempoolMarkSubmitted (userOperationHash u) t;
         EvMonitorStatus (userOperationHash u) "submitted" (Some (transactionHash txInfo))] ++
        evs ++ [EvMetric "userOperationsSubmitted" ["success"] 1].
Proof.
  intros Ht. cbn [handleResult].
  destruct (run_markSubmitted (userOperationHash u) t w) as (w0 & Hm & Hheap & _ & Htr).
  rewrite run_seq, Hm. cbv iota beta.
  rewrite (run_readTx_bind t w0 txInfo) by (by rewrite Hheap).
  rewrite run_seq, run_emit. cbv iota beta.
  destruct (run_startWatchingBlocks
              (record (EvMonitorStatus (userOperationHash u) "submitted"
                         (Some (transactionHash txInfo))) w0)) as (evs & Hs).
  rewrite run_seq, Hs. cbv iota beta. rewrite run_seq, run_emit. cbv iota beta.
  eexists _, evs. split; [reflexivity|]. simpl. rewrite Htr.
  split; [done|]. split; [done|]. by repeat (rewrite <- app_assoc; simpl).
Qed.

Lemma run_handleResult_failure E acc h reason op w :
  handleResult E acc (failure h reason op) w =
    (Ok acc,
     setProcessing (List.filter (otherHash h) (processing w))
       (recordAll
          [EvMempoolRemoveProcessing h; EvEmitDropped h reason (getAAError E reason);
           EvMonitorStatus h "rejected" None;
           EvLog lvl_warn "user operation rejected" [h; reason];
           EvMetric "userOperationsSubmitted" ["failed"] 1] w)).
Proof.
  cbn [handleResult]. unfold removeProcessing.
  rewrite !run_seq, run_emit. unfold modify. cbv iota beta.
  rewrite run_seq, run_emit. cbv iota beta. rewrite run_seq, run_emit. cbv iota beta.
  rewrite run_seq, run_log. cbv iota beta. rewrite run_seq, run_emit. cbv iota beta.
  unfold ret, mret, M_ret. f_equal.
  unfold setProcessing, recordAll, record. simpl. f_equal.
  by repeat (rewrite <- app_assoc; simpl).
Qed.

Lemma run_handleResult_resubmit E acc h op ep reason w :
  handleResult E acc (resubmit h op ep reason) w =
    (Ok acc,
     setOutstanding (outstanding w ++ [(op, ep)])
       (setProcessing (List.filter (otherHash h) (processing w))
          (recordAll
             [EvLog lvl_info "resubmitting user operation" [h; reason];
              EvMempoolRemoveProcessing h; EvMempoolAdd op ep;
              EvMetric "userOperationsResubmitted" [] 1] w))).
Proof.
  cbn [handleResult]. unfold removeProcessing, mempoolAdd.
  rewrite run_seq, run_log. cbv iota beta.
  rewrite !run_seq, run_emit. unfold modify. cbv iota beta.
  rewrite !run_seq, run_emit. cbv iota beta.
  rewrite run_seq, run_emit. cbv iota beta.
  unfold ret, mret, M_ret. f_equal.
  unfold setOutstanding, setProcessing, recordAll, record. simpl. f_equal.
  by repeat (rewrite <- app_assoc; simpl).
Qed.

Ltac pick_event :=
  solve [ repeat first [ apply list_elem_of_here | apply list_elem_of_further
                       | (apply elem_of_app; right) ] ].
Ltac each_event H :=
  repeat (apply elem_of_cons in H as [->|H]); [pick_event..|by apply elem_of_nil in H].

(** One result: what is told of it, what it does to the heap and to the
    subscription. *)
Lemma handleResult_step E acc result w :
  (∀ u t, result = success u t → is_Some (heap w !! t)) →
  ∃ acc' w1,
    handleResult E acc result w = (Ok acc', w1) ∧
    heap w1 = heap w ∧
    (unWatch w1 = if isSuccess result then true else unWatch w) ∧
    (∃ evs, trace w1 = trace w ++ evs ∧ ∀ ev, ev ∈ reportOf E w result → ev ∈ evs).
Proof.
  intros Halloc. destruct result as [u t|h reason op|h op ep reason].
  - destruct (Halloc u t eq_refl) as [txInfo Ht].
    destruct (run_handleResult_success E acc u t w txInfo Ht)
      as (w1 & evs & Hrun & Hheap & Hwatch & Htrace).
    eexists _, w1. split; [exact Hrun|]. split; [done|]. split; [done|].
    eexists. split; [exact Htrace|]. intros ev Hev. unfold reportOf, hashOfRef in Hev.
    rewrite Ht in Hev. simpl in Hev. simpl. each_event Hev.
  - rewrite run_handleResult_failure. eexists _, _. split; [done|]. simpl.
    split; [done|]. split; [done|]. eexists. split; [done|].
    intros ev Hev. simpl in Hev. each_event Hev.
  - rewrite run_handleResult_resubmit. eexists _, _. split; [done|]. simpl.
    split; [done|]. split; [done|]. eexists. split; [done|].
    intros ev Hev. simpl in Hev. each_event Hev.
Qed.

(** All results: none of them makes the loop raise, each is reported, and
    the manager is subscribed to blocks from the first success on. *)
Lemma handleResults_steps E acc (results : list BundleResult) (w : World) :
  (∀ u t, success u t ∈ results → is_Some (heap w !! t)) →
  ∃ acc' w',
    handleResults E acc results w = (Ok acc', w') ∧
    heap w' = heap w ∧
    (unWatch w' = if existsb isSuccess results then true else unWatch w) ∧
    traceGrows w w' ∧
    (∀ result ev, result ∈ results → ev ∈ reportOf E w result → emitted w w' ev).
Proof.
  revert acc w. induction results as [|result results IH]; intros acc w Halloc.
  - eexists _, _. split; [done|]. split; [done|]. split; [done|].
    split; [reflexivity|]. intros result ev Hin. by apply elem_of_nil in Hin.
  - cbn [handleResults]. rewrite run_bind.
    destruct (handleResult_step E acc result w) as (acc1 & w1 & Hrun & Hheap & Hwatch & Hevs).
    { intros u t ->. apply (Halloc u t). by left. }
    rewrite Hrun. cbv iota beta.
    destruct (IH acc1 w1) as (acc' & w' & Hrest & Hheap' & Hwatch' & [evs2 Htr2] & Hevs').
    { intros u t Hin. rewrite Hheap. apply (Halloc u t). by right. }
    destruct Hevs as (evs1 & Htr1 & Hin1).
    exists acc', w'. split; [exact Hrest|]. split; [congruence|]. split_and!.
    + rewrite Hwatch', Hwatch. cbn [existsb]. by destruct (isSuccess result), (existsb _ _).
    + exists (evs1 ++ evs2). by rewrite Htr2, Htr1, app_assoc.
    + intros r ev Hr Hev. apply elem_of_cons in Hr as [->|Hr].
      * exists (evs1 ++ evs2). split; [by rewrite Htr2, Htr1, app_assoc|].
        apply elem_of_app. left. by apply Hin1.
      * assert (reportOf E w1 r = reportOf E w r) as Hsame.
        { destruct r; simpl; [|done..]. unfold hashOfRef. by rewrite Hheap. }
        rewrite <- Hsame in Hev.
        destruct (Hevs' r ev Hr Hev) as (evs3 & Htr3 & Hin3).
        exists (evs1 ++ evs3). split; [by rewrite Htr3, Htr1, app_assoc|].
        apply elem_of_app. by right.
Qed.

#[local] Instance subscriptionKept_preorder : PreOrder subscriptionKept.
Proof. split; unfold subscriptionKept; [done|]. intros ???; congruence. Qed.

Lemma callExecutor_subscriptionKept E ep mops :
  keeps subscriptionKept (callExecutor E ep mops).
Proof.
  unfold callExecutor, executorBundle, executorBundleCompressed, placeCreated.
  keeps_auto; done.
Qed.

(** X17.  After [sendToExecutor] the manager is subscribed to blocks if
    one of the results has the status success, whether it was subscribed
    before or not; when none has, the subscription is as it was. *)
Theorem success_starts_watching (E : Env) (ep : Address)
    (mempoolOps : list MempoolUserOperation) (w : World)
    (bundles : list (list BundleResult)) (w1 : World) :
  callExecutor E ep mempoolOps w = (Ok bundles, w1) →
  (∀ u t, success u t ∈ concat bundles → is_Some (heap w1 !! t)) →
  unWatch (sendToExecutor E ep mempoolOps w).2 =
    if existsb isSuccess (concat bundles) then true else unWatch w.
Proof.
  intros Hcall Halloc.
  pose proof (callExecutor_subscriptionKept E ep mempoolOps w) as Hkept.
  rewrite Hcall in Hkept. unfold subscriptionKept in Hkept. simpl in Hkept.
  destruct (sendToExecutor_run E ep mempoolOps w bundles w1 Hcall) as [evs ->].
  destruct (handleResults_steps E None (concat bundles) (recordAll evs w1) Halloc)
    as (acc' & w' & -> & _ & Hwatch & _).
  simpl. by rewrite Hwatch, <- Hkept.
Qed.

Lemma success_starts_watching_witness :
  unWatch freshWorld = false ∧
  unWatch (sendToExecutor bundlingEnv ep06 [Plain "op1"; Plain "op2"] freshWorld).2 = true ∧
  unWatch (sendToExecutor rejectingEnv ep06 [Plain "op1"; Plain "op2"] freshWorld).2 = false.
Proof.
  split; [reflexivity|]. split.
  - rewrite (success_starts_watching bundlingEnv ep06 [Plain "op1"; Plain "op2"] freshWorld
               [[success opInfo1 0%nat; success opInfo2 0%nat]]
               (callExecutor bundlingEnv ep06 [Plain "op1"; Plain "op2"] freshWorld).2);
      [reflexivity|reflexivity|].
    intros u t Hin. simpl in Hin.
    apply elem_of_cons in Hin as [Heq|Hin];
      [|apply elem_of_cons in Hin as [Heq|Hin]; [|by apply elem_of_nil in Hin]];
      injection Heq as -> ->; eexists; reflexivity.
  - rewrite (success_starts_watching rejectingEnv ep06 [Plain "op1"; Plain "op2"] freshWorld
               [[failure "0x01" "AA21" (Plain "op1");
                 resubmit "0x02" (Plain "op2") ep06 "AA25"]]
               (callExecutor rejectingEnv ep06 [Plain "op1"; Plain "op2"] freshWorld).2);
      [reflexivity|reflexivity|].
    intros u t Hin. simpl in Hin.
    apply elem_of_cons in Hin as [Heq|Hin]; [discriminate|].
    apply elem_of_cons in Hin as [Heq|Hin]; [discriminate|]. by apply elem_of_nil in Hin.
Defined.

(** X18.  When the executor has answered, [sendToExecutor] handles every
    result and does not raise.  Of a success the mempool is told that the
    operation is submitted with its transaction, and the monitor that it is
    submitted, with the hash of that transaction; of a failure the mempool
    is told to drop the operation from processing, the event manager that
    it was dropped, with the reason and its AA error, and the monitor that
    it is rejected, without a hash; of a resubmission the mempool is told
    to drop the operation from processing and to add it again for its
    entry point.  Each of them is counted by its metric. *)
Theorem results_reported (E : Env) (ep : Address) (mempoolOps : list MempoolUserOperation)
    (w : World) (bundles : list (list BundleResult)) (w1 : World) :
  callExecutor E ep mempoolOps w = (Ok bundles, w1) →
  (∀ u t, success u t ∈ concat bundles → is_Some (heap w1 !! t)) →
  is_throw (sendToExecutor E ep mempoolOps w).1 = false ∧
  heap (sendToExecutor E ep mempoolOps w).2 = heap w1 ∧
  ∀ result ev, result ∈ concat bundles → ev ∈ reportOf E w1 result →
    emitted w1 (sendToExecutor E ep mempoolOps w).2 ev.
Proof.
  intros Hcall Halloc.
  destruct (sendToExecutor_run E ep mempoolOps w bundles w1 Hcall) as [evs ->].
  destruct (handleResults_steps E None (concat bundles) (recordAll evs w1) Halloc)
    as (acc' & w' & -> & Hheap & _ & _ & Hevs).
  split; [done|]. split; [done|]. intros result ev Hr Hev.
  destruct (Hevs result ev Hr Hev) as (evs2 & Htr & Hin).
  exists (evs ++ evs2). split.
  - simpl in *. by rewrite Htr, app_assoc.
  - apply elem_of_app. by right.
Qed.

Lemma results_reported_witness :
  emitted (callExecutor rejectingEnv ep06 [Plain "op1"; Plain "op2"] freshWorld).2
    (sendToExecutor rejectingEnv ep06 [Plain "op1"; Plain "op2"] freshWorld).2
    (EvEmitDropped "0x01" "AA21" "AA21") ∧
  emitted (callExecutor rejectingEnv ep06 [Plain "op1"; Plain "op2"] freshWorld).2
    (sendToExecutor rejectingEnv ep06 [Plain "op1"; Plain "op2"] freshWorld).2
    (EvMempoolAdd (Plain "op2") ep06).
Proof.
  destruct (results_reported rejectingEnv ep06 [Plain "op1"; Plain "op2"] freshWorld
              [[failure "0x01" "AA21" (Plain "op1");
                resubmit "0x02" (Plain "op2") ep06 "AA25"]]
              (callExecutor rejectingEnv ep06 [Plain "op1"; Plain "op2"] freshWorld).2)
    as (_ & _ & Hevs); [reflexivity| |].
  { intros u t Hin. simpl in Hin.
    apply elem_of_cons in Hin as [Heq|Hin]; [discriminate|].
    apply elem_of_cons in Hin as [Heq|Hin]; [discriminate|]. by apply elem_of_nil in Hin. }
  split.
  - apply (Hevs (failure "0x01" "AA21" (Plain "op1"))).
    + simpl. apply list_elem_of_here.
    + simpl. apply list_elem_of_further, list_elem_of_here.
  - apply (Hevs (resubmit "0x02" (Plain "op2") ep06 "AA25")).
    + simpl. apply list_elem_of_further, list_elem_of_here.
    + simpl. apply list_elem_of_further, list_elem_of_here.
Defined.

(** *** When the subscription is closed *)

Local Abbreviation quiet := (callsOnly (fun ev => negb (isSubscription ev))).

Ltac quiet_leaf :=
  first [ apply callsOnly_record; reflexivity
        | apply callsOnly_same; reflexivity
        | reflexivity ].
Ltac quiet_auto := keeps_auto; try quiet_leaf.

Lemma removeSubmitted_quiet h : keeps quiet (removeSubmitted h).
Proof. unfold removeSubmitted. quiet_auto. Qed.

Lemma replaceTransaction_quiet E r reason : keeps quiet (replaceTransaction E r reason).
Proof.
  pose proof (allocTx_callsOnly (fun ev => negb (isSubscription ev))).
  pose proof (updateTx_callsOnly (fun ev => negb (isSubscription ev))).
  pose proof removeSubmitted_quiet.
  unfold replaceTransaction, executorReplaceTransaction, markWalletProcessed, replaceSubmitted.
  quiet_auto.
Qed.

Lemma refreshTransactionStatus_quiet E ep r :
  keeps quiet (refreshTransactionStatus E ep r).
Proof.
  pose proof (updateTx_callsOnly (fun ev => negb (isSubscription ev))).
  pose proof removeSubmitted_quiet. pose proof replaceTransaction_quiet.
  unfold refreshTransactionStatus, resolveStatuses, fetchBundleStatus, onIncluded, onFailed,
    checkFrontrun, markWalletProcessed.
  quiet_auto.
Qed.

Lemma handleBlockResume_quiet E : keeps quiet (handleBlockResume E).
Proof.
  pose proof refreshTransactionStatus_quiet. pose proof replaceTransaction_quiet.
  unfold handleBlockResume, refreshUserOperationStatuses, gasPricePass, stuckPass,
    gasPriceTask, stuckTask, fetchGasPrice, dumpSubmittedOps, noOpsWarning.
  quiet_auto.
Qed.

Lemma replaceTransaction_subscriptionKept E r reason :
  keeps subscriptionKept (replaceTransaction E r reason).
Proof.
  assert (∀ txInfo, keeps subscriptionKept (allocTx txInfo)) by (intros ? ?; done).
  unfold replaceTransaction, executorReplaceTransaction, markWalletProcessed, replaceSubmitted,
    removeSubmitted, updateTx.
  quiet_auto.
Qed.

Lemma refreshTransactionStatus_subscriptionKept E ep r :
  keeps subscriptionKept (refreshTransactionStatus E ep r).
Proof.
  pose proof replaceTransaction_subscriptionKept.
  unfold refreshTransactionStatus, resolveStatuses, fetchBundleStatus, onIncluded, onFailed,
    checkFrontrun, markWalletProcessed, removeSubmitted, updateTx.
  quiet_auto.
Qed.

Lemma handleBlockResume_subscriptionKept E : keeps subscriptionKept (handleBlockResume E).
Proof.
  pose proof refreshTransactionStatus_subscriptionKept.
  pose proof replaceTransaction_subscriptionKept.
  unfold handleBlockResume, refreshUserOperationStatuses, gasPricePass, stuckPass,
    gasPriceTask, stuckTask, fetchGasPrice, dumpSubmittedOps, noOpsWarning.
  quiet_auto.
Qed.

(** What an idle tick does: it never gets to an [await]. *)
Lemma handleBlockEnter_idle (block : Block) (w : World) :
  currentlyHandlingBlock w = false → submitted w = [] →
  handleBlockEnter block w =
    (Ok Finished,
     setCurrentlyHandlingBlock false
       (setUnWatch false
          (recordAll (idleTickEvents (unWatch w)) (setCurrentlyHandlingBlock true w)))).
Proof.
  intros Hflag Hsub. unfold handleBlockEnter, dumpSubmittedOps. run. rewrite Hflag. run.
  rewrite Hsub. simpl. unfold stopWatchingBlocks. run.
  destruct (unWatch w) eqn:Hw; run.
  - by rewrite !record_eq, !recordAll_recordAll.
  - f_equal. unfold setCurrentlyHandlingBlock, setUnWatch, recordAll, record. simpl.
    by rewrite Hw.
Qed.

(** X23.  The block subscription is closed by a tick that finds the
    submitted store empty, and only by such a tick.  An idle tick
    announces itself, closes the subscription if there is one, clears the
    flag and does nothing else.  A tick that finds a submitted operation
    leaves the subscription as it is, however it ends and even when it
    settles the last operation: the subscription is then closed by the
    next tick. *)
Theorem subscription_closed_when_idle (E : Env) (block : Block) (w : World) :
  currentlyHandlingBlock w = false →
  (submitted w = [] →
     (handleBlock E block w).1 = Ok tt ∧
     unWatch (handleBlock E block w).2 = false ∧
     currentlyHandlingBlock (handleBlock E block w).2 = false ∧
     heap (handleBlock E block w).2 = heap w ∧
     submitted (handleBlock E block w).2 = [] ∧
     processing (handleBlock E block w).2 = processing w ∧
     outstanding (handleBlock E block w).2 = outstanding w ∧
     trace (handleBlock E block w).2 = trace w ++ idleTickEvents (unWatch w)) ∧
  (submitted w ≠ [] →
     unWatch (handleBlock E block w).2 = unWatch w ∧
     callsOnly (fun ev => negb (isSubscription ev)) w (handleBlock E block w).2).
Proof.
  intros Hflag. unfold handleBlock. rewrite run_bind. split.
  - intros Hnone. rewrite (handleBlockEnter_idle block w Hflag Hnone). simpl.
    split_and!; done.
  - intros Hsome. rewrite (handleBlockEnter_in_flight block w Hflag Hsome).
    cbv iota beta. split.
    + apply (handleBlockResume_subscriptionKept E
               (record (EvLog lvl_debug "handling block" [])
                  (setCurrentlyHandlingBlock true w))).
    + etrans; [|apply (handleBlockResume_quiet E)]. etrans; [|by apply callsOnly_record].
      by apply callsOnly_same.
Qed.

Lemma subscription_closed_when_idle_witness :
  submitted (handleBlock includedEnv (mkBlock (Some 12)) world1).2 = [] ∧
  unWatch (handleBlock includedEnv (mkBlock (Some 12)) world1).2 = true ∧
  unWatch (handleBlock includedEnv (mkBlock (Some 13))
             (handleBlock includedEnv (mkBlock (Some 12)) world1).2).2 = false.
Proof.
  assert (submitted (handleBlock includedEnv (mkBlock (Some 12)) world1).2 = []) as Hsettled
    by (vm_compute; reflexivity).
  assert (currentlyHandlingBlock (handleBlock includedEnv (mkBlock (Some 12)) world1).2
          = false) as Hdone by (vm_compute; reflexivity).
  destruct (subscription_closed_when_idle includedEnv (mkBlock (Some 12)) world1 eq_refl)
    as [_ Hbusy].
  destruct (subscription_closed_when_idle includedEnv (mkBlock (Some 13)) _ Hdone)
    as [Hidle _].
  split; [exact Hsettled|]. split.
  - apply Hbusy. discriminate.
  - apply (Hidle Hsettled).
Defined.

End ManagerProofs.

(** ** The bundling timer *)

Module TimerProofs.
Import Timer.

Lemma setBundlingMode_scheduled (m : BundlingMode) (s : Timers) :
  scheduled s = option_list (timer s) →
  scheduled (setBundlingMode m s) = option_list (timer (setBundlingMode m s)) ∧
  (is_Some (timer (setBundlingMode m s)) ↔ m = auto).
Proof.
  intros Hs. unfold setBundlingMode.
  destruct m, (timer s) as [h|] eqn:Ht; simpl in *.
  - split; [by rewrite Ht|]. rewrite Ht. split; [done|]. intros _. by eexists.
  - rewrite Hs. split; [done|]. split; [done|]. intros _. by eexists.
  - rewrite Hs. simpl. rewrite Nat.eqb_refl. simpl. split; [done|].
    split; [intros [? ?]; done|done].
  - rewrite Ht. split; [done|]. split; [intros [? ?]; done|done].
Qed.

Lemma setBundlingMode_all (modes : list BundlingMode) (m0 : BundlingMode) (s : Timers) :
  scheduled s = option_list (timer s) →
  (is_Some (timer s) ↔ m0 = auto) →
  let s' := fold_left (fun s m => setBundlingMode m s) modes s in
  scheduled s' = option_list (timer s') ∧
  (is_Some (timer s') ↔ last (m0 :: modes) = Some auto).
Proof.
  revert m0 s. induction modes as [|m modes IH]; intros m0 s Hs Hm; simpl.
  - split; [done|]. rewrite Hm. split; [by intros ->|by intros [= ->]].
  - destruct (setBundlingMode_scheduled m s Hs) as [Hs' Hm'].
    destruct (IH m _ Hs' Hm') as [H1 H2]. split; [exact H1|].
    rewrite H2. by destruct modes.
Qed.

(** X2.  However the bundling mode is switched after the constructor, the
    manager has at most one interval scheduled, the one it holds in
    [this.timer]: exactly one when the mode last asked for is auto, none
    when it is manual.  Asking for the mode that is already in force
    changes nothing. *)
Theorem one_bundling_timer (mode : BundlingMode) (modes : list BundlingMode) (n : nat) :
  let s := fold_left (fun s m => setBundlingMode m s) modes (construct mode (idle n)) in
  scheduled s = option_list (timer s) ∧
  (is_Some (timer s) ↔ last (mode :: modes) = Some auto) ∧
  (last (mode :: modes) = Some auto → ∃ h, scheduled s = [h]) ∧
  (last (mode :: modes) = Some manual → scheduled s = []) ∧
  (∀ m, setBundlingMode m (setBundlingMode m s) = setBundlingMode m s).
Proof.
  intros s.
  assert (scheduled s = option_list (timer s) ∧
          (is_Some (timer s) ↔ last (mode :: modes) = Some auto)) as [Hs Hlast].
  { apply setBundlingMode_all.
    - by destruct mode.
    - destruct mode; simpl.
      + split; [done|]. intros _. by eexists.
      + split; [intros [? ?]; done|done]. }
  split; [done|]. split; [done|]. split_and!.
  - intros Hauto. apply Hlast in Hauto as [h Hh]. exists h. by rewrite Hs, Hh.
  - intros Hmanual. destruct (timer s) as [h|] eqn:Ht.
    + assert (is_Some (Some h)) as Hsome by (by eexists).
      apply Hlast in Hsome. congruence.
    + by rewrite Hs.
  - intros m. unfold setBundlingMode.
    destruct m, (timer s) as [h|] eqn:Ht; simpl; rewrite ?Ht; try done.
Qed.


Lemma one_bundling_timer_witness :
  (∃ h, scheduled (fold_left (fun s m => setBundlingMode m s) [auto; auto; manual; auto]
                     (construct manual (idle 0))) = [h]) ∧
  scheduled (fold_left (fun s m => setBundlingMode m s) [manual; manual]
               (construct auto (idle 0))) = [].
Proof.
  split.
  - destruct (one_bundling_timer manual [auto; auto; manual; auto] 0)
      as (_ & _ & Hauto & _). apply Hauto. reflexivity.
  - destruct (one_bundling_timer auto [manual; manual] 0) as (_ & _ & _ & Hmanual & _).
    apply Hmanual. reflexivity.
Defined.
End TimerProofs.
